(** * A shallow embedding of the distributed file system core

    The development follows the C++ sources:
    - [dfs_common.h]   : constants, message types, wire and request records;
    - [network.h]      : CRC32, [send_frame] / [recv_frame] on a socket;
    - [chunk_server.h] : the chunk table with its capacity accounting;
    - [client_lib.h]   : the client's open-file table and chunk helpers.

    Unsigned machine integers are integers of [Z] with every wrap-around
    written out ([wrap32], [wrap64]); [std::vector<uint8_t>] is a
    [list byte]; [std::map] is a [gmap]; a C++ statement whose behaviour
    the language leaves undefined (an access outside an object, a signed
    overflow) yields [Undefined]. *)

From Stdlib Require Import ZArith List Lia Bool Sorted.
From Stdlib.Strings Require Import Byte.
From stdpp Require Import gmap strings list fin_maps pretty sorting.

Local Open Scope Z_scope.

(** ** Machine integers and bytes *)

Definition wrap32 (x : Z) : Z := x mod 2 ^ 32.
Definition wrap64 (x : Z) : Z := x mod 2 ^ 64.

(** [INT_MAX] of the C++ [int] (32 bits on the platforms the code targets). *)
Definition INT_MAX : Z := 2 ^ 31 - 1.

(** The value of a [uint8_t]. *)
Definition u8 (b : byte) : Z := Z.of_N (Byte.to_N b).

(** The [uint8_t] holding the low eight bits of an integer. *)
Definition byte_of_Z (z : Z) : byte :=
  match Byte.of_N (Z.to_N (z mod 256)) with
  | Some b => b
  | None => x00
  end.

(** [v.size()] of a vector, as a [size_t]. *)
Definition vsize {A} (v : list A) : Z := Z.of_nat (length v).

(** The outcome of running a piece of C++: a result, or undefined
    behaviour. *)
Inductive exec (A : Type) : Type :=
| Ret (a : A)
| Undefined.
Arguments Ret {A} a.
Arguments Undefined {A}.

Definition bind {A B} (m : exec A) (k : A -> exec B) : exec B :=
  match m with
  | Ret a => k a
  | Undefined => Undefined
  end.

Notation "'run' x <- m 'in' k" := (bind m (fun x => k))
  (at level 10, x pattern, m at level 200, k at level 200, only parsing).

(** ** dfs_common.h: configuration and message types *)

Definition DFS_CHUNK_SIZE_MB : Z := 64.
Definition DFS_REPLICATION_FACTOR : Z := 3.
Definition DFS_METADATA_CACHE_TTL_SEC : Z := 300.
Definition DFS_CHUNK_SIZE_BYTES : Z := wrap32 (DFS_CHUNK_SIZE_MB * 1024 * 1024).
Definition DFS_PROTOCOL_MAGIC : Z := 0xDEADBEEF.
Definition DFS_PROTOCOL_VERSION : Z := 1.

Definition OP_READ : Z := 0x01.
Definition OP_WRITE : Z := 0x02.
Definition OP_DELETE : Z := 0x03.
Definition OP_REPLICATE : Z := 0x04.
Definition OP_METADATA_QUERY : Z := 0x06.
Definition OP_FILE_CREATE : Z := 0x07.
Definition OP_FILE_DELETE : Z := 0x08.
Definition OP_MKDIR : Z := 0x09.
Definition OP_ACK : Z := 0xFF.

(** ** network.h: CRC32 *)

(** One pass of the inner loop of [init_crc32_table] (the body run for one
    value of [j]). *)
Definition crc32_step (crc : Z) : Z :=
  if Z.testbit crc 0
  then Z.lxor (Z.shiftr crc 1) 0xEDB88320
  else Z.shiftr crc 1.

(** The table entry [init_crc32_table] stores at index [i]: eight passes of
    the inner loop from [crc = i]. *)
Definition crc32_entry (i : Z) : Z := Nat.iter 8 crc32_step i.

(** [crc32_table] once [init_crc32_table] has run.  [calculate_crc32] runs
    the initialisation before it reads the table, so no caller sees the
    table before it is filled. *)
Definition init_crc32_table : list Z :=
  List.map (fun i => crc32_entry (Z.of_nat i)) (seq 0 256).

Definition crc32_table : list Z := Eval vm_compute in init_crc32_table.

(** The body of the loop of [calculate_crc32] for one byte. *)
Definition crc32_update (crc : Z) (b : byte) : Z :=
  Z.lxor (Z.shiftr crc 8)
         (nth (Z.to_nat (Z.land (Z.lxor crc (u8 b)) 0xFF)) crc32_table 0).

(** [NetworkSocket::calculate_crc32 (data, length)]: the bytes
    [data[0 .. length)] are the first [length] elements of the list. *)
Definition calculate_crc32 (data : list byte) (length : Z) : Z :=
  Z.lxor (fold_left crc32_update (firstn (Z.to_nat length) data) 0xFFFFFFFF)
         0xFFFFFFFF.

(** ** dfs_common.h: the protocol frame *)

(** [struct ProtocolFrame].  The [payload] member is an array of
    [DFS_CHUNK_SIZE_BYTES] bytes: [payload f i] is the byte at index [i],
    and only indices below [DFS_CHUNK_SIZE_BYTES] are inside the object. *)
Module ProtocolFrame.
Record t : Type := mk {
  magic : Z;
  version : Z;
  message_type : Z;
  payload_size : Z;
  checksum : Z;
  payload : nat -> byte
}.
End ProtocolFrame.
Import ProtocolFrame.

(** [sizeof(ProtocolFrame)]: three [uint32_t], two [uint16_t] and the
    payload array, with no padding between them. *)
Definition sizeof_ProtocolFrame : Z := 4 + 2 + 2 + 4 + 4 + DFS_CHUNK_SIZE_BYTES.

(** The object representation of an unsigned integer of [n] bytes on the
    little-endian hosts the code is written for. *)
Fixpoint le_bytes (n : nat) (x : Z) : list byte :=
  match n with
  | O => []
  | S n' => byte_of_Z x :: le_bytes n' (Z.shiftr x 8)
  end.

(** The unsigned integer a sequence of bytes represents, low byte first. *)
Fixpoint le_value (l : list byte) : Z :=
  match l with
  | [] => 0
  | b :: l' => u8 b + 256 * le_value l'
  end.

(** The bytes of the five header members, in declaration order. *)
Definition header_bytes (f : ProtocolFrame.t) : list byte :=
  le_bytes 4 (magic f) ++ le_bytes 2 (version f) ++ le_bytes 2 (message_type f)
  ++ le_bytes 4 (payload_size f) ++ le_bytes 4 (checksum f).

(** The first [n] bytes of the payload array. *)
Definition payload_bytes (f : ProtocolFrame.t) (n : Z) : list byte :=
  List.map (payload f) (seq 0 (Z.to_nat n)).

(** The bytes [ptr, ptr + n) of a frame object, for [16 <= n]. *)
Definition object_bytes (f : ProtocolFrame.t) (n : Z) : list byte :=
  header_bytes f ++ payload_bytes f (n - 16).

(** [std::memcpy(&frame, header, 16)]: the five header members are
    overwritten, the payload array is not touched. *)
Definition memcpy_header (f : ProtocolFrame.t) (h : list byte) : ProtocolFrame.t :=
  {| magic := le_value (firstn 4 h);
     version := le_value (firstn 2 (skipn 4 h));
     message_type := le_value (firstn 2 (skipn 6 h));
     payload_size := le_value (firstn 4 (skipn 8 h));
     checksum := le_value (firstn 4 (skipn 12 h));
     payload := payload f |}.

(** [std::memcpy(frame.payload, src, n)] for a source that holds at least
    [n] bytes. *)
Definition memcpy_payload (f : ProtocolFrame.t) (src : list byte) (n : Z)
  : ProtocolFrame.t :=
  {| magic := magic f;
     version := version f;
     message_type := message_type f;
     payload_size := payload_size f;
     checksum := checksum f;
     payload := fun i => if (i <? Z.to_nat n)%nat then nth i src x00 else payload f i |}.

(** ** network.h: sockets *)

(** [class NetworkSocket].  Beside the descriptor, the model keeps the two
    byte queues of the connection that the kernel holds for it: [inbox],
    the bytes the peer has sent and [recv] has not yet returned, and
    [outbox], the bytes handed to [send]. *)
Module NetworkSocket.
Record t : Type := mk {
  socket_fd_ : Z;
  is_server_ : bool;
  inbox : list byte;
  outbox : list byte
}.
End NetworkSocket.
Import NetworkSocket.

(** [NetworkSocket::send_data]: the loop hands every byte of [data] to
    [send], in order; on a connected socket [send] accepts them. *)
Definition send_data (sock : NetworkSocket.t) (data : list byte)
  : bool * NetworkSocket.t :=
  if socket_fd_ sock <? 0 then (false, sock)
  else (true, {| socket_fd_ := socket_fd_ sock; is_server_ := is_server_ sock;
                 inbox := inbox sock; outbox := outbox sock ++ data |}).

(** [NetworkSocket::recv_data]: one call of [recv], which returns the
    queued bytes up to [max_size]; with nothing queued and [0 < max_size]
    the call times out ([received < 0]). *)
Definition recv_data (sock : NetworkSocket.t) (max_size : Z)
  : bool * list byte * NetworkSocket.t :=
  if socket_fd_ sock <? 0 then (false, [], sock)
  else if (0 <? max_size) && (length (inbox sock) =? 0)%nat
  then (false, repeat x00 (Z.to_nat max_size), sock)
  else (true, firstn (Z.to_nat max_size) (inbox sock),
        {| socket_fd_ := socket_fd_ sock; is_server_ := is_server_ sock;
           inbox := skipn (Z.to_nat max_size) (inbox sock);
           outbox := outbox sock |}).

(** [NetworkSocket::send_frame].  [frame_size] is computed as written:
    four [uint32_t] and two [uint16_t] plus the payload size.  Reading
    [frame_size] bytes from [&frame] stays inside the object only while
    [frame_size <= sizeof(ProtocolFrame)]. *)
Definition send_frame (sock : NetworkSocket.t) (frame : ProtocolFrame.t)
  : exec (bool * NetworkSocket.t) :=
  let frame_size := 4 * 4 + 2 * 2 + payload_size frame in
  if frame_size <=? sizeof_ProtocolFrame
  then Ret (send_data sock (object_bytes frame frame_size))
  else Undefined.

(** [NetworkSocket::recv_frame].  The result is the returned flag, the
    frame object as the call leaves it, and the socket.  The copy into
    [frame.payload] is defined when [payload_size] bytes fit the array and
    the received vector holds that many. *)
Definition recv_frame (sock : NetworkSocket.t) (frame : ProtocolFrame.t)
  : exec (bool * ProtocolFrame.t * NetworkSocket.t) :=
  let '(ok, header_data, sock1) := recv_data sock 16 in
  if negb ok then Ret (false, frame, sock1)
  else if negb (vsize header_data =? 16) then Ret (false, frame, sock1)
  else
    let frame1 := memcpy_header frame header_data in
    if negb (magic frame1 =? DFS_PROTOCOL_MAGIC) then Ret (false, frame1, sock1)
    else
      let '(ok2, payload_data, sock2) := recv_data sock1 (payload_size frame1) in
      if negb ok2 then Ret (false, frame1, sock2)
      else if (payload_size frame1 <=? DFS_CHUNK_SIZE_BYTES)
              && (payload_size frame1 <=? vsize payload_data)
      then
        let frame2 := memcpy_payload frame1 payload_data (payload_size frame1) in
        let calculated_crc :=
          calculate_crc32 (payload_bytes frame2 (payload_size frame2))
                          (payload_size frame2) in
        if negb (calculated_crc =? checksum frame2) then Ret (false, frame2, sock2)
        else Ret (true, frame2, sock2)
      else Undefined.

(** ** dfs_common.h: request and response records *)

Module FileReadRequest.
Record t : Type := mk {
  chunk_id : Z;
  offset : Z;
  length : Z;
  version : Z;
  client_id : string
}.
End FileReadRequest.

Module FileReadResponse.
Record t : Type := mk {
  chunk_id : Z;
  offset : Z;
  length : Z;
  data : list byte;
  success : bool;
  error_message : string
}.
End FileReadResponse.

Module FileWriteRequest.
Record t : Type := mk {
  chunk_id : Z;
  offset : Z;
  data : list byte;
  version : Z;
  client_id : string
}.
End FileWriteRequest.

Module FileWriteResponse.
Record t : Type := mk {
  chunk_id : Z;
  success : bool;
  error_message : string
}.
End FileWriteResponse.

(** ** dfs_common.h: chunk handles and file metadata *)

Module ChunkLocation.
Record t : Type := mk {
  server_id : string;
  ip_address : string;
  port : Z;
  generation_number : Z
}.
End ChunkLocation.

Module ChunkHandle.
Record t : Type := mk {
  chunk_id : Z;
  replicas : list ChunkLocation.t;
  version : Z;
  creation_time : Z;
  size : Z
}.
End ChunkHandle.

Module FileMetadata.
Record t : Type := mk {
  path : string;
  file_id : Z;
  permissions : Z;
  creation_time : Z;
  modification_time : Z;
  file_size : Z;
  chunks : list ChunkHandle.t;
  replication_factor : Z;
  owner : string;
  is_directory : bool
}.

(** The constructor [FileMetadata()]: the strings and the chunk vector are
    empty, both times are [std::time(nullptr)]. *)
Definition default (now : Z) : t :=
  {| path := EmptyString; file_id := 0; permissions := 420 (* 0644 *);
     creation_time := now; modification_time := now; file_size := 0;
     chunks := []; replication_factor := DFS_REPLICATION_FACTOR;
     owner := EmptyString; is_directory := false |}.
End FileMetadata.

(** The request and response structs cross the wire as raw object bytes
    ([std::memcpy] of the whole struct).  What those bytes are is fixed by
    the platform's object layout, so the sizes and the two directions of
    the copy are parameters; so are the values of the scalar members that a
    default-initialised request or response holds. *)
Class Platform : Type := {
  sizeof_FileReadRequest : Z;
  sizeof_FileReadResponse : Z;
  sizeof_FileWriteRequest : Z;
  sizeof_FileWriteResponse : Z;
  sizeof_FileMetadata : Z;
  load_FileMetadata : list byte -> FileMetadata.t;
  load_FileReadRequest : list byte -> FileReadRequest.t;
  store_FileReadRequest : FileReadRequest.t -> list byte;
  load_FileReadResponse : list byte -> FileReadResponse.t;
  store_FileReadResponse : FileReadResponse.t -> list byte;
  load_FileWriteRequest : list byte -> FileWriteRequest.t;
  store_FileWriteRequest : FileWriteRequest.t -> list byte;
  load_FileWriteResponse : list byte -> FileWriteResponse.t;
  store_FileWriteResponse : FileWriteResponse.t -> list byte;
  indeterminate_uint32 : Z;
  indeterminate_FileReadResponse : FileReadResponse.t;
  indeterminate_FileWriteResponse : FileWriteResponse.t
}.

(** [FileReadResponse resp;]: the vector and the string are empty, the
    scalar members are indeterminate. *)
Definition fresh_FileReadResponse `{Platform} : FileReadResponse.t :=
  {| FileReadResponse.chunk_id := FileReadResponse.chunk_id indeterminate_FileReadResponse;
     FileReadResponse.offset := FileReadResponse.offset indeterminate_FileReadResponse;
     FileReadResponse.length := FileReadResponse.length indeterminate_FileReadResponse;
     FileReadResponse.data := [];
     FileReadResponse.success := FileReadResponse.success indeterminate_FileReadResponse;
     FileReadResponse.error_message := EmptyString |}.

(** [FileWriteResponse resp;]. *)
Definition fresh_FileWriteResponse `{Platform} : FileWriteResponse.t :=
  {| FileWriteResponse.chunk_id := FileWriteResponse.chunk_id indeterminate_FileWriteResponse;
     FileWriteResponse.success := FileWriteResponse.success indeterminate_FileWriteResponse;
     FileWriteResponse.error_message := EmptyString |}.

(** [v.resize(n)]: truncation, or growth by value-initialised (zero)
    bytes. *)
Definition resize (v : list byte) (n : Z) : list byte :=
  firstn (Z.to_nat n) v ++ repeat x00 (Z.to_nat n - List.length v).

(** [std::memcpy(v.data() + off, src.data(), src.size())] for
    [off + src.size() <= v.size()]. *)
Definition memcpy_at (v : list byte) (off : Z) (src : list byte) : list byte :=
  firstn (Z.to_nat off) v ++ src ++ skipn (Z.to_nat off + List.length src) v.

(** The range [v.begin() + off, v.begin() + off + n) of a vector. *)
Definition slice (v : list byte) (off n : Z) : list byte :=
  firstn (Z.to_nat n) (skipn (Z.to_nat off) v).

(** [f.payload_size = n] *)
Definition set_payload_size (f : ProtocolFrame.t) (n : Z) : ProtocolFrame.t :=
  {| magic := magic f; version := ProtocolFrame.version f;
     message_type := message_type f; payload_size := n;
     checksum := ProtocolFrame.checksum f; payload := payload f |}.

(** [f.checksum = c] *)
Definition set_checksum (f : ProtocolFrame.t) (c : Z) : ProtocolFrame.t :=
  {| magic := magic f; version := ProtocolFrame.version f;
     message_type := message_type f; payload_size := payload_size f;
     checksum := c; payload := payload f |}.

(** [f.magic = DFS_PROTOCOL_MAGIC; f.version = DFS_PROTOCOL_VERSION;
    f.message_type = ty] *)
Definition set_envelope (f : ProtocolFrame.t) (ty : Z) : ProtocolFrame.t :=
  {| magic := DFS_PROTOCOL_MAGIC; version := DFS_PROTOCOL_VERSION;
     message_type := ty; payload_size := payload_size f;
     checksum := ProtocolFrame.checksum f; payload := payload f |}.

(** [f.checksum = calculate_crc32(f.payload, f.payload_size)], defined
    when the bytes read lie inside the payload array. *)
Definition seal (f : ProtocolFrame.t) : exec ProtocolFrame.t :=
  if payload_size f <=? DFS_CHUNK_SIZE_BYTES
  then Ret (set_checksum f
              (calculate_crc32 (payload_bytes f (payload_size f)) (payload_size f)))
  else Undefined.

(** ** chunk_server.h: the storage node *)

(** [struct ChunkServer::StoredChunk]. *)
Module StoredChunk.
Record t : Type := mk {
  chunk_id : Z;
  data : list byte;
  version : Z;
  size : Z;
  creation_time : Z;
  last_access : Z;
  checksum : Z
}.
End StoredChunk.

Module ChunkServer.

(** The members of [class ChunkServer] that the chunk operations read or
    write. *)
Record t : Type := mk {
  max_capacity_ : Z;
  used_capacity_ : Z;
  running_ : bool;
  chunks_ : gmap Z StoredChunk.t
}.

(** The object the constructor leaves: [used_capacity_(0)],
    [running_(false)], an empty chunk table. *)
Definition init (max_capacity : Z) : t :=
  {| max_capacity_ := max_capacity; used_capacity_ := 0;
     running_ := false; chunks_ := ∅ |}.

Definition set_chunks (s : t) (used : Z) (m : gmap Z StoredChunk.t) : t :=
  {| max_capacity_ := max_capacity_ s; used_capacity_ := used;
     running_ := running_ s; chunks_ := m |}.

Definition write_failed (resp : FileWriteResponse.t) : FileWriteResponse.t :=
  {| FileWriteResponse.chunk_id := FileWriteResponse.chunk_id resp;
     FileWriteResponse.success := false;
     FileWriteResponse.error_message := "Insufficient storage capacity" |}.

Definition write_succeeded (req : FileWriteRequest.t) (resp : FileWriteResponse.t)
  : FileWriteResponse.t :=
  {| FileWriteResponse.chunk_id := FileWriteRequest.chunk_id req;
     FileWriteResponse.success := true;
     FileWriteResponse.error_message := FileWriteResponse.error_message resp |}.

(** [ChunkServer::handle_write].  [now] is the value of
    [std::time(nullptr)]; [resp] is the caller's response object.  The
    sums are taken in the types of the source: [uint64_t] for the capacity
    counters, [uint32_t] for [req.offset + (uint32_t)req.data.size()] and
    for [(uint32_t)chunk.size].  The [memcpy] into the resized buffer is
    defined when the copied range ends inside it. *)
Definition handle_write (s : t) (req : FileWriteRequest.t)
    (resp : FileWriteResponse.t) (now : Z)
  : exec (bool * FileWriteResponse.t * t) :=
  let req_data := FileWriteRequest.data req in
  if max_capacity_ s <? wrap64 (used_capacity_ s + vsize req_data)
  then Ret (false, write_failed resp, s)
  else
    match chunks_ s !! FileWriteRequest.chunk_id req with
    | None =>
        let new_chunk :=
          {| StoredChunk.chunk_id := FileWriteRequest.chunk_id req;
             StoredChunk.version := 1;
             StoredChunk.creation_time := now;
             StoredChunk.last_access := now;
             StoredChunk.data := req_data;
             StoredChunk.size := vsize req_data;
             StoredChunk.checksum := calculate_crc32 req_data (vsize req_data) |} in
        Ret (true, write_succeeded req resp,
             set_chunks s (wrap64 (used_capacity_ s + StoredChunk.size new_chunk))
               (<[FileWriteRequest.chunk_id req := new_chunk]> (chunks_ s)))
    | Some chunk =>
        let new_size :=
          Z.max (wrap32 (FileWriteRequest.offset req + wrap32 (vsize req_data)))
                (wrap32 (StoredChunk.size chunk)) in
        if max_capacity_ s
             <? wrap64 (wrap64 (used_capacity_ s - StoredChunk.size chunk) + new_size)
        then Ret (false, write_failed resp, s)
        else
          let used1 := wrap64 (used_capacity_ s - StoredChunk.size chunk) in
          let data1 := resize (StoredChunk.data chunk) new_size in
          if FileWriteRequest.offset req + vsize req_data <=? new_size
          then
            let data2 := memcpy_at data1 (FileWriteRequest.offset req) req_data in
            let chunk' :=
              {| StoredChunk.chunk_id := StoredChunk.chunk_id chunk;
                 StoredChunk.data := data2;
                 StoredChunk.version := wrap32 (StoredChunk.version chunk + 1);
                 StoredChunk.size := new_size;
                 StoredChunk.creation_time := StoredChunk.creation_time chunk;
                 StoredChunk.last_access := now;
                 StoredChunk.checksum := calculate_crc32 data2 new_size |} in
            Ret (true, write_succeeded req resp,
                 set_chunks s (wrap64 (used1 + StoredChunk.size chunk'))
                   (<[FileWriteRequest.chunk_id req := chunk']> (chunks_ s)))
          else Undefined
    end.

Definition read_failed (resp : FileReadResponse.t) (msg : string)
  : FileReadResponse.t :=
  {| FileReadResponse.chunk_id := FileReadResponse.chunk_id resp;
     FileReadResponse.offset := FileReadResponse.offset resp;
     FileReadResponse.length := FileReadResponse.length resp;
     FileReadResponse.data := FileReadResponse.data resp;
     FileReadResponse.success := false;
     FileReadResponse.error_message := msg |}.

Definition read_succeeded (resp : FileReadResponse.t) (bytes : list byte)
  : FileReadResponse.t :=
  {| FileReadResponse.chunk_id := FileReadResponse.chunk_id resp;
     FileReadResponse.offset := FileReadResponse.offset resp;
     FileReadResponse.length := FileReadResponse.length resp;
     FileReadResponse.data := FileReadResponse.data resp ++ bytes;
     FileReadResponse.success := true;
     FileReadResponse.error_message := FileReadResponse.error_message resp |}.

(** [chunk.last_access = now] *)
Definition touch (chunk : StoredChunk.t) (now : Z) : StoredChunk.t :=
  {| StoredChunk.chunk_id := StoredChunk.chunk_id chunk;
     StoredChunk.data := StoredChunk.data chunk;
     StoredChunk.version := StoredChunk.version chunk;
     StoredChunk.size := StoredChunk.size chunk;
     StoredChunk.creation_time := StoredChunk.creation_time chunk;
     StoredChunk.last_access := now;
     StoredChunk.checksum := StoredChunk.checksum chunk |}.

(** [ChunkServer::handle_read].  [read_size] is computed in [uint32_t]
    before the range check, as in the source; the iterator range handed to
    [insert] is defined when it ends inside [chunk.data]. *)
Definition handle_read (s : t) (req : FileReadRequest.t)
    (resp : FileReadResponse.t) (now : Z)
  : exec (bool * FileReadResponse.t * t) :=
  match chunks_ s !! FileReadRequest.chunk_id req with
  | None => Ret (false, read_failed resp "Chunk not found", s)
  | Some chunk =>
      let read_size :=
        Z.min (FileReadRequest.length req)
              (wrap32 (wrap32 (StoredChunk.size chunk) - FileReadRequest.offset req)) in
      if StoredChunk.size chunk <=? FileReadRequest.offset req
      then Ret (false, read_failed resp "Offset out of range", s)
      else if FileReadRequest.offset req + read_size <=? vsize (StoredChunk.data chunk)
      then
        Ret (true,
             read_succeeded resp
               (slice (StoredChunk.data chunk) (FileReadRequest.offset req) read_size),
             set_chunks s (used_capacity_ s)
               (<[FileReadRequest.chunk_id req := touch chunk now]> (chunks_ s)))
      else Undefined
  end.

(** [ChunkServer::delete_chunk]. *)
Definition delete_chunk (s : t) (chunk_id : Z) : bool * t :=
  match chunks_ s !! chunk_id with
  | None => (false, s)
  | Some chunk =>
      (true, set_chunks s (wrap64 (used_capacity_ s - StoredChunk.size chunk))
               (delete chunk_id (chunks_ s)))
  end.

(** [ChunkServer::write_chunk], the entry point kept for testing. *)
Definition write_chunk `{Platform} (s : t) (chunk_id : Z) (data : list byte) (now : Z)
  : exec (bool * t) :=
  let req := {| FileWriteRequest.chunk_id := chunk_id;
                FileWriteRequest.offset := 0;
                FileWriteRequest.data := data;
                FileWriteRequest.version := 1;
                FileWriteRequest.client_id := EmptyString |} in
  run (ok, _, s1) <- handle_write s req fresh_FileWriteResponse now in
  Ret (ok, s1).

(** [ChunkServer::read_chunk], the entry point kept for testing. *)
Definition read_chunk `{Platform} (s : t) (chunk_id : Z) (data : list byte) (now : Z)
  : exec (bool * list byte * t) :=
  let req := {| FileReadRequest.chunk_id := chunk_id;
                FileReadRequest.offset := 0;
                FileReadRequest.length := DFS_CHUNK_SIZE_BYTES;
                FileReadRequest.version := indeterminate_uint32;
                FileReadRequest.client_id := EmptyString |} in
  run (ok, resp, s1) <- handle_read s req fresh_FileReadResponse now in
  if ok then Ret (true, FileReadResponse.data resp, s1) else Ret (false, data, s1).

Section ProcessMessage.
Context `{Platform}.

(** [handle_replicate] is declared in the class; its definition is in no
    file of the repository. *)
Variable handle_replicate : t -> ProtocolFrame.t -> exec (bool * t).

(** [ChunkServer::process_message].  [response] is the caller's frame
    object; the members the function does not assign keep the value they
    had. *)
Definition process_message (s : t) (frame response : ProtocolFrame.t) (now : Z)
  : exec (bool * ProtocolFrame.t * t) :=
  let response := set_envelope response OP_ACK in
  run (response, s) <-
    (if message_type frame =? OP_READ then
       let req := load_FileReadRequest (payload_bytes frame sizeof_FileReadRequest) in
       run (ok, resp, s) <- handle_read s req fresh_FileReadResponse now in
       if ok
       then Ret (set_payload_size
                   (memcpy_payload response (store_FileReadResponse resp)
                      sizeof_FileReadResponse)
                   sizeof_FileReadResponse, s)
       else Ret (response, s)
     else if message_type frame =? OP_WRITE then
       let req := load_FileWriteRequest (payload_bytes frame sizeof_FileWriteRequest) in
       run (ok, resp, s) <- handle_write s req fresh_FileWriteResponse now in
       if ok
       then Ret (set_payload_size
                   (memcpy_payload response (store_FileWriteResponse resp)
                      sizeof_FileWriteResponse)
                   sizeof_FileWriteResponse, s)
       else Ret (response, s)
     else if message_type frame =? OP_DELETE then
       let chunk_id := le_value (payload_bytes frame 8) in
       let '(_, s) := delete_chunk s chunk_id in
       Ret (set_envelope response OP_ACK, s)
     else if message_type frame =? OP_REPLICATE then
       run (_, s) <- handle_replicate s frame in
       Ret (response, s)
     else Ret (set_envelope response OP_ACK, s)) in
  run response <- seal response in
  Ret (true, response, s).

End ProcessMessage.

End ChunkServer.

(** ** network.h: the connection pool *)

Module ConnectionPool.

(** [struct PooledConnection]; the shared pointer may be null. *)
Record PooledConnection : Type := mkPooled {
  socket : option NetworkSocket.t;
  last_used : Z
}.

Record t : Type := mk {
  pools_ : gmap string (list PooledConnection);
  max_pool_size_ : Z
}.

(** [ConnectionPool(pool_size)] *)
Definition init (pool_size : Z) : t := {| pools_ := ∅; max_pool_size_ := pool_size |}.

(** [ConnectionPool::make_key] *)
Definition make_key (ip : string) (port : Z) : string :=
  (ip +:+ ":" +:+ pretty port)%string.

(** [ConnectionPool::acquire].  [connect] is what
    [NetworkSocket::connect_to_server] does on a new socket during this
    call: its result and the socket it leaves. *)
Definition acquire (connect : string -> Z -> bool * NetworkSocket.t)
    (pool : t) (server_ip : string) (port : Z) : option NetworkSocket.t * t :=
  let key := make_key server_ip port in
  let fresh :=
    let '(ok, sock) := connect server_ip port in
    if ok then (Some sock, pool) else (None, pool) in
  match pools_ pool !! key with
  | Some conns =>
      match last conns with
      | Some conn =>
          (socket conn,
           {| pools_ := <[key := removelast conns]> (pools_ pool);
              max_pool_size_ := max_pool_size_ pool |})
      | None => fresh
      end
  | None => fresh
  end.

(** [ConnectionPool::release]: [pools_[key]] is created empty when the key
    is new; the socket is kept while the list is below the limit. *)
Definition release (pool : t) (key : string) (sock : option NetworkSocket.t)
    (now : Z) : t :=
  let conns := default [] (pools_ pool !! key) in
  if vsize conns <? max_pool_size_ pool
  then {| pools_ := <[key := conns ++ [mkPooled sock now]]> (pools_ pool);
          max_pool_size_ := max_pool_size_ pool |}
  else {| pools_ := <[key := conns]> (pools_ pool);
          max_pool_size_ := max_pool_size_ pool |}.

(** [ConnectionPool::clear] *)
Definition clear (pool : t) : t :=
  {| pools_ := ∅; max_pool_size_ := max_pool_size_ pool |}.

End ConnectionPool.

(** ** client_lib.h: the client session *)

(** What the world outside the client does during one call of a client
    method: the clock, the outcome of a connection attempt, the bytes the
    peer queues on a connection once it has read a request, and the
    contents of a frame object declared without an initialiser. *)
Record env : Type := mkEnv {
  now : Z;
  connect_to_server : string -> Z -> bool * NetworkSocket.t;
  peer : NetworkSocket.t -> NetworkSocket.t;
  indeterminate_frame : ProtocolFrame.t
}.

Module DistributedFileSystem.

(** [struct OpenFileHandle] *)
Record OpenFileHandle : Type := mkHandle {
  path : string;
  file_id : Z;
  current_offset : Z;
  chunks : list ChunkHandle.t;
  writable : bool;
  open_time : Z
}.

(** [struct CachedMetadata] *)
Record CachedMetadata : Type := mkCached {
  metadata : FileMetadata.t;
  cached_time : Z
}.

Record t : Type := mk {
  metadata_server_ip_ : string;
  metadata_port_ : Z;
  metadata_client_ : option NetworkSocket.t;
  chunk_pool_ : ConnectionPool.t;
  open_files_ : gmap Z OpenFileHandle;
  next_file_handle_ : Z;
  metadata_cache_ : gmap string CachedMetadata
}.

(** A socket as [NetworkSocket()] constructs it. *)
Definition new_socket : NetworkSocket.t :=
  {| socket_fd_ := -1; is_server_ := false; inbox := []; outbox := [] |}.

(** The constructor: [next_file_handle_(1)], a new metadata socket, a pool
    of size 20, empty tables. *)
Definition init (metadata_server_ip : string) (metadata_port : Z) : t :=
  {| metadata_server_ip_ := metadata_server_ip;
     metadata_port_ := metadata_port;
     metadata_client_ := Some new_socket;
     chunk_pool_ := ConnectionPool.init 20;
     open_files_ := ∅;
     next_file_handle_ := 1;
     metadata_cache_ := ∅ |}.

Definition set_metadata_client (s : t) (c : option NetworkSocket.t) : t :=
  {| metadata_server_ip_ := metadata_server_ip_ s;
     metadata_port_ := metadata_port_ s;
     metadata_client_ := c;
     chunk_pool_ := chunk_pool_ s;
     open_files_ := open_files_ s;
     next_file_handle_ := next_file_handle_ s;
     metadata_cache_ := metadata_cache_ s |}.

Definition set_chunk_pool (s : t) (p : ConnectionPool.t) : t :=
  {| metadata_server_ip_ := metadata_server_ip_ s;
     metadata_port_ := metadata_port_ s;
     metadata_client_ := metadata_client_ s;
     chunk_pool_ := p;
     open_files_ := open_files_ s;
     next_file_handle_ := next_file_handle_ s;
     metadata_cache_ := metadata_cache_ s |}.

Definition set_open_files (s : t) (m : gmap Z OpenFileHandle) (next : Z) : t :=
  {| metadata_server_ip_ := metadata_server_ip_ s;
     metadata_port_ := metadata_port_ s;
     metadata_client_ := metadata_client_ s;
     chunk_pool_ := chunk_pool_ s;
     open_files_ := m;
     next_file_handle_ := next;
     metadata_cache_ := metadata_cache_ s |}.

Definition set_metadata_cache (s : t) (m : gmap string CachedMetadata) : t :=
  {| metadata_server_ip_ := metadata_server_ip_ s;
     metadata_port_ := metadata_port_ s;
     metadata_client_ := metadata_client_ s;
     chunk_pool_ := chunk_pool_ s;
     open_files_ := open_files_ s;
     next_file_handle_ := next_file_handle_ s;
     metadata_cache_ := m |}.

(** [handle.current_offset = off] *)
Definition set_current_offset (h : OpenFileHandle) (off : Z) : OpenFileHandle :=
  {| path := path h; file_id := file_id h; current_offset := off;
     chunks := chunks h; writable := writable h; open_time := open_time h |}.

(** [DistributedFileSystem::is_connected] *)
Definition is_connected (s : t) : bool :=
  match metadata_client_ s with
  | Some sock => negb (socket_fd_ sock =? -1)
  | None => false
  end.

(** [DistributedFileSystem::reconnect_to_metadata_server] *)
Definition reconnect_to_metadata_server (e : env) (s : t) : bool * t :=
  let '(ok, sock) := connect_to_server e (metadata_server_ip_ s) (metadata_port_ s) in
  (ok, set_metadata_client s (Some sock)).

(** The guard that opens every directory request:
    [if (!metadata_client_ || !metadata_client_->is_connected())
       if (!reconnect_to_metadata_server()) return ...;] *)
Definition ensure_connected (e : env) (s : t) : bool * t :=
  if is_connected s then (true, s) else reconnect_to_metadata_server e s.

(** A request frame declared on the stack and filled in: the envelope,
    [payload_size = size], the first bytes of the payload copied from
    [bytes], then the checksum.  The copy is defined when it fits the
    payload array. *)
Definition request_frame (e : env) (ty : Z) (size : Z) (bytes : list byte)
  : exec ProtocolFrame.t :=
  let frame := set_payload_size (set_envelope (indeterminate_frame e) ty) (wrap32 size) in
  if vsize bytes <=? DFS_CHUNK_SIZE_BYTES
  then seal (memcpy_payload frame bytes (vsize bytes))
  else Undefined.

(** [send_frame(frame)] followed by [recv_frame(response)] on one socket,
    with a response object declared without an initialiser.  The flag is
    false when either call returns false. *)
Definition exchange (e : env) (sock : NetworkSocket.t) (frame : ProtocolFrame.t)
  : exec (bool * ProtocolFrame.t * NetworkSocket.t) :=
  run (sent, sock1) <- send_frame sock frame in
  if negb sent then Ret (false, indeterminate_frame e, sock1)
  else recv_frame (peer e sock1) (indeterminate_frame e).

(** [DistributedFileSystem::invalidate_cache_entry] *)
Definition invalidate_cache_entry (s : t) (path : string) : t :=
  set_metadata_cache s (delete path (metadata_cache_ s)).

(** The socket of a connected metadata client. *)
Definition metadata_socket (s : t) : NetworkSocket.t :=
  match metadata_client_ s with
  | Some sock => sock
  | None => new_socket
  end.

(** [DistributedFileSystem::create_file] *)
Definition create_file (e : env) (s : t) (path : string) (permissions : Z)
  : exec (Z * t) :=
  let '(ok, s) := ensure_connected e s in
  if negb ok then Ret (-1, s)
  else
    let bytes := String.list_byte_of_string path in
    run frame <- request_frame e OP_FILE_CREATE (vsize bytes + 8)
                   (bytes ++ le_bytes 4 permissions) in
    run (ok, response, sock) <- exchange e (metadata_socket s) frame in
    let s := set_metadata_client s (Some sock) in
    if negb ok then Ret (-1, s)
    else if negb (message_type response =? OP_ACK) then Ret (-1, s)
    else Ret (0, invalidate_cache_entry s path).

(** [DistributedFileSystem::delete_file] *)
Definition delete_file (e : env) (s : t) (path : string) : exec (Z * t) :=
  let '(ok, s) := ensure_connected e s in
  if negb ok then Ret (-1, s)
  else
    let bytes := String.list_byte_of_string path in
    run frame <- request_frame e OP_FILE_DELETE (vsize bytes) bytes in
    run (ok, response, sock) <- exchange e (metadata_socket s) frame in
    let s := set_metadata_client s (Some sock) in
    if negb ok then Ret (-1, s)
    else
      Ret (if message_type response =? OP_ACK then 0 else -1,
           invalidate_cache_entry s path).

(** [DistributedFileSystem::mkdir] *)
Definition mkdir (e : env) (s : t) (path : string) : exec (Z * t) :=
  let '(ok, s) := ensure_connected e s in
  if negb ok then Ret (-1, s)
  else
    let bytes := String.list_byte_of_string path in
    run frame <- request_frame e OP_MKDIR (vsize bytes) bytes in
    run (ok, response, sock) <- exchange e (metadata_socket s) frame in
    let s := set_metadata_client s (Some sock) in
    if negb ok then Ret (-1, s)
    else
      Ret (if message_type response =? OP_ACK then 0 else -1,
           invalidate_cache_entry s path).

Section Client.
Context `{Platform}.

(** [DistributedFileSystem::query_metadata].  [metadata] is the caller's
    object, returned unchanged when the query fails. *)
Definition query_metadata (e : env) (s : t) (path : string) (metadata : FileMetadata.t)
  : exec (bool * FileMetadata.t * t) :=
  let cached :=
    match metadata_cache_ s !! path with
    | Some entry =>
        if now e - cached_time entry <? DFS_METADATA_CACHE_TTL_SEC
        then (Some (DistributedFileSystem.metadata entry), s)
        else (None, set_metadata_cache s (delete path (metadata_cache_ s)))
    | None => (None, s)
    end in
  match cached with
  | (Some m, s) => Ret (true, m, s)
  | (None, s) =>
      let '(ok, s) := ensure_connected e s in
      if negb ok then Ret (false, metadata, s)
      else
        let bytes := String.list_byte_of_string path in
        run frame <- request_frame e OP_METADATA_QUERY (vsize bytes) bytes in
        run (ok, response, sock) <- exchange e (metadata_socket s) frame in
        let s := set_metadata_client s (Some sock) in
        if negb ok then Ret (false, metadata, s)
        else if sizeof_FileMetadata <=? payload_size response
        then
          if sizeof_FileMetadata <=? DFS_CHUNK_SIZE_BYTES
          then
            let metadata := load_FileMetadata (payload_bytes response sizeof_FileMetadata) in
            Ret (true, metadata,
                 set_metadata_cache s
                   (<[path := {| metadata := metadata; cached_time := now e |}]>
                      (metadata_cache_ s)))
          else Undefined
        else Ret (false, metadata, s)
  end.

(** [DistributedFileSystem::get_file_info] *)
Definition get_file_info (e : env) (s : t) (path : string) (metadata : FileMetadata.t)
  : exec (bool * FileMetadata.t * t) :=
  query_metadata e s path metadata.

(** [DistributedFileSystem::open].  [next_file_handle_++] on an [int]
    that holds [INT_MAX] is a signed overflow. *)
Definition open (e : env) (s : t) (path : string) (flags : Z) : exec (Z * t) :=
  run (ok, metadata, s) <- query_metadata e s path (FileMetadata.default (now e)) in
  if negb ok then Ret (-1, s)
  else if next_file_handle_ s =? INT_MAX then Undefined
  else
    let fd := next_file_handle_ s in
    let handle :=
      {| path := path;
         file_id := FileMetadata.file_id metadata;
         current_offset := 0;
         chunks := FileMetadata.chunks metadata;
         writable := negb (Z.land flags 0x01 =? 0);
         open_time := now e |} in
    Ret (fd, set_open_files s (<[fd := handle]> (open_files_ s)) (fd + 1)).

(** [DistributedFileSystem::close] *)
Definition close (s : t) (fd : Z) : Z * t :=
  match open_files_ s !! fd with
  | None => (-1, s)
  | Some _ => (0, set_open_files s (delete fd (open_files_ s)) (next_file_handle_ s))
  end.

(** [DistributedFileSystem::read_chunk].  [data] is the caller's vector. *)
Definition read_chunk (e : env) (s : t) (chunk_id offset length : Z) (data : list byte)
  : exec (bool * list byte * t) :=
  let dummy := FileMetadata.default (now e) in
  match FileMetadata.chunks dummy with
  | [] => Ret (false, data, s)
  | chunk :: _ =>
      match ChunkHandle.replicas chunk with
      | [] => Ret (false, data, s)
      | replica :: _ =>
          let '(sock, pool) :=
            ConnectionPool.acquire (connect_to_server e) (chunk_pool_ s)
              (ChunkLocation.ip_address replica) (ChunkLocation.port replica) in
          let s := set_chunk_pool s pool in
          match sock with
          | None => Ret (false, data, s)
          | Some sock =>
              let read_req :=
                {| FileReadRequest.chunk_id := chunk_id;
                   FileReadRequest.offset := offset;
                   FileReadRequest.length := length;
                   FileReadRequest.version := ChunkHandle.version chunk;
                   FileReadRequest.client_id := EmptyString |} in
              run frame <- request_frame e OP_READ sizeof_FileReadRequest
                             (store_FileReadRequest read_req) in
              run (ok, response, _) <- exchange e sock frame in
              if negb ok then Ret (false, data, s)
              else
                let read_resp :=
                  load_FileReadResponse (payload_bytes response sizeof_FileReadResponse) in
                if FileReadResponse.success read_resp
                then Ret (true, FileReadResponse.data read_resp, s)
                else Ret (false, data, s)
          end
      end
  end.

(** [DistributedFileSystem::write_chunk] *)
Definition write_chunk (e : env) (s : t) (chunk_id offset : Z) (data : list byte)
  : exec (bool * t) :=
  let dummy := FileMetadata.default (now e) in
  match FileMetadata.chunks dummy with
  | [] => Ret (false, s)
  | chunk :: _ =>
      match ChunkHandle.replicas chunk with
      | [] => Ret (false, s)
      | replica :: _ =>
          let '(sock, pool) :=
            ConnectionPool.acquire (connect_to_server e) (chunk_pool_ s)
              (ChunkLocation.ip_address replica) (ChunkLocation.port replica) in
          let s := set_chunk_pool s pool in
          match sock with
          | None => Ret (false, s)
          | Some sock =>
              let write_req :=
                {| FileWriteRequest.chunk_id := chunk_id;
                   FileWriteRequest.offset := offset;
                   FileWriteRequest.data := data;
                   FileWriteRequest.version := ChunkHandle.version chunk;
                   FileWriteRequest.client_id := EmptyString |} in
              run frame <- request_frame e OP_WRITE
                             (sizeof_FileWriteRequest + vsize data)
                             (store_FileWriteRequest write_req ++ data) in
              run (ok, response, _) <- exchange e sock frame in
              if negb ok then Ret (false, s)
              else
                let write_resp :=
                  load_FileWriteResponse (payload_bytes response sizeof_FileWriteResponse) in
                Ret (FileWriteResponse.success write_resp, s)
          end
      end
  end.

(** [DistributedFileSystem::read].  [buffer] is [None] for a null pointer
    and otherwise the bytes the pointer refers to; the result carries the
    returned count, the buffer after the call and the client. *)
Definition read (e : env) (s : t) (fd : Z) (buffer : option (list byte)) (size : Z)
  : exec (Z * option (list byte) * t) :=
  match buffer with
  | None => Ret (0, buffer, s)
  | Some buf =>
      if size =? 0 then Ret (0, buffer, s)
      else
        match open_files_ s !! fd with
        | None => Ret (0, buffer, s)
        | Some handle =>
            match chunks handle with
            | [] => Ret (0, buffer, s)
            | first :: _ =>
                let chunk_id := ChunkHandle.chunk_id first in
                run (ok, data, s) <-
                  read_chunk e s chunk_id (wrap32 (current_offset handle))
                    (wrap32 size) [] in
                if negb ok then Ret (0, buffer, s)
                else
                  let n := Z.min (vsize data) size in
                  if n <=? vsize buf
                  then
                    let handle :=
                      set_current_offset handle
                        (wrap64 (current_offset handle + vsize data)) in
                    Ret (vsize data,
                         Some (memcpy_at buf 0 (slice data 0 n)),
                         set_open_files s (<[fd := handle]> (open_files_ s))
                           (next_file_handle_ s))
                  else Undefined
            end
        end
  end.

(** [DistributedFileSystem::write].  [data] is [None] for a null pointer
    and otherwise the bytes the pointer refers to. *)
Definition write (e : env) (s : t) (fd : Z) (data : option (list byte)) (size : Z)
  : exec (Z * t) :=
  match data with
  | None => Ret (0, s)
  | Some bytes =>
      if size =? 0 then Ret (0, s)
      else
        match open_files_ s !! fd with
        | None => Ret (0, s)
        | Some handle =>
            if negb (writable handle) then Ret (0, s)
            else
              match chunks handle with
              | [] => Ret (0, s)
              | first :: _ =>
                  let chunk_id := ChunkHandle.chunk_id first in
                  if size <=? vsize bytes
                  then
                    let write_data := slice bytes 0 size in
                    run (ok, s) <-
                      write_chunk e s chunk_id (wrap32 (current_offset handle))
                        write_data in
                    if negb ok then Ret (0, s)
                    else
                      let handle :=
                        set_current_offset handle
                          (wrap64 (current_offset handle + size)) in
                      Ret (size,
                           set_open_files s (<[fd := handle]> (open_files_ s))
                             (next_file_handle_ s))
                  else Undefined
              end
        end
  end.

End Client.

End DistributedFileSystem.

(** ** Vocabulary of the statements about the storage node *)

Module Node.
Import ChunkServer.

(** The sum of [size] over the chunk table. *)
Definition stored_bytes (m : gmap Z StoredChunk.t) : Z :=
  map_fold (fun _ c acc => StoredChunk.size c + acc) 0 m.

(** A stored chunk whose [size] and [checksum] agree with its bytes. *)
Definition chunk_ok (c : StoredChunk.t) : Prop :=
  StoredChunk.size c = vsize (StoredChunk.data c) /\
  StoredChunk.checksum c
  = calculate_crc32 (StoredChunk.data c) (vsize (StoredChunk.data c)).

(** The invariant every operation preserves: the counter is the sum in
    [uint64_t], and every chunk is consistent. *)
Definition accounted (s : ChunkServer.t) : Prop :=
  used_capacity_ s = wrap64 (stored_bytes (chunks_ s)) /\
  map_Forall (fun _ c => chunk_ok c) (chunks_ s).

(** The three chunk operations, with the arguments of one call. *)
Inductive op : Type :=
| Write (req : FileWriteRequest.t) (resp : FileWriteResponse.t) (now : Z)
| Read (req : FileReadRequest.t) (resp : FileReadResponse.t) (now : Z)
| Delete (chunk_id : Z).

(** The fields of a request hold values of their C++ types. *)
Definition well_typed (o : op) : Prop :=
  match o with
  | Write req _ _ => 0 <= FileWriteRequest.offset req < 2 ^ 32
  | Read req _ _ =>
      0 <= FileReadRequest.offset req < 2 ^ 32 /\
      0 <= FileReadRequest.length req < 2 ^ 32
  | Delete _ => True
  end.

(** The node after one operation. *)
Definition step (s : ChunkServer.t) (o : op) : exec ChunkServer.t :=
  match o with
  | Write req resp now =>
      run (_, _, s1) <- handle_write s req resp now in Ret s1
  | Read req resp now =>
      run (_, _, s1) <- handle_read s req resp now in Ret s1
  | Delete chunk_id => Ret (snd (delete_chunk s chunk_id))
  end.

(** The states a node constructed with [max_capacity] reaches. *)
Inductive reachable (max_capacity : Z) : ChunkServer.t -> Prop :=
| reachable_init : reachable max_capacity (init max_capacity)
| reachable_step s o s1 :
    reachable max_capacity s -> well_typed o -> step s o = Ret s1 ->
    reachable max_capacity s1.

(** A write request that a protocol frame can carry: its bytes fit the
    payload array. *)
Definition on_wire (o : op) : Prop :=
  match o with
  | Write req _ _ => vsize (FileWriteRequest.data req) <= DFS_CHUNK_SIZE_BYTES
  | _ => True
  end.

(** The states a node reaches when every write request fits a frame. *)
Inductive reachable_on_wire (max_capacity : Z) : ChunkServer.t -> Prop :=
| on_wire_init : reachable_on_wire max_capacity (init max_capacity)
| on_wire_step s o s1 :
    reachable_on_wire max_capacity s -> well_typed o -> on_wire o ->
    step s o = Ret s1 ->
    reachable_on_wire max_capacity s1.

(** Every chunk size fits the 32 bits [handle_read] and [handle_write] cast
    it to. *)
Definition narrow (s : ChunkServer.t) : Prop :=
  map_Forall (fun _ c => StoredChunk.size c < 2 ^ 32) (chunks_ s).

(** Requests and states of the worked examples. *)
Definition no_response : FileWriteResponse.t :=
  {| FileWriteResponse.chunk_id := 0; FileWriteResponse.success := false;
     FileWriteResponse.error_message := EmptyString |}.

Definition write_request (chunk_id offset : Z) (bytes : list byte) : FileWriteRequest.t :=
  {| FileWriteRequest.chunk_id := chunk_id; FileWriteRequest.offset := offset;
     FileWriteRequest.data := bytes; FileWriteRequest.version := 1;
     FileWriteRequest.client_id := EmptyString |}.

Definition read_request (chunk_id offset length : Z) : FileReadRequest.t :=
  {| FileReadRequest.chunk_id := chunk_id; FileReadRequest.offset := offset;
     FileReadRequest.length := length; FileReadRequest.version := 1;
     FileReadRequest.client_id := EmptyString |}.

Definition no_data : FileReadResponse.t :=
  {| FileReadResponse.chunk_id := 0; FileReadResponse.offset := 0;
     FileReadResponse.length := 0; FileReadResponse.data := [];
     FileReadResponse.success := false;
     FileReadResponse.error_message := EmptyString |}.

(** The chunk a first write of [bytes] creates at time [now]. *)
Definition first_chunk (chunk_id : Z) (bytes : list byte) (now : Z) : StoredChunk.t :=
  {| StoredChunk.chunk_id := chunk_id;
     StoredChunk.data := bytes;
     StoredChunk.version := 1;
     StoredChunk.size := vsize bytes;
     StoredChunk.creation_time := now;
     StoredChunk.last_access := now;
     StoredChunk.checksum := calculate_crc32 bytes (vsize bytes) |}.

(** A node of capacity 10 that holds the eight bytes "ABCDEFGH" as
    chunk 1. *)
Definition eight_of_ten : ChunkServer.t :=
  set_chunks (init 10) 8
    {[ 1 := first_chunk 1 [x41; x42; x43; x44; x45; x46; x47; x48] 0 ]}.

End Node.

(** ** Concrete inputs of the worked examples *)

(** A platform for the worked examples: the object layout of the x86-64
    System V ABI with libstdc++ (a [std::string] takes 32 bytes, a
    [std::vector] 24, members are aligned to their size and the structs
    to 8).  The scalar members lie little-endian at their offsets.  The
    bytes of a string or vector member hold pointers into the heap of the
    process that wrote them, which mean nothing to the process that reads
    them: they are written as zeros and read back as an empty string or
    vector.  Every indeterminate value is zero. *)
Definition zeros (n : nat) : list byte := repeat x00 n.

(** The unsigned integer held in the [len] bytes at offset [off]. *)
Definition field (bytes : list byte) (off len : nat) : Z :=
  le_value (firstn len (skipn off bytes)).

(** The object representation of a [bool]. *)
Definition bool_byte (b : bool) : list byte := [if b then x01 else x00].

Definition example_platform : Platform :=
  {| sizeof_FileReadRequest := 56;
     sizeof_FileReadResponse := 80;
     sizeof_FileWriteRequest := 80;
     sizeof_FileWriteResponse := 48;
     sizeof_FileMetadata := 144;
     load_FileMetadata := fun b =>
       {| FileMetadata.path := EmptyString;
          FileMetadata.file_id := field b 32 8;
          FileMetadata.permissions := field b 40 4;
          FileMetadata.creation_time := field b 48 8;
          FileMetadata.modification_time := field b 56 8;
          FileMetadata.file_size := field b 64 8;
          FileMetadata.chunks := [];
          FileMetadata.replication_factor := field b 96 4;
          FileMetadata.owner := EmptyString;
          FileMetadata.is_directory := negb (field b 136 1 =? 0) |};
     load_FileReadRequest := fun b =>
       {| FileReadRequest.chunk_id := field b 0 8;
          FileReadRequest.offset := field b 8 4;
          FileReadRequest.length := field b 12 4;
          FileReadRequest.version := field b 16 4;
          FileReadRequest.client_id := EmptyString |};
     store_FileReadRequest := fun r =>
       le_bytes 8 (FileReadRequest.chunk_id r)
       ++ le_bytes 4 (FileReadRequest.offset r)
       ++ le_bytes 4 (FileReadRequest.length r)
       ++ le_bytes 4 (FileReadRequest.version r) ++ zeros 4
       ++ zeros 32;
     load_FileReadResponse := fun b =>
       {| FileReadResponse.chunk_id := field b 0 8;
          FileReadResponse.offset := field b 8 4;
          FileReadResponse.length := field b 12 4;
          FileReadResponse.data := [];
          FileReadResponse.success := negb (field b 40 1 =? 0);
          FileReadResponse.error_message := EmptyString |};
     store_FileReadResponse := fun r =>
       le_bytes 8 (FileReadResponse.chunk_id r)
       ++ le_bytes 4 (FileReadResponse.offset r)
       ++ le_bytes 4 (FileReadResponse.length r)
       ++ zeros 24
       ++ bool_byte (FileReadResponse.success r) ++ zeros 7
       ++ zeros 32;
     load_FileWriteRequest := fun b =>
       {| FileWriteRequest.chunk_id := field b 0 8;
          FileWriteRequest.offset := field b 8 4;
          FileWriteRequest.data := [];
          FileWriteRequest.version := field b 40 4;
          FileWriteRequest.client_id := EmptyString |};
     store_FileWriteRequest := fun r =>
       le_bytes 8 (FileWriteRequest.chunk_id r)
       ++ le_bytes 4 (FileWriteRequest.offset r) ++ zeros 4
       ++ zeros 24
       ++ le_bytes 4 (FileWriteRequest.version r) ++ zeros 4
       ++ zeros 32;
     load_FileWriteResponse := fun b =>
       {| FileWriteResponse.chunk_id := field b 0 8;
          FileWriteResponse.success := negb (field b 8 1 =? 0);
          FileWriteResponse.error_message := EmptyString |};
     store_FileWriteResponse := fun r =>
       le_bytes 8 (FileWriteResponse.chunk_id r)
       ++ bool_byte (FileWriteResponse.success r) ++ zeros 7
       ++ zeros 32;
     indeterminate_uint32 := 0;
     indeterminate_FileReadResponse := Node.no_data;
     indeterminate_FileWriteResponse := Node.no_response |}.

(** The 144 bytes of a [FileMetadata] object on that platform: file id 9,
    permissions 0644, both times 0, 5 bytes, replication factor 3, not a
    directory. *)
Definition file_x_image : list byte :=
  zeros 32
  ++ le_bytes 8 9
  ++ le_bytes 4 420 ++ zeros 4
  ++ le_bytes 8 0
  ++ le_bytes 8 0
  ++ le_bytes 8 5
  ++ zeros 24
  ++ le_bytes 4 3 ++ zeros 4
  ++ zeros 32
  ++ bool_byte false ++ zeros 7.

(** A [handle_replicate] that does nothing. *)
Definition idle_replicate (s : ChunkServer.t) (_ : ProtocolFrame.t)
  : exec (bool * ChunkServer.t) := Ret (false, s).

(** A frame object filled with zero bytes. *)
Definition zero_frame : ProtocolFrame.t :=
  {| magic := 0; ProtocolFrame.version := 0; message_type := 0; payload_size := 0;
     ProtocolFrame.checksum := 0; payload := fun _ => x00 |}.

(** A frame of type [ty] and protocol version [ver] that carries [bytes],
    with the checksum of its payload. *)
Definition frame_of (ver ty : Z) (bytes : list byte) : ProtocolFrame.t :=
  {| magic := DFS_PROTOCOL_MAGIC; ProtocolFrame.version := ver; message_type := ty;
     payload_size := vsize bytes;
     ProtocolFrame.checksum := calculate_crc32 bytes (vsize bytes);
     payload := fun i => nth i bytes x00 |}.

(** The [OP_DELETE] frame for chunk 1. *)
Definition delete_chunk_1 : ProtocolFrame.t :=
  frame_of DFS_PROTOCOL_VERSION OP_DELETE (le_bytes 8 1).

(** A connected socket (descriptor 3) with [bytes] queued for [recv]. *)
Definition receiving (bytes : list byte) : NetworkSocket.t :=
  {| socket_fd_ := 3; is_server_ := false; inbox := bytes; outbox := [] |}.

(** [sock] once [recv] has returned the first [n] queued bytes. *)
Definition consumed (sock : NetworkSocket.t) (n : Z) : NetworkSocket.t :=
  {| socket_fd_ := socket_fd_ sock; is_server_ := is_server_ sock;
     inbox := skipn (Z.to_nat n) (inbox sock); outbox := outbox sock |}.

(** A header with the protocol's magic that announces one payload byte
    more than the payload array holds. *)
Definition oversize_header : ProtocolFrame.t :=
  {| magic := DFS_PROTOCOL_MAGIC; ProtocolFrame.version := DFS_PROTOCOL_VERSION;
     message_type := OP_WRITE; payload_size := DFS_CHUNK_SIZE_BYTES + 1;
     ProtocolFrame.checksum := 0; payload := fun _ => x00 |}.

(** The five bytes "Hello". *)
Definition hello : list byte := [x48; x65; x6c; x6c; x6f].

(** A frame object whose payload array is all zero and counts, whole, as
    payload. *)
Definition full_payload : ProtocolFrame.t :=
  {| magic := DFS_PROTOCOL_MAGIC; ProtocolFrame.version := DFS_PROTOCOL_VERSION;
     message_type := OP_WRITE; payload_size := DFS_CHUNK_SIZE_BYTES;
     ProtocolFrame.checksum := 0; payload := fun _ => x00 |}.

(** [f] with the checksum of its payload, as the senders compute it. *)
Definition sealed (f : ProtocolFrame.t) : ProtocolFrame.t :=
  set_checksum f (calculate_crc32 (payload_bytes f (payload_size f)) (payload_size f)).

(** A frame whose payload fills the whole payload array, with the checksum
    of that payload. *)
Definition full_frame : ProtocolFrame.t := sealed full_payload.

(** The header members hold values of their C++ types. *)
Definition header_typed (f : ProtocolFrame.t) : Prop :=
  0 <= magic f < 2 ^ 32 /\ 0 <= ProtocolFrame.version f < 2 ^ 16 /\
  0 <= message_type f < 2 ^ 16 /\ 0 <= payload_size f < 2 ^ 32 /\
  0 <= ProtocolFrame.checksum f < 2 ^ 32.

(** ** Vocabulary of the statements about the client session *)

Module Session.
Import DistributedFileSystem.

(** One call of a public method of the client, with its arguments and what
    the world does during the call. *)
Inductive call : Type :=
| CreateFile (e : env) (path : string) (permissions : Z)
| DeleteFile (e : env) (path : string)
| Mkdir (e : env) (path : string)
| GetFileInfo (e : env) (path : string) (metadata : FileMetadata.t)
| Open (e : env) (path : string) (flags : Z)
| Read (e : env) (fd : Z) (buffer : option (list byte)) (size : Z)
| Write (e : env) (fd : Z) (data : option (list byte)) (size : Z)
| Close (fd : Z).

(** The client after one call, with the descriptor the call returned when
    the call is an [open] that succeeded (returned something else than
    [-1]). *)
Definition perform `{Platform} (s : DistributedFileSystem.t) (c : call)
  : exec (option Z * DistributedFileSystem.t) :=
  match c with
  | CreateFile e path permissions =>
      run (_, s1) <- create_file e s path permissions in Ret (None, s1)
  | DeleteFile e path =>
      run (_, s1) <- delete_file e s path in Ret (None, s1)
  | Mkdir e path =>
      run (_, s1) <- mkdir e s path in Ret (None, s1)
  | GetFileInfo e path metadata =>
      run (_, _, s1) <- get_file_info e s path metadata in Ret (None, s1)
  | Open e path flags =>
      run (fd, s1) <- open e s path flags in
      Ret (if fd =? -1 then None else Some fd, s1)
  | Read e fd buffer size =>
      run (_, _, s1) <- read e s fd buffer size in Ret (None, s1)
  | Write e fd data size =>
      run (_, s1) <- write e s fd data size in Ret (None, s1)
  | Close fd => Ret (None, snd (close s fd))
  end.

(** The descriptors that the successful [open] calls of a sequence of
    calls return, in the order of the calls, and the client after the
    last call. *)
Fixpoint session `{Platform} (s : DistributedFileSystem.t) (calls : list call)
  : exec (list Z * DistributedFileSystem.t) :=
  match calls with
  | [] => Ret ([], s)
  | c :: rest =>
      run (r, s1) <- perform s c in
      run (fds, s2) <- session s1 rest in
      Ret (match r with Some fd => fd :: fds | None => fds end, s2)
  end.

(** A world in which the directory is unreachable. *)
Definition offline : env :=
  {| now := 0;
     connect_to_server := fun _ _ => (false, new_socket);
     peer := fun sock => sock;
     indeterminate_frame := zero_frame |}.

(** A world in which the directory accepts the connection and answers
    every request with an empty [OP_ACK] frame. *)
Definition online : env :=
  {| now := 0;
     connect_to_server := fun _ _ => (true, receiving []);
     peer := fun sock =>
       {| socket_fd_ := socket_fd_ sock; is_server_ := is_server_ sock;
          inbox := inbox sock ++ header_bytes (frame_of DFS_PROTOCOL_VERSION OP_ACK []);
          outbox := outbox sock |};
     indeterminate_frame := zero_frame |}.

(** A world in which the directory accepts the connection and answers
    every request with a frame that carries the 144 bytes of the
    metadata object [file_x_image]. *)
Definition directory : env :=
  {| now := 0;
     connect_to_server := fun _ _ => (true, receiving []);
     peer := fun sock =>
       {| socket_fd_ := socket_fd_ sock; is_server_ := is_server_ sock;
          inbox := inbox sock
                   ++ header_bytes (frame_of DFS_PROTOCOL_VERSION OP_ACK file_x_image)
                   ++ file_x_image;
          outbox := outbox sock |};
     indeterminate_frame := zero_frame |}.

(** Open "/x", close the descriptor, open "/x" again. *)
Definition open_close_open : list call :=
  [Open directory "/x" 1; Close 1; Open directory "/x" 1].

(** The metadata of a file "/x" of one chunk. *)
Definition file_x : FileMetadata.t :=
  {| FileMetadata.path := "/x"; FileMetadata.file_id := 9;
     FileMetadata.permissions := 420; FileMetadata.creation_time := 0;
     FileMetadata.modification_time := 0; FileMetadata.file_size := 5;
     FileMetadata.chunks :=
       [ {| ChunkHandle.chunk_id := 42;
            ChunkHandle.replicas :=
              [ {| ChunkLocation.server_id := "n1";
                   ChunkLocation.ip_address := "10.0.0.1";
                   ChunkLocation.port := 7000;
                   ChunkLocation.generation_number := 1 |} ];
            ChunkHandle.version := 1; ChunkHandle.creation_time := 0;
            ChunkHandle.size := 5 |} ];
     FileMetadata.replication_factor := 3; FileMetadata.owner := "u";
     FileMetadata.is_directory := false |}.

(** A client whose cache holds the metadata of "/x", fetched at time 0. *)
Definition cached_client : DistributedFileSystem.t :=
  set_metadata_cache (init "127.0.0.1" 9000)
    {[ "/x"%string := {| metadata := file_x; cached_time := 0 |} ]}.

(** The same client with "/x" open for writing as descriptor 1. *)
Definition open_client : DistributedFileSystem.t :=
  set_open_files cached_client
    {[ 1 := {| path := "/x"; file_id := 9; current_offset := 0;
               chunks := FileMetadata.chunks file_x; writable := true;
               open_time := 0 |} ]} 2.

End Session.

(** ** Further functions of the storage node and of the client *)

(** [struct ChunkServerStatus] of [dfs_common.h]. *)
Module ChunkServerStatus.
Record t : Type := mk {
  server_id : string;
  ip_address : string;
  port : Z;
  total_capacity_bytes : Z;
  used_capacity_bytes : Z;
  healthy_chunks : list Z;
  replication_queue_length : Z;
  last_heartbeat : Z;
  is_healthy : bool
}.
End ChunkServerStatus.

Module ChunkServerReport.
Import ChunkServer.

(** The members of [class ChunkServer] that name the node; the chunk
    operations never assign them. *)
Record identity : Type := mkIdentity {
  server_id_ : string;
  ip_ : string;
  port_ : Z
}.

(** [ChunkServer::get_available_capacity] *)
Definition get_available_capacity (s : ChunkServer.t) : Z :=
  if used_capacity_ s <? max_capacity_ s
  then max_capacity_ s - used_capacity_ s
  else 0.

(** The keys of a [std::map<uint64_t, _>] in the order a range-for visits
    them: ascending. *)
Definition keys_in_order (m : gmap Z StoredChunk.t) : list Z :=
  merge_sort Z.le (List.map fst (map_to_list m)).

(** [ChunkServer::get_status].  [ChunkServerStatus()] sets
    [replication_queue_length] to 0; the loop pushes every key of
    [chunks_]. *)
Definition get_status (who : identity) (s : ChunkServer.t) (now : Z)
  : ChunkServerStatus.t :=
  {| ChunkServerStatus.server_id := server_id_ who;
     ChunkServerStatus.ip_address := ip_ who;
     ChunkServerStatus.port := port_ who;
     ChunkServerStatus.total_capacity_bytes := max_capacity_ s;
     ChunkServerStatus.used_capacity_bytes := used_capacity_ s;
     ChunkServerStatus.healthy_chunks := keys_in_order (chunks_ s);
     ChunkServerStatus.replication_queue_length := 0;
     ChunkServerStatus.last_heartbeat := now;
     ChunkServerStatus.is_healthy := running_ s |}.

(** [ChunkServer::replicate_chunk].  The result carries the target socket
    as the call leaves it, so that the bytes handed to [send] can be
    read off its [outbox].  The frame is filled in as every request frame
    is: envelope, [payload_size = sizeof(uint64_t) + data.size()], the
    chunk id and the bytes copied into the payload, then the checksum. *)
Definition replicate_chunk `{Platform} (e : env) (s : ChunkServer.t)
    (chunk_id : Z) (target_ip : string) (target_port : Z)
  : exec (bool * NetworkSocket.t * ChunkServer.t) :=
  run (ok, data, s) <- read_chunk s chunk_id [] (now e) in
  if negb ok then Ret (false, DistributedFileSystem.new_socket, s)
  else
    let '(connected, target_socket) := connect_to_server e target_ip target_port in
    if negb connected then Ret (false, target_socket, s)
    else
      run frame <- DistributedFileSystem.request_frame e OP_REPLICATE
                     (8 + vsize data) (le_bytes 8 chunk_id ++ data) in
      run (sent, target_socket) <- send_frame target_socket frame in
      Ret (sent, target_socket, s).

End ChunkServerReport.

(** The replica helpers of [class DistributedFileSystem]. *)
Module Replicas.

(** [ChunkLocation()] *)
Definition no_location : ChunkLocation.t :=
  {| ChunkLocation.server_id := EmptyString;
     ChunkLocation.ip_address := EmptyString;
     ChunkLocation.port := 0;
     ChunkLocation.generation_number := 0 |}.

(** [DistributedFileSystem::select_nearest_replica] *)
Definition select_nearest_replica (replicas : list ChunkLocation.t) : ChunkLocation.t :=
  match replicas with
  | [] => no_location
  | first :: _ => first
  end.

(** [DistributedFileSystem::select_replicas]: the loop over [chunks] with
    its [push_back]. *)
Definition select_replicas (chunks : list ChunkHandle.t) : list ChunkLocation.t :=
  fold_left
    (fun locations chunk =>
       match ChunkHandle.replicas chunk with
       | [] => locations
       | _ :: _ => locations ++ [select_nearest_replica (ChunkHandle.replicas chunk)]
       end)
    chunks [].

End Replicas.

(** Vocabulary of the further statements. *)
Module More.
Import ChunkServer Node.

(** The chunk an operation addresses. *)
Definition target (o : op) : Z :=
  match o with
  | Write req _ _ => FileWriteRequest.chunk_id req
  | Read req _ _ => FileReadRequest.chunk_id req
  | Delete chunk_id => chunk_id
  end.

(** The offset at which the bytes of a write land: the offset of the
    request for a chunk the node holds, 0 for a chunk it creates. *)
Definition landing_offset (s : ChunkServer.t) (req : FileWriteRequest.t) : Z :=
  match chunks_ s !! FileWriteRequest.chunk_id req with
  | Some _ => FileWriteRequest.offset req
  | None => 0
  end.

(** An empty node of capacity 100. *)
Definition empty_100 : ChunkServer.t := init 100.

(** The success flag and the node after one operation. *)
Definition outcome (s : ChunkServer.t) (o : op) : exec (bool * ChunkServer.t) :=
  match o with
  | Write req resp now =>
      run (ok, _, s1) <- handle_write s req resp now in Ret (ok, s1)
  | Read req resp now =>
      run (ok, _, s1) <- handle_read s req resp now in Ret (ok, s1)
  | Delete chunk_id => Ret (delete_chunk s chunk_id)
  end.

(** The four bytes of the payload array that follow the payload of [f]:
    what [send_frame] sends after the payload. *)
Definition stray_bytes (f : ProtocolFrame.t) : list byte :=
  List.map (payload f) (seq (Z.to_nat (payload_size f)) 4).

(** The bytes [send_frame] hands to [send] for [f]. *)
Definition wire_bytes (f : ProtocolFrame.t) : list byte :=
  header_bytes f ++ payload_bytes f (payload_size f) ++ stray_bytes f.

(** [sock] once [bytes] have been handed to [send]. *)
Definition sent (sock : NetworkSocket.t) (bytes : list byte) : NetworkSocket.t :=
  {| socket_fd_ := socket_fd_ sock; is_server_ := is_server_ sock;
     inbox := inbox sock; outbox := outbox sock ++ bytes |}.

(** The node after a successful read of chunk [chunk_id] at time [now]. *)
Definition touched (s : ChunkServer.t) (chunk_id : Z) (c : StoredChunk.t) (now : Z)
  : ChunkServer.t :=
  set_chunks s (used_capacity_ s) (<[chunk_id := touch c now]> (chunks_ s)).

(** A chunk of [DFS_CHUNK_SIZE_BYTES] zero bytes, and a node that holds it
    as chunk 1. *)
Definition whole_chunk : list byte := repeat x00 (Z.to_nat DFS_CHUNK_SIZE_BYTES).

Definition whole_chunk_node : ChunkServer.t :=
  set_chunks (init (2 * DFS_CHUNK_SIZE_BYTES)) DFS_CHUNK_SIZE_BYTES
    (<[1 := first_chunk 1 whole_chunk 0]> ∅).

(** The character ':' (code 58), and a string without it. *)
Definition colon : Ascii.ascii :=
  Ascii.Ascii false true false true true true false false.

Fixpoint colon_free (s : string) : bool :=
  match s with
  | EmptyString => true
  | String c rest => negb (Ascii.eqb c colon) && colon_free rest
  end.

(** The calls on a connection pool, with their arguments. *)
Inductive pool_op : Type :=
| Acquire (connect : string -> Z -> bool * NetworkSocket.t) (server_ip : string) (port : Z)
| Release (key : string) (sock : option NetworkSocket.t) (now : Z)
| Clear.

(** The pool after one call, and after a sequence of calls. *)
Definition pool_step (pool : ConnectionPool.t) (o : pool_op) : ConnectionPool.t :=
  match o with
  | Acquire connect server_ip port =>
      snd (ConnectionPool.acquire connect pool server_ip port)
  | Release key sock now => ConnectionPool.release pool key sock now
  | Clear => ConnectionPool.clear pool
  end.

Definition pool_run (pool : ConnectionPool.t) (ops : list pool_op) : ConnectionPool.t :=
  fold_left pool_step ops pool.

(** A target that refuses every connection. *)
Definition refuse (_ : string) (_ : Z) : bool * NetworkSocket.t :=
  (false, DistributedFileSystem.new_socket).

End More.

(** ** Theorems *)

(** *** CRC32 *)

(** The table the code reads is the table the initialisation loop
    builds. *)
Lemma crc32_table_initialised : crc32_table = init_crc32_table.
Proof. vm_compute. reflexivity. Qed.

(** The first entries of the table are those of the reflected IEEE
    polynomial. *)
Example crc32_table_head :
  firstn 4 crc32_table = [0x00000000; 0x77073096; 0xEE0E612C; 0x990951BA].
Proof. reflexivity. Qed.

(** C8: the CRC32 of [calculate_crc32] (polynomial 0xEDB88320, initial
    value 0xFFFFFFFF, reflected, final XOR 0xFFFFFFFF) is 0 on the empty
    byte sequence and 0xCBF43926 on the nine ASCII bytes "123456789". *)
Theorem calculate_crc32_reference_vectors :
  calculate_crc32 [] 0 = 0 /\
  calculate_crc32 [x31; x32; x33; x34; x35; x36; x37; x38; x39] 9 = 0xCBF43926.
Proof. split; vm_compute; reflexivity. Qed.

(** *** The storage node: capacity accounting *)

Section NodeFacts.
Import ChunkServer Node.

Lemma wrap64_idem_l a b : wrap64 (wrap64 a + b) = wrap64 (a + b).
Proof. unfold wrap64. apply Zplus_mod_idemp_l. Qed.

Lemma wrap64_idem_minus a b : wrap64 (wrap64 a - b) = wrap64 (a - b).
Proof. unfold wrap64. apply Zminus_mod_idemp_l. Qed.

Lemma wrap64_small a : 0 <= a < 2 ^ 64 -> wrap64 a = a.
Proof. intros. unfold wrap64. apply Z.mod_small. lia. Qed.

Lemma wrap32_small a : 0 <= a < 2 ^ 32 -> wrap32 a = a.
Proof. intros. unfold wrap32. apply Z.mod_small. lia. Qed.

Lemma wrap32_range a : 0 <= wrap32 a < 2 ^ 32.
Proof. unfold wrap32. apply Z.mod_pos_bound. lia. Qed.

Lemma chunk_size_bytes : DFS_CHUNK_SIZE_BYTES = 67108864.
Proof. reflexivity. Qed.

Lemma vsize_nonneg {A} (v : list A) : 0 <= vsize v.
Proof. unfold vsize. lia. Qed.

Lemma stored_bytes_empty : stored_bytes ∅ = 0.
Proof. unfold stored_bytes. apply map_fold_empty. Qed.

Lemma stored_bytes_insert_fresh (m : gmap Z StoredChunk.t) k c :
  m !! k = None ->
  stored_bytes (<[k := c]> m) = StoredChunk.size c + stored_bytes m.
Proof.
  intros Hk. unfold stored_bytes.
  rewrite (map_fold_insert_L (fun _ c acc => StoredChunk.size c + acc) 0 k c m);
    [reflexivity | | exact Hk].
  intros. lia.
Qed.

Lemma stored_bytes_delete (m : gmap Z StoredChunk.t) k c :
  m !! k = Some c ->
  stored_bytes m = StoredChunk.size c + stored_bytes (delete k m).
Proof.
  intros Hk. unfold stored_bytes.
  rewrite (map_fold_delete_L (fun _ c acc => StoredChunk.size c + acc) 0 k c m);
    [reflexivity | | exact Hk].
  intros. lia.
Qed.

Lemma stored_bytes_replace (m : gmap Z StoredChunk.t) k c c1 :
  m !! k = Some c ->
  stored_bytes (<[k := c1]> m)
  = StoredChunk.size c1 + (stored_bytes m - StoredChunk.size c).
Proof.
  intros Hk.
  rewrite <- (insert_delete_eq m k c1).
  rewrite stored_bytes_insert_fresh by apply lookup_delete_eq.
  rewrite (stored_bytes_delete m k c Hk). lia.
Qed.

Lemma stored_bytes_nonneg (m : gmap Z StoredChunk.t) :
  map_Forall (fun _ c => chunk_ok c) m -> 0 <= stored_bytes m.
Proof.
  induction m as [|k c m Hk IH] using map_ind; intros Hall.
  - rewrite stored_bytes_empty. lia.
  - rewrite stored_bytes_insert_fresh by exact Hk.
    apply map_Forall_insert in Hall as [[Hc _] Hrest]; [| exact Hk].
    specialize (IH Hrest). rewrite Hc. pose proof (vsize_nonneg (StoredChunk.data c)). lia.
Qed.

(** The buffer after [resize] and [memcpy] has the new size. *)
Lemma length_resize v n : 0 <= n -> vsize (resize v n) = n.
Proof.
  intros Hn. unfold vsize, resize.
  rewrite length_app, length_firstn, repeat_length. lia.
Qed.

Lemma length_memcpy_at v off src :
  0 <= off -> off + vsize src <= vsize v -> vsize (memcpy_at v off src) = vsize v.
Proof.
  unfold vsize, memcpy_at. intros Hoff Hfit.
  rewrite !length_app, length_firstn, length_skipn. lia.
Qed.

Lemma accounted_init max_capacity : accounted (init max_capacity).
Proof.
  split; simpl.
  - rewrite stored_bytes_empty. reflexivity.
  - apply map_Forall_empty.
Qed.

Lemma handle_write_accounted s req resp now ok resp1 s1 :
  0 <= FileWriteRequest.offset req < 2 ^ 32 ->
  accounted s ->
  handle_write s req resp now = Ret (ok, resp1, s1) ->
  accounted s1.
Proof.
  intros Hoff [Hused Hall]. unfold handle_write.
  destruct (max_capacity_ s <? _); [intros [= <- <- <-]; split; assumption |].
  destruct (chunks_ s !! FileWriteRequest.chunk_id req) as [chunk|] eqn:Hk.
  - set (new_size := Z.max _ _).
    destruct (max_capacity_ s <? _); [intros [= <- <- <-]; split; assumption |].
    destruct (_ <=? new_size) eqn:Hfit; [| discriminate].
    apply Z.leb_le in Hfit.
    intros [= <- <- <-]. simpl.
    assert (0 <= new_size) as Hpos.
    { pose proof (wrap32_range (StoredChunk.size chunk)). unfold new_size. lia. }
    assert (vsize (memcpy_at (resize (StoredChunk.data chunk) new_size)
                     (FileWriteRequest.offset req) (FileWriteRequest.data req))
            = new_size) as Hlen.
    { rewrite length_memcpy_at; rewrite ?length_resize; lia. }
    split; simpl.
    + rewrite (stored_bytes_replace _ _ chunk _ Hk). simpl.
      rewrite Hused, wrap64_idem_minus, wrap64_idem_l. f_equal. lia.
    + apply map_Forall_insert_2; [| exact Hall].
      split; simpl; rewrite Hlen; reflexivity.
  - intros [= <- <- <-]. split; simpl.
    + rewrite stored_bytes_insert_fresh by exact Hk. simpl.
      rewrite Hused, wrap64_idem_l. f_equal. lia.
    + apply map_Forall_insert_2; [| exact Hall].
      split; reflexivity.
Qed.

Lemma handle_read_accounted s req resp now ok resp1 s1 :
  accounted s ->
  handle_read s req resp now = Ret (ok, resp1, s1) ->
  accounted s1.
Proof.
  intros [Hused Hall]. unfold handle_read.
  destruct (chunks_ s !! FileReadRequest.chunk_id req) as [chunk|] eqn:Hk;
    [| intros [= <- <- <-]; split; assumption].
  destruct (StoredChunk.size chunk <=? _); [intros [= <- <- <-]; split; assumption |].
  destruct (_ <=? vsize _); [| discriminate].
  intros [= <- <- <-]. split; simpl.
  - rewrite (stored_bytes_replace _ _ chunk _ Hk). simpl.
    rewrite Hused. f_equal. lia.
  - apply map_Forall_insert_2; [| exact Hall].
    exact (Hall _ _ Hk).
Qed.

Lemma delete_chunk_accounted s chunk_id :
  accounted s -> accounted (snd (delete_chunk s chunk_id)).
Proof.
  intros [Hused Hall]. unfold delete_chunk.
  destruct (chunks_ s !! chunk_id) as [chunk|] eqn:Hk; [| split; assumption].
  split; simpl.
  - rewrite Hused, wrap64_idem_minus. f_equal.
    rewrite (stored_bytes_delete _ _ chunk Hk). lia.
  - apply map_Forall_delete. exact Hall.
Qed.

Lemma step_accounted s o s1 :
  well_typed o -> accounted s -> step s o = Ret s1 -> accounted s1.
Proof.
  intros Hty Hs. destruct o as [req resp now | req resp now | chunk_id]; simpl.
  - destruct (handle_write s req resp now) as [[[ok resp1] s2]|] eqn:Hw; [| discriminate].
    simpl. intros [= <-]. eapply handle_write_accounted; eauto.
  - destruct (handle_read s req resp now) as [[[ok resp1] s2]|] eqn:Hr; [| discriminate].
    simpl. intros [= <-]. eapply handle_read_accounted; eauto.
  - intros [= <-]. apply delete_chunk_accounted. exact Hs.
Qed.

Lemma reachable_accounted max_capacity s :
  reachable max_capacity s -> accounted s.
Proof.
  induction 1 as [| s o s1 _ IH Hty Hstep].
  - apply accounted_init.
  - eapply step_accounted; eauto.
Qed.

(** C1: in every state the node reaches from the constructor's state by
    [handle_write], [handle_read] and [delete_chunk] calls,
    [used_capacity_] is the sum of the sizes of the stored chunks (the
    [uint64_t] counter holds the sum modulo 2^64, hence the sum itself
    whenever the stored bytes total less than 2^64, which they do in any
    64-bit address space), and every stored chunk has [size] equal to the
    length of its bytes and [checksum] equal to their CRC32. *)
Theorem reachable_capacity_accounted max_capacity s :
  reachable max_capacity s ->
  used_capacity_ s = wrap64 (stored_bytes (chunks_ s)) /\
  (stored_bytes (chunks_ s) < 2 ^ 64 ->
   used_capacity_ s = stored_bytes (chunks_ s)) /\
  (forall chunk_id c, chunks_ s !! chunk_id = Some c ->
     StoredChunk.size c = vsize (StoredChunk.data c) /\
     StoredChunk.checksum c
     = calculate_crc32 (StoredChunk.data c) (StoredChunk.size c)).
Proof.
  intros Hreach. destruct (reachable_accounted _ _ Hreach) as [Hused Hall].
  split; [exact Hused | split].
  - intros Hlt. rewrite Hused. apply wrap64_small.
    split; [apply stored_bytes_nonneg; exact Hall | exact Hlt].
  - intros chunk_id c Hc. destruct (Hall _ _ Hc) as [Hsize Hcrc].
    split; [exact Hsize | rewrite Hsize; exact Hcrc].
Qed.

End NodeFacts.

(** *** The storage node: single operations *)

Section NodeOperations.
Import ChunkServer Node.

Lemma eight_of_ten_written :
  handle_write (init 10)
    (write_request 1 0 [x41; x42; x43; x44; x45; x46; x47; x48]) no_response 0
  = Ret (true,
         write_succeeded
           (write_request 1 0 [x41; x42; x43; x44; x45; x46; x47; x48]) no_response,
         eight_of_ten).
Proof. reflexivity. Defined.

Lemma eight_of_ten_reachable : reachable 10 eight_of_ten.
Proof.
  apply (reachable_step 10 (init 10)
           (Write (write_request 1 0 [x41; x42; x43; x44; x45; x46; x47; x48])
                  no_response 0)).
  - apply reachable_init.
  - simpl. lia.
  - simpl. rewrite eight_of_ten_written. reflexivity.
Defined.

(** What [handle_write] does for a chunk the table does not hold, when the
    64-bit sum [used_capacity_ + req.data.size()] does not wrap. *)
Lemma handle_write_absent s req resp now :
  chunks_ s !! FileWriteRequest.chunk_id req = None ->
  0 <= used_capacity_ s ->
  used_capacity_ s + vsize (FileWriteRequest.data req) < 2 ^ 64 ->
  handle_write s req resp now
  = if max_capacity_ s <? used_capacity_ s + vsize (FileWriteRequest.data req)
    then Ret (false, write_failed resp, s)
    else Ret (true, write_succeeded req resp,
              set_chunks s (used_capacity_ s + vsize (FileWriteRequest.data req))
                (<[FileWriteRequest.chunk_id req :=
                     first_chunk (FileWriteRequest.chunk_id req)
                       (FileWriteRequest.data req) now]> (chunks_ s))).
Proof.
  intros Hk Hused Hfit. unfold handle_write. rewrite Hk. simpl.
  rewrite wrap64_small by (pose proof (vsize_nonneg (FileWriteRequest.data req)); lia).
  reflexivity.
Qed.

(** What [handle_write] does for a chunk the table holds, when no sum
    wraps: the request is refused when [used + len] exceeds the capacity,
    whatever the growth of the chunk is. *)
Lemma handle_write_present s req resp now chunk :
  chunks_ s !! FileWriteRequest.chunk_id req = Some chunk ->
  0 <= FileWriteRequest.offset req ->
  FileWriteRequest.offset req + vsize (FileWriteRequest.data req) < 2 ^ 32 ->
  0 <= StoredChunk.size chunk < 2 ^ 32 ->
  StoredChunk.size chunk <= used_capacity_ s ->
  used_capacity_ s + 2 ^ 32 < 2 ^ 64 ->
  let len := vsize (FileWriteRequest.data req) in
  let new_size := Z.max (FileWriteRequest.offset req + len) (StoredChunk.size chunk) in
  handle_write s req resp now
  = if (max_capacity_ s <? used_capacity_ s + len)
       || (max_capacity_ s <? used_capacity_ s - StoredChunk.size chunk + new_size)
    then Ret (false, write_failed resp, s)
    else
      let bytes :=
        memcpy_at (resize (StoredChunk.data chunk) new_size)
          (FileWriteRequest.offset req) (FileWriteRequest.data req) in
      Ret (true, write_succeeded req resp,
           set_chunks s (used_capacity_ s - StoredChunk.size chunk + new_size)
             (<[FileWriteRequest.chunk_id req :=
                  {| StoredChunk.chunk_id := StoredChunk.chunk_id chunk;
                     StoredChunk.data := bytes;
                     StoredChunk.version := wrap32 (StoredChunk.version chunk + 1);
                     StoredChunk.size := new_size;
                     StoredChunk.creation_time := StoredChunk.creation_time chunk;
                     StoredChunk.last_access := now;
                     StoredChunk.checksum := calculate_crc32 bytes new_size |}]>
                (chunks_ s))).
Proof.
  intros Hk Hoff Hfit Hsize Hle Hused len new_size.
  pose proof (vsize_nonneg (FileWriteRequest.data req)) as Hlen.
  unfold handle_write. rewrite Hk.
  fold len.
  rewrite (wrap32_small len) by (unfold len in *; lia).
  rewrite (wrap32_small (FileWriteRequest.offset req + len)) by (unfold len in *; lia).
  rewrite (wrap32_small (StoredChunk.size chunk)) by lia.
  fold new_size.
  rewrite (wrap64_small (used_capacity_ s + len)) by (unfold len in *; lia).
  rewrite (wrap64_small (used_capacity_ s - StoredChunk.size chunk)) by lia.
  rewrite (wrap64_small (used_capacity_ s - StoredChunk.size chunk + new_size))
    by (unfold new_size, len in *; lia).
  destruct (max_capacity_ s <? used_capacity_ s + len); simpl; [reflexivity |].
  destruct (max_capacity_ s <? _); simpl; [reflexivity |].
  replace (FileWriteRequest.offset req + len <=? new_size) with true
    by (symmetry; apply Z.leb_le; unfold new_size; lia).
  cbn [StoredChunk.size].
  rewrite (wrap64_small (used_capacity_ s - StoredChunk.size chunk + new_size))
    by (unfold new_size, len in *; lia).
  reflexivity.
Qed.

(** C2 (the code at the failing input): the node of capacity 10 holds
    chunk 1 with eight bytes; overwriting those eight bytes in place needs
    no further space ([used - size + new_size = 8 <= 10]), and
    [handle_write] refuses the request as out of capacity and leaves the
    node as it was. *)
Theorem handle_write_overwrite_in_place_refused :
  let req := write_request 1 0 [x61; x62; x63; x64; x65; x66; x67; x68] in
  reachable 10 eight_of_ten /\
  chunks_ eight_of_ten !! 1
  = Some (first_chunk 1 [x41; x42; x43; x44; x45; x46; x47; x48] 0) /\
  used_capacity_ eight_of_ten - 8 + Z.max (0 + vsize (FileWriteRequest.data req)) 8
  <= max_capacity_ eight_of_ten /\
  handle_write eight_of_ten req no_response 1
  = Ret (false, write_failed no_response, eight_of_ten).
Proof.
  intros req. split; [exact eight_of_ten_reachable |].
  split; [reflexivity | split; [vm_compute; discriminate |]].
  reflexivity.
Qed.

(** C3 (the code at the failing input): a first write of the two bytes
    "ab" to chunk 7 with offset 5, on an empty node of capacity 100.  The
    write is not refused: [handle_write] acknowledges it and stores the
    two bytes at positions 0 and 1 of a chunk of size 2, since the branch
    for a new chunk never reads [req.offset].  The bytes are then not
    where the client wrote them: a read of two bytes at offset 5 fails
    with "Offset out of range", and a read at offset 0 returns them.  The
    branch for a chunk the node holds honours the offset: the same
    request on a node that holds chunk 7 with no bytes gives a chunk of
    size 7 with five zero bytes followed by "ab". *)
Theorem handle_write_new_chunk_drops_offset :
  let req := write_request 7 5 [x61; x62] in
  let s1 := set_chunks (init 100) 2 {[ 7 := first_chunk 7 [x61; x62] 0 ]} in
  let held := set_chunks (init 100) 0 {[ 7 := first_chunk 7 [] 0 ]} in
  chunks_ (init 100) !! 7 = None /\
  FileWriteRequest.offset req = 5 /\
  handle_write (init 100) req no_response 0
  = Ret (true, write_succeeded req no_response, s1) /\
  FileWriteResponse.success (write_succeeded req no_response) = true /\
  handle_read s1 (read_request 7 5 2) no_data 1
  = Ret (false, read_failed no_data "Offset out of range", s1) /\
  (exists s2,
     handle_read s1 (read_request 7 0 2) no_data 1
     = Ret (true, read_succeeded no_data [x61; x62], s2)) /\
  handle_write (init 100) (write_request 7 0 []) no_response 0
  = Ret (true, write_succeeded (write_request 7 0 []) no_response, held) /\
  (exists s3 c,
     handle_write held req no_response 1
     = Ret (true, write_succeeded req no_response, s3) /\
     chunks_ s3 !! 7 = Some c /\
     StoredChunk.size c = 7 /\
     StoredChunk.data c = [x00; x00; x00; x00; x00; x61; x62]).
Proof.
  intros req s1 held.
  split; [reflexivity |]. split; [reflexivity |]. split; [reflexivity |].
  split; [reflexivity |]. split; [reflexivity |].
  split; [eexists; reflexivity |]. split; [reflexivity |].
  eexists _, _. split; [reflexivity |].
  split; [vm_compute; reflexivity |]. split; reflexivity.
Qed.

(** Scenario "out of capacity": eight of ten bytes are used, five more
    bytes for a second chunk are refused, and nothing changes. *)
Example out_of_capacity_scenario :
  handle_write eight_of_ten (write_request 2 0 [x31; x32; x33; x34; x35]) no_response 1
  = Ret (false, write_failed no_response, eight_of_ten)
  /\ used_capacity_ eight_of_ten = 8
  /\ chunks_ eight_of_ten !! 2 = None.
Proof. repeat split. Qed.

End NodeOperations.

Section NodeReadDelete.
Import ChunkServer Node.

Lemma length_slice v off n :
  0 <= off -> 0 <= n -> off + n <= vsize v -> vsize (slice v off n) = n.
Proof.
  unfold vsize, slice. intros Hoff Hn Hfit.
  rewrite length_firstn, length_skipn. lia.
Qed.

(** The three outcomes of [handle_read], chunk by chunk. *)
Lemma handle_read_cases s req resp now :
  0 <= FileReadRequest.offset req < 2 ^ 32 ->
  0 <= FileReadRequest.length req < 2 ^ 32 ->
  let id := FileReadRequest.chunk_id req in
  let off := FileReadRequest.offset req in
  (chunks_ s !! id = None ->
   handle_read s req resp now = Ret (false, read_failed resp "Chunk not found", s)) /\
  (forall c, chunks_ s !! id = Some c -> StoredChunk.size c <= off ->
   handle_read s req resp now
   = Ret (false, read_failed resp "Offset out of range", s)) /\
  (forall c, chunks_ s !! id = Some c -> off < StoredChunk.size c ->
   StoredChunk.size c = vsize (StoredChunk.data c) ->
   StoredChunk.size c < 2 ^ 32 ->
   let stop := Z.min (off + FileReadRequest.length req) (StoredChunk.size c) in
   let bytes := slice (StoredChunk.data c) off (stop - off) in
   handle_read s req resp now
   = Ret (true, read_succeeded resp bytes,
          set_chunks s (used_capacity_ s) (<[id := touch c now]> (chunks_ s))) /\
   vsize bytes = stop - off).
Proof.
  intros Hoff Hlen id off.
  split; [| split].
  - intros Hk. unfold handle_read. fold id. rewrite Hk. reflexivity.
  - intros c Hk Hge. unfold handle_read. fold id off. rewrite Hk.
    apply Z.leb_le in Hge. rewrite Hge. reflexivity.
  - intros c Hk Hlt Hsize Hfit stop bytes.
    unfold handle_read. fold id off. rewrite Hk.
    pose proof (vsize_nonneg (StoredChunk.data c)) as Hpos.
    replace (StoredChunk.size c <=? off) with false
      by (symmetry; apply Z.leb_gt; exact Hlt).
    rewrite (wrap32_small (StoredChunk.size c)) by lia.
    rewrite (wrap32_small (StoredChunk.size c - off)) by (unfold off in *; lia).
    assert (Z.min (FileReadRequest.length req) (StoredChunk.size c - off) = stop - off)
      as -> by (unfold stop; lia).
    replace (off + (stop - off) <=? vsize (StoredChunk.data c)) with true
      by (symmetry; apply Z.leb_le; unfold stop; lia).
    split; [reflexivity |].
    unfold bytes. apply length_slice; unfold stop, off in *; lia.
Qed.

(** Writes that fit a frame keep every chunk size below 2^32. *)
Lemma step_narrow s o s1 :
  on_wire o -> narrow s -> step s o = Ret s1 -> narrow s1.
Proof.
  unfold narrow. intros Hwire Hs.
  destruct o as [req resp now | req resp now | chunk_id]; simpl.
  - unfold handle_write.
    destruct (max_capacity_ s <? _); [intros [= <-]; exact Hs |].
    destruct (chunks_ s !! FileWriteRequest.chunk_id req) as [chunk|] eqn:Hk.
    + destruct (max_capacity_ s <? _); [intros [= <-]; exact Hs |].
      destruct (_ <=? _); [| discriminate].
      intros [= <-]. simpl.
      apply map_Forall_insert_2; [| exact Hs]. simpl.
      pose proof (wrap32_range (StoredChunk.size chunk)).
      pose proof (wrap32_range (FileWriteRequest.offset req
                                + wrap32 (vsize (FileWriteRequest.data req)))).
      lia.
    + intros [= <-]. simpl.
      apply map_Forall_insert_2; [| exact Hs]. simpl.
      simpl in Hwire. rewrite chunk_size_bytes in Hwire. lia.
  - unfold handle_read.
    destruct (chunks_ s !! FileReadRequest.chunk_id req) as [chunk|] eqn:Hk;
      [| intros [= <-]; exact Hs].
    destruct (StoredChunk.size chunk <=? _); [intros [= <-]; exact Hs |].
    destruct (_ <=? vsize _); [| discriminate].
    intros [= <-]. simpl.
    apply map_Forall_insert_2; [| exact Hs].
    exact (Hs _ _ Hk).
  - intros [= <-]. unfold delete_chunk.
    destruct (chunks_ s !! chunk_id); [| exact Hs].
    simpl. apply map_Forall_delete. exact Hs.
Qed.

Lemma reachable_on_wire_reachable max_capacity s :
  reachable_on_wire max_capacity s -> reachable max_capacity s.
Proof.
  induction 1 as [| s o s1 _ IH Hty _ Hstep].
  - apply reachable_init.
  - eapply reachable_step; eauto.
Qed.

Lemma reachable_on_wire_narrow max_capacity s :
  reachable_on_wire max_capacity s -> narrow s.
Proof.
  induction 1 as [| s o s1 _ IH _ Hwire Hstep].
  - apply map_Forall_empty.
  - eapply step_narrow; eauto.
Qed.


Lemma eight_of_ten_on_wire : reachable_on_wire 10 eight_of_ten.
Proof.
  apply (on_wire_step 10 (init 10)
           (Write (write_request 1 0 [x41; x42; x43; x44; x45; x46; x47; x48])
                  no_response 0)).
  - apply on_wire_init.
  - simpl. lia.
  - vm_compute. discriminate.
  - simpl. rewrite eight_of_ten_written. reflexivity.
Defined.


(** Scenario "write then read": five bytes written to chunk 42 of an empty
    node of capacity 1_000_000, then ten bytes requested from offset 0. *)
Example write_then_read_scenario :
  exists s1 s2,
    handle_write (init 1000000) (write_request 42 0 [x41; x42; x43; x44; x45])
      no_response 0
    = Ret (true,
           write_succeeded (write_request 42 0 [x41; x42; x43; x44; x45]) no_response,
           s1) /\
    used_capacity_ s1 = 5 /\
    handle_read s1 (read_request 42 0 10) no_data 1
    = Ret (true, read_succeeded no_data [x41; x42; x43; x44; x45], s2).
Proof. eexists _, _. repeat split. Qed.

(** Scenario "versioning": three writes at offset 0 of chunk 7 with
    payloads "a", "bb", "ccc" on a node with room; the chunk then holds
    "ccc" with [version = 3] and [size = 3]. *)
Example versioning_scenario :
  exists s1 s2 s3 r1 r2 r3 c,
    handle_write (init 100) (write_request 7 0 [x61]) no_response 0
    = Ret (true, r1, s1) /\
    handle_write s1 (write_request 7 0 [x62; x62]) no_response 1
    = Ret (true, r2, s2) /\
    handle_write s2 (write_request 7 0 [x63; x63; x63]) no_response 2
    = Ret (true, r3, s3) /\
    chunks_ s3 !! 7 = Some c /\
    StoredChunk.data c = [x63; x63; x63] /\
    StoredChunk.version c = 3 /\
    StoredChunk.size c = 3 /\
    used_capacity_ s3 = 3.
Proof. eexists _, _, _, _, _, _, _. repeat split. Qed.

(** What [delete_chunk] leaves when the table holds the chunk, and when it
    does not. *)
Lemma delete_chunk_present s chunk_id c :
  chunks_ s !! chunk_id = Some c ->
  delete_chunk s chunk_id
  = (true, set_chunks s (wrap64 (used_capacity_ s - StoredChunk.size c))
             (delete chunk_id (chunks_ s))).
Proof. intros Hk. unfold delete_chunk. rewrite Hk. reflexivity. Qed.

Lemma delete_chunk_absent s chunk_id :
  chunks_ s !! chunk_id = None -> delete_chunk s chunk_id = (false, s).
Proof. intros Hk. unfold delete_chunk. rewrite Hk. reflexivity. Qed.

Lemma delete_chunk_twice s chunk_id :
  snd (delete_chunk (snd (delete_chunk s chunk_id)) chunk_id)
  = snd (delete_chunk s chunk_id).
Proof.
  destruct (chunks_ s !! chunk_id) as [c|] eqn:Hk.
  - rewrite (delete_chunk_present _ _ _ Hk). simpl.
    rewrite delete_chunk_absent; [reflexivity |].
    simpl. apply lookup_delete_eq.
  - rewrite (delete_chunk_absent _ _ Hk). simpl.
    rewrite (delete_chunk_absent _ _ Hk). reflexivity.
Qed.

Section WithPlatform.
Context `{Platform}.
Variable handle_replicate : ChunkServer.t -> ProtocolFrame.t -> exec (bool * ChunkServer.t).

(** [process_message] on an [OP_DELETE] frame, for a response object whose
    [payload_size] lies inside the payload array. *)
Lemma process_message_op_delete s frame response now :
  message_type frame = OP_DELETE ->
  payload_size response <= DFS_CHUNK_SIZE_BYTES ->
  exists response1,
    process_message handle_replicate s frame response now
    = Ret (true, response1, snd (delete_chunk s (le_value (payload_bytes frame 8)))) /\
    message_type response1 = OP_ACK /\
    magic response1 = DFS_PROTOCOL_MAGIC.
Proof.
  intros Hty Hsize. unfold process_message. rewrite Hty. simpl.
  destruct (delete_chunk s _) as [deleted s1]. simpl.
  unfold seal. simpl.
  apply Z.leb_le in Hsize. rewrite Hsize. simpl.
  eexists. repeat split.
Qed.

(** C7: an [OP_DELETE] frame is answered with [OP_ACK] and the result
    [true] whether or not the node holds the chunk; a chunk that is held
    is removed and its size is subtracted from [used_capacity_]; a node
    that does not hold it is left as it is; and handling the frame a
    second time leaves the state that handling it once left. *)
Theorem process_message_delete_idempotent s frame response response2 now now2 :
  message_type frame = OP_DELETE ->
  payload_size response <= DFS_CHUNK_SIZE_BYTES ->
  payload_size response2 <= DFS_CHUNK_SIZE_BYTES ->
  let chunk_id := le_value (payload_bytes frame 8) in
  exists ack s1,
    process_message handle_replicate s frame response now = Ret (true, ack, s1) /\
    message_type ack = OP_ACK /\
    s1 = snd (delete_chunk s chunk_id) /\
    (chunks_ s !! chunk_id = None -> s1 = s) /\
    (forall c, chunks_ s !! chunk_id = Some c ->
       chunks_ s1 = delete chunk_id (chunks_ s) /\
       used_capacity_ s1 = wrap64 (used_capacity_ s - StoredChunk.size c) /\
       (0 <= StoredChunk.size c <= used_capacity_ s -> used_capacity_ s < 2 ^ 64 ->
        used_capacity_ s1 = used_capacity_ s - StoredChunk.size c)) /\
    chunks_ s1 !! chunk_id = None /\
    exists ack2,
      process_message handle_replicate s1 frame response2 now2 = Ret (true, ack2, s1) /\
      message_type ack2 = OP_ACK.
Proof.
  intros Hty Hsize Hsize2 chunk_id.
  destruct (process_message_op_delete s frame response now Hty Hsize)
    as (ack & Hrun & Hack & _).
  fold chunk_id in Hrun.
  exists ack, (snd (delete_chunk s chunk_id)).
  split; [exact Hrun | split; [exact Hack | split; [reflexivity |]]].
  split; [| split; [| split]].
  - intros Hk. rewrite (delete_chunk_absent _ _ Hk). reflexivity.
  - intros c Hk. rewrite (delete_chunk_present _ _ _ Hk). simpl.
    split; [reflexivity | split; [reflexivity |]].
    intros Hc Hused. apply wrap64_small. lia.
  - destruct (chunks_ s !! chunk_id) as [c|] eqn:Hk.
    + rewrite (delete_chunk_present _ _ _ Hk). simpl. apply lookup_delete_eq.
    + rewrite (delete_chunk_absent _ _ Hk). exact Hk.
  - destruct (process_message_op_delete (snd (delete_chunk s chunk_id)) frame
                response2 now2 Hty Hsize2) as (ack2 & Hrun2 & Hack2 & _).
    fold chunk_id in Hrun2. rewrite delete_chunk_twice in Hrun2.
    exists ack2. split; [exact Hrun2 | exact Hack2].
Qed.

End WithPlatform.

End NodeReadDelete.

(** *** The storage node: instances *)

Section NodeWitnesses.
Import ChunkServer Node.

(** The accounting statement at the node of capacity 10 that holds eight
    bytes. *)
Lemma reachable_capacity_accounted_witness :
  used_capacity_ eight_of_ten = wrap64 (stored_bytes (chunks_ eight_of_ten)) /\
  (stored_bytes (chunks_ eight_of_ten) < 2 ^ 64 ->
   used_capacity_ eight_of_ten = stored_bytes (chunks_ eight_of_ten)) /\
  (forall chunk_id c, chunks_ eight_of_ten !! chunk_id = Some c ->
     StoredChunk.size c = vsize (StoredChunk.data c) /\
     StoredChunk.checksum c
     = calculate_crc32 (StoredChunk.data c) (StoredChunk.size c)).
Proof.
  apply (reachable_capacity_accounted 10 eight_of_ten).
  exact eight_of_ten_reachable.
Defined.

(** The [OP_DELETE] frame for chunk 1 handled twice by the node that holds
    chunk 1. *)
Lemma process_message_delete_idempotent_witness :
  exists ack s1,
    @process_message example_platform idle_replicate eight_of_ten delete_chunk_1
      zero_frame 0
    = Ret (true, ack, s1) /\
    message_type ack = OP_ACK /\
    chunks_ s1 !! 1 = None /\
    exists ack2,
      @process_message example_platform idle_replicate s1 delete_chunk_1 zero_frame 1
      = Ret (true, ack2, s1) /\
      message_type ack2 = OP_ACK.
Proof.
  destruct (@process_message_delete_idempotent example_platform idle_replicate
              eight_of_ten delete_chunk_1 zero_frame zero_frame 0 1)
    as (ack & s1 & Hrun & Hack & _ & _ & _ & Hgone & Hagain).
  - reflexivity.
  - vm_compute. discriminate.
  - vm_compute. discriminate.
  - exists ack, s1. repeat split; assumption.
Defined.

End NodeWitnesses.

(** *** The wire codec *)

Section Wire.

Lemma u8_byte_of_Z z : u8 (byte_of_Z z) = z mod 256.
Proof.
  unfold u8, byte_of_Z.
  assert (0 <= z mod 256 < 256) as Hr by (apply Z.mod_pos_bound; lia).
  destruct (Byte.of_N (Z.to_N (z mod 256))) as [b|] eqn:Hb.
  - apply Byte.to_of_N in Hb. rewrite Hb. lia.
  - apply Byte.of_N_None_iff in Hb. lia.
Qed.

Lemma length_le_bytes n x : List.length (le_bytes n x) = n.
Proof. revert x. induction n as [|n IH]; intros x; simpl; [| rewrite IH]; reflexivity. Qed.

Lemma le_value_le_bytes n x : le_value (le_bytes n x) = x mod 2 ^ (8 * Z.of_nat n).
Proof.
  revert x. induction n as [|n IH]; intros x.
  - simpl. rewrite Z.mod_1_r. reflexivity.
  - cbn [le_bytes le_value]. rewrite u8_byte_of_Z, IH, Z.shiftr_div_pow2 by lia.
    replace (8 * Z.of_nat (S n)) with (8 + 8 * Z.of_nat n) by lia.
    rewrite Z.pow_add_r by lia.
    change (2 ^ 8) with 256.
    rewrite Z.rem_mul_r by lia. reflexivity.
Qed.

Lemma le_value_le_bytes_small n x :
  0 <= x < 2 ^ (8 * Z.of_nat n) -> le_value (le_bytes n x) = x.
Proof. intros Hx. rewrite le_value_le_bytes. apply Z.mod_small. exact Hx. Qed.

Lemma length_header_bytes f : List.length (header_bytes f) = 16%nat.
Proof. unfold header_bytes. rewrite !length_app, !length_le_bytes. reflexivity. Qed.

Lemma firstn_app_length (a b : list byte) n :
  List.length a = n -> firstn n (a ++ b) = a.
Proof.
  intros <-. rewrite firstn_app, Nat.sub_diag, firstn_all. simpl. apply app_nil_r.
Qed.

Lemma skipn_app_length (a b : list byte) n :
  List.length a = n -> skipn n (a ++ b) = b.
Proof.
  intros <-. rewrite skipn_app, Nat.sub_diag, skipn_all. reflexivity.
Qed.

(** Copying the header bytes of [f] over another frame object gives the
    header of [f]. *)
Lemma memcpy_header_header_bytes f0 f :
  header_typed f ->
  memcpy_header f0 (header_bytes f)
  = {| magic := magic f; ProtocolFrame.version := ProtocolFrame.version f;
       message_type := message_type f; payload_size := payload_size f;
       ProtocolFrame.checksum := ProtocolFrame.checksum f; payload := payload f0 |}.
Proof.
  intros (Hm & Hv & Ht & Hs & Hc). unfold memcpy_header, header_bytes.
  set (A := le_bytes 4 (magic f)).
  set (B := le_bytes 2 (ProtocolFrame.version f)).
  set (C := le_bytes 2 (message_type f)).
  set (D := le_bytes 4 (payload_size f)).
  set (E := le_bytes 4 (ProtocolFrame.checksum f)).
  assert (skipn 4 (A ++ B ++ C ++ D ++ E) = B ++ C ++ D ++ E) as ->
    by (apply skipn_app_length, length_le_bytes).
  assert (skipn 6 (A ++ B ++ C ++ D ++ E) = C ++ D ++ E) as ->
    by (rewrite (app_assoc A B); apply skipn_app_length;
        rewrite length_app; unfold A, B; rewrite !length_le_bytes; reflexivity).
  assert (skipn 8 (A ++ B ++ C ++ D ++ E) = D ++ E) as ->
    by (rewrite (app_assoc A B), (app_assoc (A ++ B) C); apply skipn_app_length;
        rewrite !length_app; unfold A, B, C; rewrite !length_le_bytes; reflexivity).
  assert (skipn 12 (A ++ B ++ C ++ D ++ E) = E) as ->
    by (rewrite (app_assoc A B), (app_assoc (A ++ B) C), (app_assoc ((A ++ B) ++ C) D);
        apply skipn_app_length;
        rewrite !length_app; unfold A, B, C, D; rewrite !length_le_bytes; reflexivity).
  rewrite !firstn_app_length by apply length_le_bytes.
  rewrite <- (app_nil_r E), firstn_app_length by apply length_le_bytes.
  unfold A, B, C, D, E.
  rewrite !le_value_le_bytes_small by (simpl; lia).
  reflexivity.
Qed.

End Wire.

Section Receive.

Lemma map_nth_seq (l : list byte) n :
  (n <= List.length l)%nat ->
  List.map (fun i => nth i l x00) (seq 0 n) = firstn n l.
Proof.
  revert n. induction l as [|a l IH]; intros n Hn.
  - simpl in Hn. assert (n = 0%nat) as -> by lia. reflexivity.
  - destruct n as [|n]; [reflexivity |].
    cbn [seq List.map firstn nth]. f_equal.
    rewrite <- seq_shift, List.map_map. cbn [nth].
    apply IH. simpl in Hn. lia.
Qed.

(** After [memcpy(frame.payload, src, n)] the first [n] payload bytes are
    the first [n] bytes of the source. *)
Lemma payload_bytes_memcpy_payload f src n :
  n <= vsize src ->
  payload_bytes (memcpy_payload f src n) n = firstn (Z.to_nat n) src.
Proof.
  intros Hn. unfold payload_bytes, memcpy_payload. cbn [payload].
  rewrite <- map_nth_seq by (unfold vsize in Hn; lia).
  apply List.map_ext_in. intros i Hi. apply in_seq in Hi.
  destruct (Nat.ltb_spec i (Z.to_nat n)); [reflexivity | lia].
Qed.

Lemma le_value_nonneg l : 0 <= le_value l.
Proof.
  induction l as [|b l IH]; simpl; [lia |].
  unfold u8. lia.
Qed.

Lemma consumed_consumed sock a b :
  0 <= a -> 0 <= b ->
  {| socket_fd_ := socket_fd_ (consumed sock a);
     is_server_ := is_server_ (consumed sock a);
     inbox := skipn (Z.to_nat b) (inbox (consumed sock a));
     outbox := outbox (consumed sock a) |}
  = consumed sock (a + b).
Proof.
  intros Ha Hb. unfold consumed. simpl. f_equal.
  rewrite skipn_skipn. f_equal. lia.
Qed.

(** The first [recv_data] of [recv_frame] on a socket that holds sixteen
    header bytes. *)
Lemma recv_data_header sock hdr rest :
  0 <= socket_fd_ sock ->
  inbox sock = hdr ++ rest ->
  List.length hdr = 16%nat ->
  recv_data sock 16 = (true, hdr, consumed sock 16) /\
  inbox (consumed sock 16) = rest /\
  negb (vsize hdr =? 16) = false.
Proof.
  intros Hfd Hin Hlen. split; [| split].
  - unfold recv_data.
    replace (socket_fd_ sock <? 0) with false by (symmetry; apply Z.ltb_ge; lia).
    rewrite Hin, length_app, Hlen. simpl.
    change (Pos.to_nat 16) with 16%nat.
    rewrite firstn_app_length by exact Hlen.
    unfold consumed. rewrite Hin. reflexivity.
  - unfold consumed. simpl. rewrite Hin.
    change (Pos.to_nat 16) with 16%nat. apply skipn_app_length. exact Hlen.
  - unfold vsize. rewrite Hlen. reflexivity.
Qed.

(** The second [recv_data] of [recv_frame], when the payload is queued. *)
Lemma recv_data_payload sock n :
  0 <= socket_fd_ sock -> 0 <= n -> n <= vsize (inbox (consumed sock 16)) ->
  recv_data (consumed sock 16) n
  = (true, firstn (Z.to_nat n) (inbox (consumed sock 16)), consumed sock (16 + n)).
Proof.
  intros Hfd Hn Havail. unfold recv_data.
  replace (socket_fd_ (consumed sock 16) <? 0) with false
    by (symmetry; apply Z.ltb_ge; simpl; lia).
  assert ((0 <? n) && (List.length (inbox (consumed sock 16)) =? 0)%nat = false) as ->.
  { destruct (Z.ltb_spec 0 n); [| reflexivity].
    cbn [andb]. apply Nat.eqb_neq. unfold vsize in Havail. lia. }
  rewrite consumed_consumed by lia. reflexivity.
Qed.

(** A header with a wrong magic: rejected after the sixteen header
    bytes. *)
Lemma recv_frame_bad_magic sock frame hdr rest :
  0 <= socket_fd_ sock ->
  inbox sock = hdr ++ rest ->
  List.length hdr = 16%nat ->
  magic (memcpy_header frame hdr) <> DFS_PROTOCOL_MAGIC ->
  recv_frame sock frame = Ret (false, memcpy_header frame hdr, consumed sock 16).
Proof.
  intros Hfd Hin Hlen Hmagic.
  destruct (recv_data_header sock hdr rest Hfd Hin Hlen) as (Hrecv & _ & Hsixteen).
  unfold recv_frame. rewrite Hrecv. cbv beta iota.
  cbn [negb]. rewrite Hsixteen.
  apply Z.eqb_neq in Hmagic. rewrite Hmagic. reflexivity.
Qed.

(** A header with the right magic and a payload that is queued and fits
    the array: the flag is the outcome of the checksum comparison. *)
Lemma recv_frame_good_magic sock frame hdr rest :
  0 <= socket_fd_ sock ->
  inbox sock = hdr ++ rest ->
  List.length hdr = 16%nat ->
  let h := memcpy_header frame hdr in
  let n := payload_size h in
  magic h = DFS_PROTOCOL_MAGIC ->
  n <= DFS_CHUNK_SIZE_BYTES -> n <= vsize rest ->
  recv_frame sock frame
  = Ret (calculate_crc32 (firstn (Z.to_nat n) rest) n =? ProtocolFrame.checksum h,
         memcpy_payload h (firstn (Z.to_nat n) rest) n, consumed sock (16 + n)).
Proof.
  intros Hfd Hin Hlen h n Hmagic Hfit Havail.
  destruct (recv_data_header sock hdr rest Hfd Hin Hlen) as (Hrecv & Hrest & Hsixteen).
  assert (0 <= n) as Hn by apply le_value_nonneg.
  set (body := firstn (Z.to_nat n) rest).
  unfold recv_frame. rewrite Hrecv. cbv beta iota.
  cbn [negb]. rewrite Hsixteen. fold h.
  apply Z.eqb_eq in Hmagic. rewrite Hmagic. cbn [negb]. fold n.
  rewrite recv_data_payload by (rewrite ?Hrest; lia).
  rewrite Hrest. fold body. cbv beta iota. cbn [negb].
  assert (vsize body = n) as Hbody.
  { unfold body, vsize in *. rewrite length_firstn. lia. }
  apply Z.leb_le in Hfit. rewrite Hfit, Hbody, Z.leb_refl. cbn [andb].
  change (payload_size (memcpy_payload h body n)) with n.
  change (ProtocolFrame.checksum (memcpy_payload h body n))
    with (ProtocolFrame.checksum h).
  rewrite payload_bytes_memcpy_payload by lia.
  unfold body at 1. rewrite firstn_firstn, Nat.min_id. fold body.
  destruct (calculate_crc32 body n =? ProtocolFrame.checksum h); reflexivity.
Qed.

(** Fewer than sixteen bytes on the connection: rejected, and the caller's
    frame object is not written. *)
Lemma recv_frame_short_header sock frame :
  (List.length (inbox sock) < 16)%nat ->
  exists sock1, recv_frame sock frame = Ret (false, frame, sock1).
Proof.
  intros Hshort. unfold recv_frame, recv_data.
  destruct (socket_fd_ sock <? 0); [eexists; reflexivity |].
  destruct ((0 <? 16) && (List.length (inbox sock) =? 0)%nat);
    [eexists; reflexivity |].
  cbv beta iota. cbn [negb].
  replace (vsize (firstn (Z.to_nat 16) (inbox sock)) =? 16) with false.
  - eexists. reflexivity.
  - symmetry. apply Z.eqb_neq. unfold vsize. rewrite length_firstn. lia.
Qed.

(** A header with the right magic that announces more payload bytes than
    the payload array holds, with at least one byte queued behind it:
    nothing compares [payload_size] with the size of the array, and the
    copy into [frame.payload] runs past its end. *)
Lemma recv_frame_oversize sock frame hdr rest :
  0 <= socket_fd_ sock ->
  inbox sock = hdr ++ rest ->
  List.length hdr = 16%nat ->
  rest <> [] ->
  magic (memcpy_header frame hdr) = DFS_PROTOCOL_MAGIC ->
  DFS_CHUNK_SIZE_BYTES < payload_size (memcpy_header frame hdr) ->
  recv_frame sock frame = Undefined.
Proof.
  intros Hfd Hin Hlen Hrest Hmagic Hbig.
  destruct (recv_data_header sock hdr rest Hfd Hin Hlen) as (Hrecv & Hqueued & Hsixteen).
  unfold recv_frame. rewrite Hrecv. cbv beta iota.
  cbn [negb]. rewrite Hsixteen.
  apply Z.eqb_eq in Hmagic. rewrite Hmagic. cbn [negb].
  set (n := payload_size (memcpy_header frame hdr)) in *.
  unfold recv_data.
  replace (socket_fd_ (consumed sock 16) <? 0) with false
    by (symmetry; apply Z.ltb_ge; simpl; lia).
  rewrite Hqueued.
  replace ((List.length rest =? 0)%nat) with false
    by (symmetry; apply Nat.eqb_neq; destruct rest; [contradiction | discriminate]).
  rewrite andb_false_r. cbv beta iota. cbn [negb].
  replace (n <=? DFS_CHUNK_SIZE_BYTES) with false
    by (symmetry; apply Z.leb_gt; exact Hbig).
  reflexivity.
Qed.

(** C6 (the code at the failing inputs).  [recv_frame] compares the magic
    and the CRC32 and nothing else.  (1) A frame that announces protocol
    version 2, with the right magic and the CRC32 of its payload "Hello",
    is accepted.  (2) A header with the right magic that announces
    [DFS_CHUNK_SIZE_BYTES + 1] payload bytes, followed by "Hello", is not
    rejected: the copy into [frame.payload] is out of bounds.  (3) A
    frame whose payload fails the CRC32 check is rejected after the
    caller's frame object has been overwritten with its header and its
    payload.  (4) After a frame is rejected for its magic the connection
    is still open and the payload of the rejected frame is what the next
    call parses. *)
Theorem recv_frame_checks_neither_version_nor_size :
  (ProtocolFrame.version (frame_of 2 OP_WRITE hello) = 2 /\
   DFS_PROTOCOL_VERSION = 1 /\
   recv_frame (receiving (header_bytes (frame_of 2 OP_WRITE hello) ++ hello)) zero_frame
   = Ret (true,
          memcpy_payload
            (memcpy_header zero_frame (header_bytes (frame_of 2 OP_WRITE hello)))
            hello 5,
          receiving [])) /\
  (magic oversize_header = DFS_PROTOCOL_MAGIC /\
   DFS_CHUNK_SIZE_BYTES < payload_size oversize_header /\
   recv_frame (receiving (header_bytes oversize_header ++ hello)) zero_frame
   = Undefined) /\
  (exists g sock1,
     recv_frame
       (receiving (header_bytes (frame_of DFS_PROTOCOL_VERSION OP_WRITE hello)
                   ++ [x48; x65; x6c; x6c; x70]))
       zero_frame
     = Ret (false, g, sock1) /\
     magic zero_frame = 0 /\
     magic g = DFS_PROTOCOL_MAGIC /\
     payload_size g = 5 /\
     payload_bytes zero_frame 5 = [x00; x00; x00; x00; x00] /\
     payload_bytes g 5 = [x48; x65; x6c; x6c; x70]) /\
  (exists g sock1,
     recv_frame
       (receiving (le_bytes 4 0xDEADBEEE
                   ++ skipn 4 (header_bytes (frame_of DFS_PROTOCOL_VERSION OP_WRITE hello))
                   ++ hello))
       zero_frame
     = Ret (false, g, sock1) /\
     socket_fd_ sock1 = 3 /\
     inbox sock1 = hello).
Proof.
  split; [| split; [| split]].
  - split; [reflexivity | split; [reflexivity |]]. vm_compute. reflexivity.
  - split; [reflexivity |]. split; [vm_compute; reflexivity |].
    apply (recv_frame_oversize _ _ (header_bytes oversize_header) hello).
    + vm_compute. discriminate.
    + reflexivity.
    + apply length_header_bytes.
    + discriminate.
    + vm_compute. reflexivity.
    + vm_compute. reflexivity.
  - eexists _, _. split; [vm_compute; reflexivity |].
    repeat split.
  - eexists _, _. split; [vm_compute; reflexivity |]. split; reflexivity.
Qed.

(** A frame whose magic is wrong is rejected although its checksum is
    right, and a frame whose checksum is wrong is rejected. *)
Example recv_frame_rejections :
  (exists f sock,
     recv_frame
       (receiving (le_bytes 4 0xDEADBEEE
                   ++ skipn 4 (header_bytes (frame_of 1 OP_WRITE hello)) ++ hello))
       zero_frame = Ret (false, f, sock) /\ inbox sock = hello) /\
  (exists f sock,
     recv_frame
       (receiving (header_bytes (frame_of 1 OP_WRITE hello)
                   ++ [x48; x65; x6c; x6c; x70]))
       zero_frame = Ret (false, f, sock) /\ inbox sock = []).
Proof. split; eexists _, _; split; vm_compute; reflexivity. Qed.

End Receive.

Section Send.

(** [send_frame] reads past the end of the frame object whenever the
    payload leaves fewer than four bytes of the array unused. *)
Lemma send_frame_past_object sock f :
  DFS_CHUNK_SIZE_BYTES - 4 < payload_size f -> send_frame sock f = Undefined.
Proof.
  intros Hbig. unfold send_frame.
  replace (4 * 4 + 2 * 2 + payload_size f <=? sizeof_ProtocolFrame) with false;
    [reflexivity |].
  symmetry. apply Z.leb_gt. unfold sizeof_ProtocolFrame. lia.
Qed.

Lemma firstn_payload_bytes f n m :
  0 <= n <= m -> firstn (Z.to_nat n) (payload_bytes f m) = payload_bytes f n.
Proof.
  intros Hn. unfold payload_bytes.
  rewrite firstn_map. f_equal.
  replace (Z.to_nat m) with (Z.to_nat n + (Z.to_nat m - Z.to_nat n))%nat by lia.
  rewrite seq_app, firstn_app, length_seq, Nat.sub_diag.
  rewrite firstn_all2 by (rewrite length_seq; lia).
  simpl. apply app_nil_r.
Qed.

Lemma length_payload_bytes f n : 0 <= n -> vsize (payload_bytes f n) = n.
Proof. intros Hn. unfold vsize, payload_bytes. rewrite length_map, length_seq. lia. Qed.

(** For a frame that leaves at least four bytes of the payload array
    unused, a frame sent on an idle connection is received with the same
    header and the same payload; the four bytes [send_frame] adds after
    the payload stay queued on the connection. *)
Lemma frame_round_trip f f0 :
  header_typed f ->
  magic f = DFS_PROTOCOL_MAGIC ->
  payload_size f + 4 <= DFS_CHUNK_SIZE_BYTES ->
  ProtocolFrame.checksum f
  = calculate_crc32 (payload_bytes f (payload_size f)) (payload_size f) ->
  exists a g b,
    send_frame (receiving []) f = Ret (true, a) /\
    recv_frame (receiving (outbox a)) f0 = Ret (true, g, b) /\
    magic g = magic f /\
    ProtocolFrame.version g = ProtocolFrame.version f /\
    message_type g = message_type f /\
    payload_size g = payload_size f /\
    ProtocolFrame.checksum g = ProtocolFrame.checksum f /\
    payload_bytes g (payload_size g) = payload_bytes f (payload_size f) /\
    vsize (inbox b) = 4.
Proof.
  intros Hty Hmagic Hfit Hcrc.
  pose proof Hty as (_ & _ & _ & Hsize & _).
  set (n := payload_size f) in *.
  set (wire := header_bytes f ++ payload_bytes f (n + 4)).
  assert (send_frame (receiving []) f
          = Ret (true, {| socket_fd_ := 3; is_server_ := false;
                          inbox := []; outbox := wire |})) as Hsend.
  { unfold send_frame. fold n.
    replace (4 * 4 + 2 * 2 + n <=? sizeof_ProtocolFrame) with true
      by (symmetry; apply Z.leb_le; unfold sizeof_ProtocolFrame; lia).
    unfold send_data, object_bytes, wire.
    replace (4 * 4 + 2 * 2 + n - 16) with (n + 4) by lia.
    reflexivity. }
  pose proof (memcpy_header_header_bytes f0 f Hty) as Hhdr.
  pose proof (recv_frame_good_magic (receiving wire) f0
                (header_bytes f) (payload_bytes f (n + 4))) as Hrecv.
  cbv zeta in Hrecv.
  rewrite Hhdr in Hrecv. cbn [magic payload_size ProtocolFrame.checksum] in Hrecv.
  fold n in Hrecv.
  rewrite length_payload_bytes in Hrecv by lia.
  specialize (Hrecv ltac:(simpl; lia) eq_refl (length_header_bytes f) Hmagic
                ltac:(lia) ltac:(lia)).
  rewrite firstn_payload_bytes in Hrecv by lia.
  rewrite <- Hcrc, Z.eqb_refl in Hrecv.
  eexists _, _, _. split; [exact Hsend |]. split; [exact Hrecv |].
  repeat split.
  - unfold memcpy_payload at 2. cbn [payload_size].
    rewrite payload_bytes_memcpy_payload by (rewrite length_payload_bytes; lia).
    apply firstn_payload_bytes. lia.
  - unfold consumed, receiving, wire, vsize. cbn [inbox].
    rewrite length_skipn, length_app, length_header_bytes.
    pose proof (length_payload_bytes f (n + 4)) as Hl. unfold vsize in Hl. lia.
Qed.

Lemma checksum_sealed f :
  ProtocolFrame.checksum (sealed f)
  = calculate_crc32 (payload_bytes (sealed f) (payload_size (sealed f)))
      (payload_size (sealed f)).
Proof. destruct f. reflexivity. Qed.

(** C5 (the code at the failing inputs).  A frame whose payload fills the
    payload array is a frame of the protocol: right magic, [payload_size]
    equal to the bound, checksum of its payload; [send_frame] on it
    copies [20 + payload_size] bytes from an object of
    [16 + DFS_CHUNK_SIZE_BYTES] bytes, which is undefined.  A frame with
    a short payload is sent with four bytes after its payload, which
    [recv_frame] leaves on the connection: of two "Hello" frames sent one
    after the other the first is received and the second is rejected. *)
Theorem send_frame_writes_four_bytes_too_many :
  (magic full_frame = DFS_PROTOCOL_MAGIC /\
   payload_size full_frame = DFS_CHUNK_SIZE_BYTES /\
   ProtocolFrame.checksum full_frame
   = calculate_crc32 (payload_bytes full_frame (payload_size full_frame))
       (payload_size full_frame) /\
   forall sock, send_frame sock full_frame = Undefined) /\
  (let f := frame_of DFS_PROTOCOL_VERSION OP_WRITE hello in
   exists a1 a2 g1 b1 g2 b2,
     send_frame (receiving []) f = Ret (true, a1) /\
     send_frame a1 f = Ret (true, a2) /\
     vsize (outbox a1) = 16 + 5 + 4 /\
     recv_frame (receiving (outbox a2)) zero_frame = Ret (true, g1, b1) /\
     payload_bytes g1 (payload_size g1) = hello /\
     recv_frame b1 zero_frame = Ret (false, g2, b2)).
Proof.
  split.
  - split; [reflexivity | split; [reflexivity | split; [apply checksum_sealed |]]].
    intros sock. apply send_frame_past_object.
    change (payload_size full_frame) with DFS_CHUNK_SIZE_BYTES. lia.
  - eexists _, _, _, _, _, _.
    split; [vm_compute; reflexivity |].
    split; [vm_compute; reflexivity |].
    split; [reflexivity |].
    split; [vm_compute; reflexivity |].
    split; vm_compute; reflexivity.
Qed.

(** Scenario "round-trip frame": the frame of type [OP_WRITE] with payload
    "Hello" has checksum 0xF7D18982 and is received with the fields it
    was sent with. *)
Example hello_round_trip :
  let f := frame_of DFS_PROTOCOL_VERSION OP_WRITE hello in
  ProtocolFrame.checksum f = 0xF7D18982 /\
  exists a g b,
    send_frame (receiving []) f = Ret (true, a) /\
    recv_frame (receiving (outbox a)) zero_frame = Ret (true, g, b) /\
    (magic g, ProtocolFrame.version g, message_type g, payload_size g,
     ProtocolFrame.checksum g, payload_bytes g (payload_size g))
    = (0xDEADBEEF, 1, OP_WRITE, 5, 0xF7D18982, hello).
Proof.
  split; [vm_compute; reflexivity |].
  eexists _, _, _.
  split; [vm_compute; reflexivity |].
  split; vm_compute; reflexivity.
Qed.

End Send.

(** *** The client session: chunk helpers *)

Section ClientIO.
Import DistributedFileSystem Session.
Context `{Platform}.

(** The chunk list of a default-constructed [FileMetadata] is empty, so
    both helpers return [false] before they touch the pool. *)
Lemma read_chunk_fails e s chunk_id offset length data :
  read_chunk e s chunk_id offset length data = Ret (false, data, s).
Proof. reflexivity. Qed.

Lemma write_chunk_fails e s chunk_id offset data :
  write_chunk e s chunk_id offset data = Ret (false, s).
Proof. reflexivity. Qed.

Lemma read_returns_zero e s fd buffer size :
  read e s fd buffer size = Ret (0, buffer, s).
Proof.
  unfold read. destruct buffer as [buf|]; [| reflexivity].
  destruct (size =? 0); [reflexivity |].
  destruct (open_files_ s !! fd) as [handle|]; [| reflexivity].
  destruct (chunks handle); [reflexivity |].
  rewrite read_chunk_fails. reflexivity.
Qed.

(** C9: for every client state, descriptor and non-null buffer of [size]
    bytes with [0 < size], [read] and [write] return 0 and leave the
    client, and with it the open-file handle and its [current_offset],
    as it was: [read_chunk] and [write_chunk] test the chunk list of a
    default-constructed [FileMetadata], which is empty, and return
    [false] before any network call. *)
Theorem read_write_return_zero e s fd buf size :
  0 < size ->
  size <= vsize buf ->
  read e s fd (Some buf) size = Ret (0, Some buf, s) /\
  write e s fd (Some buf) size = Ret (0, s) /\
  (forall chunk_id offset length data,
     read_chunk e s chunk_id offset length data = Ret (false, data, s)) /\
  (forall chunk_id offset data,
     write_chunk e s chunk_id offset data = Ret (false, s)).
Proof.
  intros Hsize Hbuf.
  split; [apply read_returns_zero |].
  split; [| split; [intros; apply read_chunk_fails | intros; apply write_chunk_fails]].
  unfold write.
  replace (size =? 0) with false by (symmetry; apply Z.eqb_neq; lia).
  destruct (open_files_ s !! fd) as [handle|]; [| reflexivity].
  destruct (negb (writable handle)); [reflexivity |].
  destruct (chunks handle); [reflexivity |].
  apply Z.leb_le in Hbuf. rewrite Hbuf.
  rewrite write_chunk_fails. reflexivity.
Qed.

End ClientIO.

(** The statement above at a client with "/x" open for writing as
    descriptor 1 and a buffer of four bytes. *)
Lemma read_write_return_zero_witness :
  @DistributedFileSystem.read example_platform Session.offline Session.open_client 1
    (Some [x00; x00; x00; x00]) 4
  = Ret (0, Some [x00; x00; x00; x00], Session.open_client) /\
  @DistributedFileSystem.write example_platform Session.offline Session.open_client 1
    (Some [x00; x00; x00; x00]) 4
  = Ret (0, Session.open_client).
Proof.
  destruct (@read_write_return_zero example_platform Session.offline
              Session.open_client 1 [x00; x00; x00; x00] 4)
    as (Hread & Hwrite & _).
  - lia.
  - vm_compute. discriminate.
  - split; assumption.
Defined.

(** *** The client session: file descriptors *)

Section Descriptors.
Import DistributedFileSystem Session.
Context `{Platform}.

(** Case analysis on every test of a run that returned. *)
Ltac run_cases Hrun :=
  unfold bind in Hrun;
  repeat match type of Hrun with
         | context [match ?x with _ => _ end] => destruct x eqn:?
         end;
  try discriminate Hrun;
  inversion Hrun; subst; clear Hrun.

Lemma ensure_connected_next e s ok s1 :
  ensure_connected e s = (ok, s1) -> next_file_handle_ s1 = next_file_handle_ s.
Proof.
  unfold ensure_connected, reconnect_to_metadata_server. intros Hrun.
  destruct (is_connected s); [inversion Hrun; reflexivity |].
  destruct (connect_to_server e _ _). inversion Hrun. reflexivity.
Qed.

Lemma create_file_next e s path permissions r s1 :
  create_file e s path permissions = Ret (r, s1) ->
  next_file_handle_ s1 = next_file_handle_ s.
Proof.
  unfold create_file. intros Hrun.
  destruct (ensure_connected e s) as [ok s0] eqn:Hc.
  apply ensure_connected_next in Hc.
  run_cases Hrun; simpl; exact Hc.
Qed.

Lemma delete_file_next e s path r s1 :
  delete_file e s path = Ret (r, s1) ->
  next_file_handle_ s1 = next_file_handle_ s.
Proof.
  unfold delete_file. intros Hrun.
  destruct (ensure_connected e s) as [ok s0] eqn:Hc.
  apply ensure_connected_next in Hc.
  run_cases Hrun; simpl; exact Hc.
Qed.

Lemma mkdir_next e s path r s1 :
  mkdir e s path = Ret (r, s1) ->
  next_file_handle_ s1 = next_file_handle_ s.
Proof.
  unfold mkdir. intros Hrun.
  destruct (ensure_connected e s) as [ok s0] eqn:Hc.
  apply ensure_connected_next in Hc.
  run_cases Hrun; simpl; exact Hc.
Qed.

Lemma query_metadata_next e s path metadata ok m1 s1 :
  query_metadata e s path metadata = Ret (ok, m1, s1) ->
  next_file_handle_ s1 = next_file_handle_ s.
Proof.
  unfold query_metadata. intros Hrun.
  destruct (metadata_cache_ s !! path) as [entry|].
  - destruct (now e - cached_time entry <? DFS_METADATA_CACHE_TTL_SEC).
    + inversion Hrun. reflexivity.
    + destruct (ensure_connected e _) as [ok0 s0] eqn:Hc.
      apply ensure_connected_next in Hc. simpl in Hc.
      run_cases Hrun; simpl; exact Hc.
  - destruct (ensure_connected e s) as [ok0 s0] eqn:Hc.
    apply ensure_connected_next in Hc.
    run_cases Hrun; simpl; exact Hc.
Qed.

(** [open] returns [-1] and keeps the counter, or returns the counter and
    increments it. *)
Lemma open_next e s path flags fd s1 :
  open e s path flags = Ret (fd, s1) ->
  (fd = -1 /\ next_file_handle_ s1 = next_file_handle_ s) \/
  (fd = next_file_handle_ s /\ next_file_handle_ s1 = fd + 1).
Proof.
  unfold open, bind. intros Hrun.
  destruct (query_metadata e s path _) as [[[ok m1] s0]|] eqn:Hq; [| discriminate].
  apply query_metadata_next in Hq.
  destruct (negb ok).
  - inversion Hrun; subst. left. split; [reflexivity | exact Hq].
  - destruct (next_file_handle_ s0 =? INT_MAX); [discriminate |].
    inversion Hrun; subst. right. simpl. split; [exact Hq | reflexivity].
Qed.

(** A [write] that returns has returned 0 and changed nothing. *)
Lemma write_keeps_client e s fd data size r s1 :
  write e s fd data size = Ret (r, s1) -> r = 0 /\ s1 = s.
Proof.
  unfold write. intros Hrun.
  destruct data as [bytes|]; [| inversion Hrun; auto].
  destruct (size =? 0); [inversion Hrun; auto |].
  destruct (open_files_ s !! fd) as [handle|]; [| inversion Hrun; auto].
  destruct (negb (writable handle)); [inversion Hrun; auto |].
  destruct (chunks handle); [inversion Hrun; auto |].
  destruct (size <=? vsize bytes); [| discriminate].
  rewrite write_chunk_fails in Hrun. inversion Hrun; auto.
Qed.

Lemma perform_next s c r s1 :
  1 <= next_file_handle_ s ->
  perform s c = Ret (r, s1) ->
  match r with
  | Some fd => fd = next_file_handle_ s /\ next_file_handle_ s1 = fd + 1
  | None => next_file_handle_ s1 = next_file_handle_ s
  end.
Proof.
  intros Hpos Hrun.
  destruct c as [e p perms | e p | e p | e p m | e p flags
                | e fd buffer size | e fd bytes size | fd];
    unfold perform, bind in Hrun.
  - destruct (create_file e s p perms) as [[r0 s0]|] eqn:Hc; [| discriminate].
    inversion Hrun; subst. eapply create_file_next; eauto.
  - destruct (delete_file e s p) as [[r0 s0]|] eqn:Hc; [| discriminate].
    inversion Hrun; subst. eapply delete_file_next; eauto.
  - destruct (mkdir e s p) as [[r0 s0]|] eqn:Hc; [| discriminate].
    inversion Hrun; subst. eapply mkdir_next; eauto.
  - destruct (get_file_info e s p m) as [[[ok m1] s0]|] eqn:Hc; [| discriminate].
    inversion Hrun; subst. eapply query_metadata_next; eauto.
  - destruct (open e s p flags) as [[fd s0]|] eqn:Hc; [| discriminate].
    inversion Hrun; subst.
    destruct (open_next _ _ _ _ _ _ Hc) as [[-> Hsame] | [-> Hnext]].
    + simpl. exact Hsame.
    + replace (next_file_handle_ s =? -1) with false
        by (symmetry; apply Z.eqb_neq; lia).
      split; [reflexivity | exact Hnext].
  - rewrite read_returns_zero in Hrun. inversion Hrun. reflexivity.
  - destruct (write e s fd bytes size) as [[r0 s0]|] eqn:Hc; [| discriminate].
    inversion Hrun; subst.
    apply write_keeps_client in Hc as [_ ->]. reflexivity.
  - inversion Hrun; subst. unfold close.
    destruct (open_files_ s !! fd); reflexivity.
Qed.

(** The descriptors of a sequence of calls, from a client whose counter is
    at least 1: each is at least the counter, and they strictly
    increase. *)
Lemma session_descriptors calls : forall s fds s1,
  1 <= next_file_handle_ s ->
  session s calls = Ret (fds, s1) ->
  Forall (fun fd => next_file_handle_ s <= fd) fds /\
  StronglySorted Z.lt fds /\
  Forall (fun fd => fd < next_file_handle_ s1) fds /\
  next_file_handle_ s <= next_file_handle_ s1.
Proof.
  induction calls as [|c rest IH]; intros s fds s1 Hpos Hrun.
  - inversion Hrun; subst. repeat split; try constructor. lia.
  - cbn [session] in Hrun. unfold bind in Hrun.
    destruct (perform s c) as [[r s0]|] eqn:Hc; [| discriminate].
    destruct (session s0 rest) as [[fds0 s2]|] eqn:Hrest; [| discriminate].
    inversion Hrun; subst; clear Hrun.
    pose proof (perform_next _ _ _ _ Hpos Hc) as Hstep.
    destruct r as [fd|].
    + destruct Hstep as [-> Hnext].
      destruct (IH s0 fds0 s1 ltac:(lia) Hrest) as (Hlow & Hsorted & Hhigh & Hle).
      rewrite Hnext in Hlow, Hle.
      repeat split.
      * constructor; [lia |]. eapply List.Forall_impl; [| exact Hlow]. simpl. intros; lia.
      * constructor; [exact Hsorted |].
        eapply List.Forall_impl; [| exact Hlow]. simpl. intros; lia.
      * constructor; [lia | exact Hhigh].
      * lia.
    + destruct (IH s0 fds0 s1 ltac:(lia) Hrest) as (Hlow & Hsorted & Hhigh & Hle).
      rewrite Hstep in Hlow, Hle. repeat split; assumption.
Qed.

(** C10: in any sequence of calls on one client, from its construction on,
    every [open] that succeeds returns a descriptor that is at least 1 and
    strictly greater than every descriptor an earlier [open] returned,
    whether or not those were closed in between. *)
Theorem open_descriptors_never_reused ip port calls fds s1 :
  session (init ip port) calls = Ret (fds, s1) ->
  Forall (fun fd => 1 <= fd) fds /\ StronglySorted Z.lt fds.
Proof.
  intros Hrun.
  destruct (session_descriptors calls (init ip port) fds s1 ltac:(simpl; lia) Hrun)
    as (Hlow & Hsorted & _).
  split; [exact Hlow | exact Hsorted].
Qed.

End Descriptors.

(** Open, close, open on a new client, in a world where the directory
    answers with the 144 bytes of a metadata object: the descriptors are
    1 and 2. *)
Lemma open_descriptors_never_reused_witness :
  exists s1,
    @Session.session example_platform (DistributedFileSystem.init "127.0.0.1" 9000)
      Session.open_close_open
    = Ret ([1; 2], s1) /\
    Forall (fun fd => 1 <= fd) [1; 2] /\ StronglySorted Z.lt [1; 2].
Proof.
  eexists. split.
  - vm_compute. reflexivity.
  - eapply (@open_descriptors_never_reused example_platform "127.0.0.1" 9000
              Session.open_close_open).
    vm_compute. reflexivity.
Defined.

(** *** The storage node: further properties *)

Section NodeMore.
Import ChunkServer Node More.

Lemma firstn_vsize (v : list byte) : firstn (Z.to_nat (vsize v)) v = v.
Proof. unfold vsize. rewrite Nat2Z.id. apply firstn_all. Qed.

Lemma slice_all (v : list byte) : slice v 0 (vsize v) = v.
Proof. unfold slice. simpl. apply firstn_vsize. Qed.

Lemma slice_memcpy_at v off src :
  0 <= off -> off <= vsize v ->
  slice (memcpy_at v off src) off (vsize src) = src.
Proof.
  intros Hoff Hfit. unfold slice, memcpy_at.
  rewrite skipn_app, length_firstn.
  replace (Z.to_nat off - Z.to_nat off `min` List.length v)%nat with 0%nat
    by (unfold vsize in Hfit; lia).
  rewrite skipn_all2 by (rewrite length_firstn; lia).
  rewrite skipn_O, app_nil_l, firstn_app, firstn_vsize.
  replace (Z.to_nat (vsize src) - List.length src)%nat with 0%nat
    by (unfold vsize; lia).
  rewrite firstn_O. apply app_nil_r.
Qed.

(** The chunk a successful write leaves at the addressed id. *)
Lemma handle_write_success s req resp now r s1 :
  0 <= FileWriteRequest.offset req < 2 ^ 32 ->
  handle_write s req resp now = Ret (true, r, s1) ->
  let id := FileWriteRequest.chunk_id req in
  let bytes := FileWriteRequest.data req in
  match chunks_ s !! id with
  | None =>
      chunks_ s1 = <[id := first_chunk id bytes now]> (chunks_ s)
  | Some chunk =>
      FileWriteRequest.offset req + vsize bytes < 2 ^ 32 /\
      let new_size :=
        Z.max (FileWriteRequest.offset req + vsize bytes)
              (wrap32 (StoredChunk.size chunk)) in
      chunks_ s1
      = <[id :=
            {| StoredChunk.chunk_id := StoredChunk.chunk_id chunk;
               StoredChunk.data :=
                 memcpy_at (resize (StoredChunk.data chunk) new_size)
                   (FileWriteRequest.offset req) bytes;
               StoredChunk.version := wrap32 (StoredChunk.version chunk + 1);
               StoredChunk.size := new_size;
               StoredChunk.creation_time := StoredChunk.creation_time chunk;
               StoredChunk.last_access := now;
               StoredChunk.checksum :=
                 calculate_crc32
                   (memcpy_at (resize (StoredChunk.data chunk) new_size)
                      (FileWriteRequest.offset req) bytes) new_size |}]>
          (chunks_ s)
  end.
Proof.
  intros Hoff Hrun id bytes. unfold handle_write in Hrun. fold id bytes in Hrun.
  destruct (max_capacity_ s <? _); [discriminate |].
  destruct (chunks_ s !! id) as [chunk|] eqn:Hk.
  - destruct (max_capacity_ s <? _); [discriminate |].
    destruct (_ <=? _) eqn:Hfit; [| discriminate].
    apply Z.leb_le in Hfit.
    pose proof (vsize_nonneg bytes) as Hlen.
    pose proof (wrap32_range (StoredChunk.size chunk)) as Hsize.
    pose proof (wrap32_range (FileWriteRequest.offset req + wrap32 (vsize bytes))) as Hsum.
    assert (FileWriteRequest.offset req + vsize bytes < 2 ^ 32) as Hsmall by lia.
    rewrite (wrap32_small (vsize bytes)) in Hrun, Hfit by lia.
    rewrite (wrap32_small (FileWriteRequest.offset req + vsize bytes)) in Hrun by lia.
    split; [exact Hsmall |].
    injection Hrun as _ <-. reflexivity.
  - injection Hrun as _ <-. reflexivity.
Qed.

(** X1: what a successful write stored is what a read of the same range
    returns.  In a state the node reaches through requests that fit a
    frame, after [handle_write] succeeded with a non-empty payload, a
    [handle_read] of [len(bytes)] bytes at the offset where the bytes
    landed (the request's offset for a chunk that existed, 0 for a chunk
    the write created) succeeds and appends exactly those bytes. *)
Theorem handle_write_then_read max_capacity s req resp now r s1 rreq rresp now2 :
  reachable_on_wire max_capacity s ->
  0 <= FileWriteRequest.offset req < 2 ^ 32 ->
  0 < vsize (FileWriteRequest.data req) <= DFS_CHUNK_SIZE_BYTES ->
  handle_write s req resp now = Ret (true, r, s1) ->
  FileReadRequest.chunk_id rreq = FileWriteRequest.chunk_id req ->
  FileReadRequest.offset rreq = landing_offset s req ->
  FileReadRequest.length rreq = vsize (FileWriteRequest.data req) ->
  exists s2,
    handle_read s1 rreq rresp now2
    = Ret (true, read_succeeded rresp (FileWriteRequest.data req), s2).
Proof.
  intros Hreach Hoff Hlen Hrun Hid Hat Hcount.
  assert (reachable_on_wire max_capacity s1) as Hreach1.
  { apply (on_wire_step _ s (Write req resp now)); [exact Hreach | exact Hoff | | ].
    - simpl. lia.
    - simpl. rewrite Hrun. reflexivity. }
  pose proof (reachable_on_wire_narrow _ _ Hreach) as Hnarrow.
  pose proof (reachable_on_wire_narrow _ _ Hreach1) as Hnarrow1.
  destruct (reachable_accounted _ _ (reachable_on_wire_reachable _ _ Hreach))
    as [_ Hall].
  destruct (reachable_accounted _ _ (reachable_on_wire_reachable _ _ Hreach1))
    as [_ Hall1].
  pose proof (handle_write_success s req resp now r s1 Hoff Hrun) as Hstored.
  cbv zeta in Hstored. unfold landing_offset in Hat.
  pose proof (vsize_nonneg (FileWriteRequest.data req)) as Hpos.
  rewrite chunk_size_bytes in Hlen.
  destruct (chunks_ s !! FileWriteRequest.chunk_id req) as [chunk|] eqn:Hk.
  - destruct Hstored as [Hsmall Hstored].
    set (new_size := Z.max _ _) in Hstored.
    set (c1 := {| StoredChunk.chunk_id := StoredChunk.chunk_id chunk |}) in Hstored.
    assert (chunks_ s1 !! FileReadRequest.chunk_id rreq = Some c1) as Hk1
      by (rewrite Hid, Hstored; apply lookup_insert_eq).
    destruct (Hall1 _ _ Hk1) as [Hsize1 _].
    pose proof (Hnarrow1 _ _ Hk1) as Hfit1. simpl in Hfit1, Hsize1.
    destruct (handle_read_cases s1 rreq rresp now2) as (_ & _ & Hread);
      [lia | lia |].
    destruct (Hread c1 Hk1) as [Hres _];
      [simpl; unfold new_size; lia | exact Hsize1 | exact Hfit1 |].
    cbv zeta in Hres. rewrite Hat, Hcount in Hres. cbn [StoredChunk.size c1] in Hres.
    replace (Z.min (FileWriteRequest.offset req + vsize (FileWriteRequest.data req))
                   new_size
             - FileWriteRequest.offset req)
      with (vsize (FileWriteRequest.data req)) in Hres by (unfold new_size; lia).
    cbn [StoredChunk.data c1] in Hres.
    rewrite slice_memcpy_at in Hres
      by (rewrite ?length_resize; unfold new_size; lia).
    eexists. exact Hres.
  - set (c1 := first_chunk _ _ _) in Hstored.
    assert (chunks_ s1 !! FileReadRequest.chunk_id rreq = Some c1) as Hk1
      by (rewrite Hid, Hstored; apply lookup_insert_eq).
    destruct (handle_read_cases s1 rreq rresp now2) as (_ & _ & Hread);
      [lia | lia |].
    destruct (Hread c1 Hk1) as [Hres _];
      [simpl; lia | reflexivity | simpl; lia |].
    cbv zeta in Hres. rewrite Hat, Hcount in Hres. cbn [StoredChunk.size c1 first_chunk] in Hres.
    replace (Z.min (0 + vsize (FileWriteRequest.data req))
                   (vsize (FileWriteRequest.data req)) - 0)
      with (vsize (FileWriteRequest.data req)) in Hres by lia.
    cbn [StoredChunk.data c1 first_chunk] in Hres.
    rewrite slice_all in Hres.
    eexists. exact Hres.
Qed.

(** X1 at the node of capacity 10: "XY" written at offset 3 of its
    eight-byte chunk is read back from offset 3. *)
Lemma handle_write_then_read_witness :
  exists r s1 s2,
    handle_write eight_of_ten (write_request 1 3 [x58; x59]) no_response 1
    = Ret (true, r, s1) /\
    handle_read s1 (read_request 1 3 2) no_data 2
    = Ret (true, read_succeeded no_data [x58; x59], s2).
Proof.
  eexists _, _.
  assert (handle_write eight_of_ten (write_request 1 3 [x58; x59]) no_response 1
          = Ret (true, write_succeeded (write_request 1 3 [x58; x59]) no_response,
                 set_chunks eight_of_ten 8
                   (<[1 := {| StoredChunk.chunk_id := 1;
                              StoredChunk.data :=
                                [x41; x42; x43; x58; x59; x46; x47; x48];
                              StoredChunk.version := 2;
                              StoredChunk.size := 8;
                              StoredChunk.creation_time := 0;
                              StoredChunk.last_access := 1;
                              StoredChunk.checksum :=
                                calculate_crc32
                                  [x41; x42; x43; x58; x59; x46; x47; x48] 8 |}]>
                      (chunks_ eight_of_ten)))) as Hwrite by reflexivity.
  assert (0 <= FileWriteRequest.offset (write_request 1 3 [x58; x59]) < 2 ^ 32)
    as Hoff by (simpl; lia).
  assert (0 < vsize (FileWriteRequest.data (write_request 1 3 [x58; x59]))
          <= DFS_CHUNK_SIZE_BYTES) as Hlen
    by (vm_compute; split; [reflexivity | discriminate]).
  destruct (handle_write_then_read 10 eight_of_ten _ no_response 1 _ _
              (read_request 1 3 2) no_data 2
              eight_of_ten_on_wire Hoff Hlen Hwrite eq_refl eq_refl eq_refl)
    as [s2 Hread].
  exists s2. split; [exact Hwrite | exact Hread].
Defined.

(** X2: an operation that reports failure leaves the node exactly as it
    was: a [handle_write] or [handle_read] that returns [false], or a
    [delete_chunk] that returns [false], changes neither the chunk table
    nor the capacity counter. *)
Theorem failed_operation_changes_nothing s o s1 :
  outcome s o = Ret (false, s1) -> s1 = s.
Proof.
  destruct o as [req resp now | req resp now | chunk_id]; simpl.
  - unfold handle_write.
    destruct (max_capacity_ s <? _); [intros [= <-]; reflexivity |].
    destruct (chunks_ s !! FileWriteRequest.chunk_id req) as [chunk|].
    + destruct (max_capacity_ s <? _); [intros [= <-]; reflexivity |].
      destruct (_ <=? _); discriminate.
    + discriminate.
  - unfold handle_read.
    destruct (chunks_ s !! FileReadRequest.chunk_id req) as [chunk|];
      [| intros [= <-]; reflexivity].
    destruct (StoredChunk.size chunk <=? _); [intros [= <-]; reflexivity |].
    destruct (_ <=? _); discriminate.
  - unfold delete_chunk.
    destruct (chunks_ s !! chunk_id) as [chunk|]; [discriminate |].
    intros [= <-]. reflexivity.
Qed.

(** X2 at the node of capacity 10 that holds eight bytes: a write of three
    bytes to a new chunk is refused and the node is the same. *)
Lemma failed_operation_changes_nothing_witness :
  outcome eight_of_ten (Write (write_request 2 0 [x58; x59; x5a]) no_response 1)
  = Ret (false, eight_of_ten).
Proof.
  assert (exists s1,
            outcome eight_of_ten
              (Write (write_request 2 0 [x58; x59; x5a]) no_response 1)
            = Ret (false, s1)) as [s1 Hrun] by (eexists; reflexivity).
  rewrite Hrun. f_equal. f_equal.
  exact (failed_operation_changes_nothing _ _ _ Hrun).
Defined.

(** X3: an operation touches one chunk only.  Whatever it does to the
    chunk it addresses, every other entry of the chunk table, the
    configured capacity and the running flag are the same afterwards. *)
Theorem step_leaves_other_chunks s o s1 k :
  step s o = Ret s1 -> k <> target o ->
  chunks_ s1 !! k = chunks_ s !! k /\
  max_capacity_ s1 = max_capacity_ s /\
  running_ s1 = running_ s.
Proof.
  destruct o as [req resp now | req resp now | chunk_id]; simpl; intros Hrun Hk.
  - unfold handle_write in Hrun.
    destruct (max_capacity_ s <? _); [injection Hrun as <-; auto |].
    destruct (chunks_ s !! FileWriteRequest.chunk_id req) as [chunk|].
    + destruct (max_capacity_ s <? _); [injection Hrun as <-; auto |].
      destruct (_ <=? _); [| discriminate].
      injection Hrun as <-. simpl. rewrite lookup_insert_ne by congruence. auto.
    + injection Hrun as <-. simpl. rewrite lookup_insert_ne by congruence. auto.
  - unfold handle_read in Hrun.
    destruct (chunks_ s !! FileReadRequest.chunk_id req) as [chunk|];
      [| injection Hrun as <-; auto].
    destruct (StoredChunk.size chunk <=? _); [injection Hrun as <-; auto |].
    destruct (_ <=? _); [| discriminate].
    injection Hrun as <-. simpl. rewrite lookup_insert_ne by congruence. auto.
  - injection Hrun as <-. unfold delete_chunk.
    destruct (chunks_ s !! chunk_id) as [chunk|]; simpl; [| auto].
    rewrite lookup_delete_ne by congruence. auto.
Qed.

(** X3 at the node of capacity 10: deleting chunk 2 leaves chunk 1
    alone. *)
Lemma step_leaves_other_chunks_witness :
  chunks_ (snd (delete_chunk eight_of_ten 2)) !! 1 = chunks_ eight_of_ten !! 1 /\
  max_capacity_ (snd (delete_chunk eight_of_ten 2)) = max_capacity_ eight_of_ten /\
  running_ (snd (delete_chunk eight_of_ten 2)) = running_ eight_of_ten.
Proof.
  apply (step_leaves_other_chunks eight_of_ten (Delete 2)).
  - reflexivity.
  - simpl. discriminate.
Defined.

(** One operation keeps the stored bytes within the configured capacity. *)
Lemma step_within_capacity s o s1 :
  well_typed o -> on_wire o -> accounted s -> narrow s ->
  max_capacity_ s <= 2 ^ 64 - 2 ^ 32 ->
  stored_bytes (chunks_ s) <= max_capacity_ s ->
  step s o = Ret s1 ->
  max_capacity_ s1 = max_capacity_ s /\
  stored_bytes (chunks_ s1) <= max_capacity_ s1.
Proof.
  intros Hty Hwire [Hused Hall] Hnarrow Hmax Hsum.
  pose proof (stored_bytes_nonneg _ Hall) as Hpos.
  rewrite wrap64_small in Hused by lia.
  destruct o as [req resp now | req resp now | chunk_id]; simpl; intros Hrun.
  - simpl in Hty, Hwire. rewrite chunk_size_bytes in Hwire.
    pose proof (vsize_nonneg (FileWriteRequest.data req)) as Hlen.
    unfold handle_write in Hrun.
    destruct (max_capacity_ s <? _) eqn:Hfull; [injection Hrun as <-; auto |].
    apply Z.ltb_ge in Hfull. rewrite wrap64_small in Hfull by lia.
    destruct (chunks_ s !! FileWriteRequest.chunk_id req) as [chunk|] eqn:Hk.
    + pose proof (Hnarrow _ _ Hk) as Hfit. simpl in Hfit.
      destruct (Hall _ _ Hk) as [Hsize _].
      pose proof (vsize_nonneg (StoredChunk.data chunk)) as Hsz.
      pose proof (stored_bytes_delete _ _ _ Hk) as Hsplit.
      assert (0 <= stored_bytes (delete (FileWriteRequest.chunk_id req) (chunks_ s)))
        as Hrest by (apply stored_bytes_nonneg, map_Forall_delete, Hall).
      pose proof (wrap32_range (FileWriteRequest.offset req
                                + wrap32 (vsize (FileWriteRequest.data req)))) as Hsum32.
      rewrite (wrap32_small (StoredChunk.size chunk)) in Hrun by lia.
      rewrite (wrap64_small (used_capacity_ s - StoredChunk.size chunk)) in Hrun by lia.
      destruct (max_capacity_ s <? _) eqn:Hfull2; [injection Hrun as <-; auto |].
      apply Z.ltb_ge in Hfull2. rewrite wrap64_small in Hfull2 by lia.
      destruct (_ <=? _); [| discriminate].
      injection Hrun as <-. simpl. split; [reflexivity |].
      rewrite (stored_bytes_replace _ _ chunk) by exact Hk. simpl. lia.
    + injection Hrun as <-. simpl. split; [reflexivity |].
      rewrite stored_bytes_insert_fresh by exact Hk. simpl. lia.
  - unfold handle_read in Hrun.
    destruct (chunks_ s !! FileReadRequest.chunk_id req) as [chunk|] eqn:Hk;
      [| injection Hrun as <-; auto].
    destruct (StoredChunk.size chunk <=? _); [injection Hrun as <-; auto |].
    destruct (_ <=? _); [| discriminate].
    injection Hrun as <-. simpl. split; [reflexivity |].
    rewrite (stored_bytes_replace _ _ chunk) by exact Hk. simpl. lia.
  - injection Hrun as <-. unfold delete_chunk.
    destruct (chunks_ s !! chunk_id) as [chunk|] eqn:Hk; simpl; [| auto].
    split; [reflexivity |].
    destruct (Hall _ _ Hk) as [Hsize _].
    pose proof (vsize_nonneg (StoredChunk.data chunk)) as Hsz.
    pose proof (stored_bytes_delete _ _ _ Hk) as Hsplit. lia.
Qed.

Lemma reachable_on_wire_within max_capacity s :
  0 <= max_capacity <= 2 ^ 64 - 2 ^ 32 ->
  reachable_on_wire max_capacity s ->
  max_capacity_ s = max_capacity /\
  stored_bytes (chunks_ s) <= max_capacity.
Proof.
  intros Hmax. induction 1 as [| s o s1 Hreach [IHmax IH] Hty Hwire Hstep].
  - simpl. rewrite stored_bytes_empty. lia.
  - destruct (step_within_capacity s o s1) as [Hsame Hle]; try assumption.
    + apply (reachable_accounted max_capacity), reachable_on_wire_reachable, Hreach.
    + apply (reachable_on_wire_narrow max_capacity), Hreach.
    + lia.
    + lia.
    + split; lia.
Qed.

(** X4: the node never stores more than its capacity.  For a node built
    with a capacity of at most 2^64 - 2^32 bytes, in every state reached
    through requests that fit a frame, [used_capacity_] is the exact total
    of the chunk sizes (no wrap-around) and lies between 0 and
    [max_capacity_], which is still the constructor's argument. *)
Theorem used_capacity_within_limit max_capacity s :
  0 <= max_capacity <= 2 ^ 64 - 2 ^ 32 ->
  reachable_on_wire max_capacity s ->
  max_capacity_ s = max_capacity /\
  used_capacity_ s = stored_bytes (chunks_ s) /\
  0 <= used_capacity_ s <= max_capacity.
Proof.
  intros Hmax Hreach.
  destruct (reachable_on_wire_within _ _ Hmax Hreach) as [Hsame Hle].
  destruct (reachable_accounted _ _ (reachable_on_wire_reachable _ _ Hreach))
    as [Hused Hall].
  pose proof (stored_bytes_nonneg _ Hall) as Hpos.
  rewrite wrap64_small in Hused by lia.
  repeat split; [exact Hsame | exact Hused | lia | lia].
Qed.

(** X4 at the node of capacity 10 that holds eight bytes. *)
Lemma used_capacity_within_limit_witness :
  max_capacity_ eight_of_ten = 10 /\
  used_capacity_ eight_of_ten = stored_bytes (chunks_ eight_of_ten) /\
  0 <= used_capacity_ eight_of_ten <= 10.
Proof.
  apply (used_capacity_within_limit 10 eight_of_ten).
  - lia.
  - exact eight_of_ten_on_wire.
Defined.

(** X5: deleting a chunk that a write has just created undoes the write.
    In a reachable state that does not hold [chunk_id], after a
    [handle_write] that succeeds, [delete_chunk] of the same id returns
    [true] and the node is again the node before the write: same table,
    same counter. *)
Theorem write_new_then_delete_restores max_capacity s req resp now r s1 :
  reachable max_capacity s ->
  chunks_ s !! FileWriteRequest.chunk_id req = None ->
  handle_write s req resp now = Ret (true, r, s1) ->
  delete_chunk s1 (FileWriteRequest.chunk_id req) = (true, s).
Proof.
  intros Hreach Hk Hrun.
  destruct (reachable_accounted _ _ Hreach) as [Hused _].
  unfold handle_write in Hrun. rewrite Hk in Hrun.
  destruct (max_capacity_ s <? _); [discriminate |].
  injection Hrun as _ <-.
  rewrite (delete_chunk_present _ _ _ (lookup_insert_eq _ _ _)).
  f_equal. simpl.
  rewrite wrap64_idem_minus.
  replace (used_capacity_ s + vsize (FileWriteRequest.data req)
           - vsize (FileWriteRequest.data req)) with (used_capacity_ s) by lia.
  replace (wrap64 (used_capacity_ s)) with (used_capacity_ s)
    by (rewrite Hused; unfold wrap64; rewrite Z.mod_mod by lia; reflexivity).
  rewrite delete_insert_id by exact Hk.
  destruct s; reflexivity.
Qed.

(** X5 at the node of capacity 10: chunk 2 written, then deleted. *)
Lemma write_new_then_delete_restores_witness :
  exists r s1,
    handle_write eight_of_ten (write_request 2 0 [x58]) no_response 1
    = Ret (true, r, s1) /\
    delete_chunk s1 2 = (true, eight_of_ten).
Proof.
  eexists _, _.
  assert (handle_write eight_of_ten (write_request 2 0 [x58]) no_response 1
          = Ret (true, write_succeeded (write_request 2 0 [x58]) no_response,
                 set_chunks eight_of_ten 9
                   (<[2 := first_chunk 2 [x58] 1]> (chunks_ eight_of_ten))))
    as Hwrite by reflexivity.
  split; [exact Hwrite |].
  exact (write_new_then_delete_restores 10 eight_of_ten
           (write_request 2 0 [x58]) no_response 1 _ _
           eight_of_ten_reachable eq_refl Hwrite).
Defined.

Lemma nth_resize v n i :
  0 <= n ->
  nth i (resize v n) x00 = if Z.of_nat i <? n then nth i v x00 else x00.
Proof.
  intros Hn. unfold resize.
  destruct (lt_dec i (List.length (firstn (Z.to_nat n) v))) as [Hin | Hout].
  - rewrite app_nth1 by exact Hin. rewrite length_firstn in Hin.
    rewrite List.nth_firstn.
    replace (i <? Z.to_nat n)%nat with true by (symmetry; apply Nat.ltb_lt; lia).
    replace (Z.of_nat i <? n) with true by (symmetry; apply Z.ltb_lt; lia).
    reflexivity.
  - rewrite app_nth2 by lia. rewrite nth_repeat.
    rewrite length_firstn in Hout.
    destruct (Z.of_nat i <? n) eqn:Hi; [| reflexivity].
    apply Z.ltb_lt in Hi. symmetry. apply nth_overflow. lia.
Qed.

Lemma nth_memcpy_at v off src i :
  0 <= off -> off + vsize src <= vsize v ->
  nth i (memcpy_at v off src) x00
  = if (off <=? Z.of_nat i) && (Z.of_nat i <? off + vsize src)
    then nth (i - Z.to_nat off) src x00
    else nth i v x00.
Proof.
  intros Hoff Hfit. unfold memcpy_at. unfold vsize in *.
  assert (List.length (firstn (Z.to_nat off) v) = Z.to_nat off) as Hhead
    by (rewrite length_firstn; lia).
  destruct (lt_dec i (Z.to_nat off)) as [Hbefore | Hfrom].
  - rewrite app_nth1 by lia. rewrite List.nth_firstn.
    replace (i <? Z.to_nat off)%nat with true by (symmetry; apply Nat.ltb_lt; lia).
    replace (off <=? Z.of_nat i) with false by (symmetry; apply Z.leb_gt; lia).
    reflexivity.
  - rewrite app_nth2 by lia. rewrite Hhead.
    replace (off <=? Z.of_nat i) with true by (symmetry; apply Z.leb_le; lia).
    destruct (lt_dec (i - Z.to_nat off) (List.length src)) as [Hin | Hafter].
    + rewrite app_nth1 by exact Hin.
      replace (Z.of_nat i <? off + Z.of_nat (List.length src)) with true
        by (symmetry; apply Z.ltb_lt; lia).
      reflexivity.
    + rewrite app_nth2 by lia. rewrite nth_skipn.
      replace (Z.of_nat i <? off + Z.of_nat (List.length src)) with false
        by (symmetry; apply Z.ltb_ge; lia).
      simpl. f_equal. lia.
Qed.

(** X6: a write to a chunk the node holds splices the bytes in.  After a
    successful [handle_write] at [offset] the chunk is as long as the
    longer of the old chunk and [offset + len(bytes)], never shorter; byte
    [i] is byte [i - offset] of the request inside
    [offset, offset + len(bytes)) and the old byte elsewhere, 0 where the
    old chunk had none (a gap between the old end and [offset] is filled
    with zeros); [version] advances by one modulo 2^32, [creation_time]
    stays and [last_access] is the time of the call. *)
Theorem handle_write_splices max_capacity s req resp now chunk r s1 :
  reachable_on_wire max_capacity s ->
  chunks_ s !! FileWriteRequest.chunk_id req = Some chunk ->
  0 <= FileWriteRequest.offset req < 2 ^ 32 ->
  handle_write s req resp now = Ret (true, r, s1) ->
  exists c1,
    chunks_ s1 !! FileWriteRequest.chunk_id req = Some c1 /\
    StoredChunk.size c1
    = Z.max (FileWriteRequest.offset req + vsize (FileWriteRequest.data req))
            (StoredChunk.size chunk) /\
    vsize (StoredChunk.data c1) = StoredChunk.size c1 /\
    StoredChunk.version c1 = wrap32 (StoredChunk.version chunk + 1) /\
    StoredChunk.creation_time c1 = StoredChunk.creation_time chunk /\
    StoredChunk.last_access c1 = now /\
    forall i : nat,
      nth i (StoredChunk.data c1) x00
      = if (FileWriteRequest.offset req <=? Z.of_nat i)
           && (Z.of_nat i <? FileWriteRequest.offset req
                             + vsize (FileWriteRequest.data req))
        then nth (i - Z.to_nat (FileWriteRequest.offset req))
               (FileWriteRequest.data req) x00
        else nth i (StoredChunk.data chunk) x00.
Proof.
  intros Hreach Hk Hoff Hrun.
  pose proof (reachable_on_wire_narrow _ _ Hreach _ _ Hk) as Hfit. simpl in Hfit.
  destruct (reachable_accounted _ _ (reachable_on_wire_reachable _ _ Hreach))
    as [_ Hall].
  destruct (Hall _ _ Hk) as [Hsize _].
  pose proof (vsize_nonneg (StoredChunk.data chunk)) as Hsz.
  pose proof (vsize_nonneg (FileWriteRequest.data req)) as Hlen.
  pose proof (handle_write_success s req resp now r s1 Hoff Hrun) as Hstored.
  cbv zeta in Hstored. rewrite Hk in Hstored.
  destruct Hstored as [Hsmall Hstored].
  rewrite (wrap32_small (StoredChunk.size chunk)) in Hstored by lia.
  set (new_size := Z.max _ _) in Hstored.
  eexists. split; [rewrite Hstored; apply lookup_insert_eq |].
  cbn [StoredChunk.size StoredChunk.data StoredChunk.version
       StoredChunk.creation_time StoredChunk.last_access].
  repeat split.
  - rewrite length_memcpy_at; rewrite ?length_resize; unfold new_size; lia.
  - intros i. rewrite nth_memcpy_at by (rewrite ?length_resize; unfold new_size; lia).
    destruct (_ && _) eqn:Hrange; [reflexivity |].
    rewrite nth_resize by (unfold new_size; lia).
    destruct (Z.of_nat i <? new_size) eqn:Hi; [reflexivity |].
    apply Z.ltb_ge in Hi. symmetry. apply nth_overflow.
    unfold vsize in Hsize. unfold new_size in Hi. lia.
Qed.

(** X6 at the node of capacity 10 that holds "ABCDEFGH": "XY" written at
    offset 7 makes the chunk nine bytes long. *)
Lemma handle_write_splices_witness :
  exists r s1 c1,
    handle_write eight_of_ten (write_request 1 7 [x58; x59]) no_response 1
    = Ret (true, r, s1) /\
    chunks_ s1 !! 1 = Some c1 /\
    StoredChunk.size c1 = 9 /\
    StoredChunk.version c1 = 2.
Proof.
  eexists _, _.
  assert (handle_write eight_of_ten (write_request 1 7 [x58; x59]) no_response 1
          = Ret (true, write_succeeded (write_request 1 7 [x58; x59]) no_response,
                 set_chunks eight_of_ten 9
                   (<[1 := {| StoredChunk.chunk_id := 1;
                              StoredChunk.data :=
                                [x41; x42; x43; x44; x45; x46; x47; x58; x59];
                              StoredChunk.version := 2;
                              StoredChunk.size := 9;
                              StoredChunk.creation_time := 0;
                              StoredChunk.last_access := 1;
                              StoredChunk.checksum :=
                                calculate_crc32
                                  [x41; x42; x43; x44; x45; x46; x47; x58; x59] 9 |}]>
                      (chunks_ eight_of_ten)))) as Hwrite by reflexivity.
  assert (0 <= FileWriteRequest.offset (write_request 1 7 [x58; x59]) < 2 ^ 32)
    as Hoff by (simpl; lia).
  destruct (handle_write_splices 10 eight_of_ten (write_request 1 7 [x58; x59])
              no_response 1 _ _ _ eight_of_ten_on_wire eq_refl Hoff Hwrite)
    as (c1 & Hk & Hsize & _ & Hversion & _).
  exists c1.
  split; [exact Hwrite |]. split; [exact Hk |].
  split; [rewrite Hsize | rewrite Hversion]; reflexivity.
Defined.

End NodeMore.

(** *** The entry points kept for testing *)

Section EntryPoints.
Import ChunkServer Node More.
Context `{Platform}.

(** [read_chunk] on a chunk the node holds. *)
Lemma read_chunk_held s chunk_id d now c :
  chunks_ s !! chunk_id = Some c ->
  StoredChunk.size c = vsize (StoredChunk.data c) ->
  StoredChunk.size c < 2 ^ 32 ->
  read_chunk s chunk_id d now
  = if StoredChunk.size c =? 0
    then Ret (false, d, s)
    else Ret (true,
              firstn (Z.to_nat DFS_CHUNK_SIZE_BYTES) (StoredChunk.data c),
              set_chunks s (used_capacity_ s)
                (<[chunk_id := touch c now]> (chunks_ s))).
Proof.
  intros Hk Hsize Hfit. unfold read_chunk.
  set (req := {| FileReadRequest.chunk_id := chunk_id |}).
  pose proof (vsize_nonneg (StoredChunk.data c)) as Hpos.
  destruct (handle_read_cases s req fresh_FileReadResponse now) as (_ & Hout & Hin).
  { unfold req. cbn [FileReadRequest.offset]. lia. }
  { unfold req. cbn [FileReadRequest.length]. rewrite chunk_size_bytes. lia. }
  destruct (StoredChunk.size c =? 0) eqn:Hzero.
  - apply Z.eqb_eq in Hzero.
    rewrite (Hout c Hk) by (unfold req; cbn [FileReadRequest.offset]; lia).
    reflexivity.
  - apply Z.eqb_neq in Hzero.
    destruct (Hin c Hk) as [Hres _];
      [unfold req; cbn [FileReadRequest.offset]; lia | exact Hsize | exact Hfit |].
    rewrite Hres. unfold req, bind, read_succeeded, fresh_FileReadResponse.
    cbn [FileReadRequest.offset FileReadRequest.length FileReadResponse.data
         FileReadRequest.chunk_id app].
    f_equal. f_equal. f_equal.
    unfold slice. rewrite skipn_O.
    rewrite Z.add_0_l, Z.sub_0_r.
    destruct (Z.le_ge_cases DFS_CHUNK_SIZE_BYTES (StoredChunk.size c)) as [Hbig | Hsmall].
    + rewrite Z.min_l by exact Hbig. reflexivity.
    + rewrite Z.min_r by exact Hsmall.
      unfold vsize in Hsize.
      rewrite !firstn_all2 by lia. reflexivity.
Qed.

(** X7: [read_chunk], the entry point kept for testing, returns at most
    the first 64 MiB of a chunk and cannot read an empty one.  In a state
    reached through requests that fit a frame: for an id the node does not
    hold, and for a chunk of size 0, it returns [false] and leaves the
    caller's buffer and the node as they were; for any other chunk it
    returns [true] with the first [DFS_CHUNK_SIZE_BYTES] bytes of the
    chunk (all of it when it is no longer than that) and sets the chunk's
    [last_access]. *)
Theorem read_chunk_result max_capacity s chunk_id d now :
  reachable_on_wire max_capacity s ->
  read_chunk s chunk_id d now
  = match chunks_ s !! chunk_id with
    | None => Ret (false, d, s)
    | Some c =>
        if StoredChunk.size c =? 0
        then Ret (false, d, s)
        else Ret (true,
                  firstn (Z.to_nat DFS_CHUNK_SIZE_BYTES) (StoredChunk.data c),
                  set_chunks s (used_capacity_ s)
                    (<[chunk_id := touch c now]> (chunks_ s)))
    end.
Proof.
  intros Hreach.
  destruct (chunks_ s !! chunk_id) as [c|] eqn:Hk.
  - destruct (reachable_accounted _ _ (reachable_on_wire_reachable _ _ Hreach))
      as [_ Hall].
    destruct (Hall _ _ Hk) as [Hsize _].
    apply read_chunk_held; [exact Hk | exact Hsize |].
    exact (reachable_on_wire_narrow _ _ Hreach _ _ Hk).
  - unfold read_chunk, handle_read.
    cbn [FileReadRequest.chunk_id]. rewrite Hk. reflexivity.
Qed.

Lemma memcpy_at_front old src :
  memcpy_at (resize old (Z.max (vsize src) (vsize old))) 0 src
  = src ++ skipn (List.length src) old.
Proof.
  unfold memcpy_at, resize, vsize.
  change (Z.to_nat 0) with 0%nat. rewrite firstn_O, app_nil_l, Nat.add_0_l.
  f_equal.
  rewrite firstn_all2 by lia.
  rewrite skipn_app.
  rewrite (skipn_all2 (repeat x00 _)) by (rewrite repeat_length; lia).
  apply app_nil_r.
Qed.

(** X8: [write_chunk] followed by [read_chunk].  [write_chunk] writes at
    offset 0 and overwrites a prefix: in a state reached through requests
    that fit a frame, after [write_chunk] stored between 1 byte and 64 MiB
    under [chunk_id], [read_chunk] of that id succeeds and returns the
    written bytes followed by whatever the chunk held beyond them before
    (nothing for a new chunk), cut at [DFS_CHUNK_SIZE_BYTES]. *)
Theorem write_chunk_then_read_chunk max_capacity s chunk_id bytes now s1 d now2 :
  reachable_on_wire max_capacity s ->
  0 < vsize bytes <= DFS_CHUNK_SIZE_BYTES ->
  write_chunk s chunk_id bytes now = Ret (true, s1) ->
  exists s2,
    read_chunk s1 chunk_id d now2
    = Ret (true,
           firstn (Z.to_nat DFS_CHUNK_SIZE_BYTES)
             (bytes
              ++ skipn (List.length bytes)
                   match chunks_ s !! chunk_id with
                   | Some c => StoredChunk.data c
                   | None => []
                   end),
           s2).
Proof.
  intros Hreach Hlen Hrun. unfold write_chunk in Hrun.
  set (req := {| FileWriteRequest.chunk_id := chunk_id |}) in Hrun.
  destruct (handle_write s req fresh_FileWriteResponse now)
    as [[[ok r] s1']|] eqn:Hwrite; [| discriminate].
  simpl in Hrun. injection Hrun as -> ->.
  assert (0 <= FileWriteRequest.offset req < 2 ^ 32) as Hoff
    by (unfold req; cbn [FileWriteRequest.offset]; lia).
  assert (reachable_on_wire max_capacity s1) as Hreach1.
  { apply (on_wire_step _ s (Write req fresh_FileWriteResponse now));
      [exact Hreach | exact Hoff | | ].
    - unfold on_wire, req. cbn [FileWriteRequest.data]. lia.
    - unfold step. rewrite Hwrite. reflexivity. }
  destruct (reachable_accounted _ _ (reachable_on_wire_reachable _ _ Hreach))
    as [_ Hall].
  destruct (reachable_accounted _ _ (reachable_on_wire_reachable _ _ Hreach1))
    as [_ Hall1].
  pose proof (reachable_on_wire_narrow _ _ Hreach) as Hnarrow.
  pose proof (reachable_on_wire_narrow _ _ Hreach1) as Hnarrow1.
  pose proof (handle_write_success s req fresh_FileWriteResponse now r s1 Hoff Hwrite)
    as Hstored.
  cbv zeta in Hstored. unfold req in Hstored.
  cbn [FileWriteRequest.chunk_id FileWriteRequest.offset FileWriteRequest.data]
    in Hstored.
  destruct (chunks_ s !! chunk_id) as [c|] eqn:Hk.
  - destruct Hstored as [_ Hstored].
    destruct (Hall _ _ Hk) as [Hsize _].
    pose proof (Hnarrow _ _ Hk) as Hfit. simpl in Hfit.
    pose proof (vsize_nonneg (StoredChunk.data c)) as Hpos.
    rewrite (wrap32_small (StoredChunk.size c)) in Hstored by lia.
    rewrite Z.add_0_l, Hsize, memcpy_at_front in Hstored.
    set (c1 := {| StoredChunk.chunk_id := StoredChunk.chunk_id c |}) in Hstored.
    assert (chunks_ s1 !! chunk_id = Some c1) as Hk1
      by (rewrite Hstored; apply lookup_insert_eq).
    destruct (Hall1 _ _ Hk1) as [Hsize1 _].
    rewrite (read_chunk_held s1 chunk_id d now2 c1 Hk1 Hsize1 (Hnarrow1 _ _ Hk1)).
    replace (StoredChunk.size c1 =? 0) with false
      by (symmetry; apply Z.eqb_neq; simpl; lia).
    eexists. reflexivity.
  - set (c1 := first_chunk chunk_id bytes now) in Hstored.
    assert (chunks_ s1 !! chunk_id = Some c1) as Hk1
      by (rewrite Hstored; apply lookup_insert_eq).
    destruct (Hall1 _ _ Hk1) as [Hsize1 _].
    rewrite (read_chunk_held s1 chunk_id d now2 c1 Hk1 Hsize1 (Hnarrow1 _ _ Hk1)).
    replace (StoredChunk.size c1 =? 0) with false
      by (symmetry; apply Z.eqb_neq; simpl; lia).
    rewrite skipn_nil, app_nil_r.
    eexists. reflexivity.
Qed.

End EntryPoints.

(** X7 at the node of capacity 10: the eight bytes of chunk 1 are read
    whole. *)
Lemma read_chunk_result_witness :
  exists s1,
    @ChunkServer.read_chunk example_platform Node.eight_of_ten 1 [] 5
    = Ret (true, [x41; x42; x43; x44; x45; x46; x47; x48], s1).
Proof.
  pose proof (@read_chunk_result example_platform 10 Node.eight_of_ten 1 [] 5
                eight_of_ten_on_wire) as Hres.
  change (ChunkServer.chunks_ Node.eight_of_ten !! 1)
    with (Some (Node.first_chunk 1 [x41; x42; x43; x44; x45; x46; x47; x48] 0))
    in Hres.
  cbv beta iota in Hres.
  change (StoredChunk.size
            (Node.first_chunk 1 [x41; x42; x43; x44; x45; x46; x47; x48] 0) =? 0)
    with false in Hres.
  cbv beta iota in Hres.
  rewrite firstn_all2 in Hres
    by (rewrite chunk_size_bytes; cbn [Node.first_chunk StoredChunk.data length]; lia).
  eexists. exact Hres.
Defined.

(** X8 at the node of capacity 10 that holds "ABCDEFGH": "XY" stored by
    [write_chunk] under the same id, then the chunk read back. *)
Lemma write_chunk_then_read_chunk_witness :
  exists s1 s2,
    @ChunkServer.write_chunk example_platform Node.eight_of_ten 1 [x58; x59] 1
    = Ret (true, s1) /\
    @ChunkServer.read_chunk example_platform s1 1 [] 2
    = Ret (true, [x58; x59; x43; x44; x45; x46; x47; x48], s2).
Proof.
  assert (exists s1,
            @ChunkServer.write_chunk example_platform Node.eight_of_ten 1 [x58; x59] 1
            = Ret (true, s1)) as [s1 Hwrite] by (eexists; reflexivity).
  assert (0 < vsize [x58; x59] <= DFS_CHUNK_SIZE_BYTES) as Hlen
    by (vm_compute; split; [reflexivity | discriminate]).
  destruct (@write_chunk_then_read_chunk example_platform 10 Node.eight_of_ten 1
              [x58; x59] 1 s1 [] 2 eight_of_ten_on_wire Hlen Hwrite)
    as [s2 Hread].
  change (ChunkServer.chunks_ Node.eight_of_ten !! 1)
    with (Some (Node.first_chunk 1 [x41; x42; x43; x44; x45; x46; x47; x48] 0))
    in Hread.
  cbn [Node.first_chunk StoredChunk.data length skipn app] in Hread.
  rewrite firstn_all2 in Hread by (rewrite chunk_size_bytes; cbn [length]; lia).
  exists s1, s2. split; [exact Hwrite | exact Hread].
Defined.

(** *** Status and capacity report *)

Section Report.
Import ChunkServer Node More ChunkServerReport.

Lemma keys_in_order_elem (m : gmap Z StoredChunk.t) id :
  In id (keys_in_order m) <-> is_Some (m !! id).
Proof.
  unfold keys_in_order.
  rewrite <- list_elem_of_In, merge_sort_Permutation.
  rewrite list_elem_of_In, in_map_iff. split.
  - intros ([k c] & <- & Hin). apply list_elem_of_In, elem_of_map_to_list in Hin.
    exists c. exact Hin.
  - intros [c Hk]. exists (id, c). split; [reflexivity |].
    apply list_elem_of_In, elem_of_map_to_list. exact Hk.
Qed.

Lemma map_fst_fmap (l : list (Z * StoredChunk.t)) : List.map fst l = l.*1.
Proof. induction l as [|a l IH]; simpl; [| rewrite IH]; reflexivity. Qed.

Lemma strictly_ascending (l : list Z) :
  StronglySorted Z.le l -> List.NoDup l -> StronglySorted Z.lt l.
Proof.
  induction 1 as [| a l Hsorted IH Hall]; intros Hnodup; constructor.
  - apply IH. inversion Hnodup; assumption.
  - inversion Hnodup as [| ? ? Hnotin _]; subst.
    rewrite List.Forall_forall in *. intros x Hx.
    specialize (Hall x Hx).
    assert (x <> a) by (intros ->; contradiction). lia.
Qed.

Lemma keys_in_order_ascending (m : gmap Z StoredChunk.t) :
  StronglySorted Z.lt (keys_in_order m).
Proof.
  apply strictly_ascending.
  - apply StronglySorted_merge_sort; apply _.
  - apply NoDup_ListNoDup. unfold keys_in_order.
    rewrite merge_sort_Permutation, map_fst_fmap.
    apply NoDup_fst_map_to_list.
Qed.

(** X9: the status report is consistent with the chunk table.  For a node
    built with a capacity of at most 2^64 - 2^32 bytes, in every state
    reached through requests that fit a frame, [get_status] reports the
    constructor's capacity as total, the exact sum of the chunk sizes as
    used, and as [healthy_chunks] exactly the ids the node holds, each
    once, in ascending order; [get_available_capacity] is total minus
    used and is never negative. *)
Theorem get_status_consistent who max_capacity s now :
  0 <= max_capacity <= 2 ^ 64 - 2 ^ 32 ->
  reachable_on_wire max_capacity s ->
  let status := get_status who s now in
  ChunkServerStatus.total_capacity_bytes status = max_capacity /\
  ChunkServerStatus.used_capacity_bytes status = stored_bytes (chunks_ s) /\
  get_available_capacity s
  = ChunkServerStatus.total_capacity_bytes status
    - ChunkServerStatus.used_capacity_bytes status /\
  0 <= get_available_capacity s /\
  (forall id, In id (ChunkServerStatus.healthy_chunks status)
              <-> is_Some (chunks_ s !! id)) /\
  StronglySorted Z.lt (ChunkServerStatus.healthy_chunks status).
Proof.
  intros Hmax Hreach status.
  destruct (reachable_on_wire_within _ _ Hmax Hreach) as [Hsame Hle].
  destruct (reachable_accounted _ _ (reachable_on_wire_reachable _ _ Hreach))
    as [Hused Hall].
  pose proof (stored_bytes_nonneg _ Hall) as Hpos.
  rewrite wrap64_small in Hused by lia.
  unfold status, get_status, get_available_capacity.
  cbn [ChunkServerStatus.total_capacity_bytes ChunkServerStatus.used_capacity_bytes
       ChunkServerStatus.healthy_chunks].
  split; [exact Hsame |]. split; [exact Hused |].
  split; [| split; [| split]].
  - destruct (Z.ltb_spec (used_capacity_ s) (max_capacity_ s)); lia.
  - destruct (Z.ltb_spec (used_capacity_ s) (max_capacity_ s)); lia.
  - intros id. apply keys_in_order_elem.
  - apply keys_in_order_ascending.
Qed.

(** X10: a write that creates a chunk is accepted exactly when its bytes
    fit the available capacity.  Under the conditions of the status
    report, for an id the node does not hold and bytes that fit a frame,
    [handle_write] returns [true] if and only if the number of bytes is at
    most [get_available_capacity], and [false] otherwise; it is never
    undefined. *)
Theorem new_chunk_accepted_iff_fits max_capacity s req resp now :
  0 <= max_capacity <= 2 ^ 64 - 2 ^ 32 ->
  reachable_on_wire max_capacity s ->
  chunks_ s !! FileWriteRequest.chunk_id req = None ->
  vsize (FileWriteRequest.data req) <= DFS_CHUNK_SIZE_BYTES ->
  exists r s1,
    handle_write s req resp now
    = Ret (vsize (FileWriteRequest.data req) <=? get_available_capacity s, r, s1).
Proof.
  intros Hmax Hreach Hk Hlen.
  destruct (reachable_on_wire_within _ _ Hmax Hreach) as [Hsame Hle].
  destruct (reachable_accounted _ _ (reachable_on_wire_reachable _ _ Hreach))
    as [Hused Hall].
  pose proof (stored_bytes_nonneg _ Hall) as Hpos.
  rewrite wrap64_small in Hused by lia.
  rewrite chunk_size_bytes in Hlen.
  pose proof (vsize_nonneg (FileWriteRequest.data req)) as Hnonneg.
  rewrite handle_write_absent by (try exact Hk; lia).
  assert (get_available_capacity s = max_capacity_ s - used_capacity_ s) as ->.
  { unfold get_available_capacity.
    destruct (Z.ltb_spec (used_capacity_ s) (max_capacity_ s)); lia. }
  destruct (Z.ltb_spec (max_capacity_ s)
              (used_capacity_ s + vsize (FileWriteRequest.data req))).
  - replace (_ <=? _) with false by (symmetry; apply Z.leb_gt; lia).
    eexists _, _. reflexivity.
  - replace (_ <=? _) with true by (symmetry; apply Z.leb_le; lia).
    eexists _, _. reflexivity.
Qed.

End Report.

(** X9 at the node of capacity 10 that holds eight bytes as chunk 1. *)
Lemma get_status_consistent_witness :
  let status :=
    ChunkServerReport.get_status
      (ChunkServerReport.mkIdentity "cs1" "127.0.0.1" 9000) Node.eight_of_ten 7 in
  ChunkServerStatus.total_capacity_bytes status = 10 /\
  ChunkServerStatus.used_capacity_bytes status
  = Node.stored_bytes (ChunkServer.chunks_ Node.eight_of_ten) /\
  ChunkServerReport.get_available_capacity Node.eight_of_ten
  = ChunkServerStatus.total_capacity_bytes status
    - ChunkServerStatus.used_capacity_bytes status /\
  0 <= ChunkServerReport.get_available_capacity Node.eight_of_ten /\
  (forall id, In id (ChunkServerStatus.healthy_chunks status)
              <-> is_Some (ChunkServer.chunks_ Node.eight_of_ten !! id)) /\
  StronglySorted Z.lt (ChunkServerStatus.healthy_chunks status).
Proof.
  apply (get_status_consistent
           (ChunkServerReport.mkIdentity "cs1" "127.0.0.1" 9000) 10
           Node.eight_of_ten 7).
  - lia.
  - exact eight_of_ten_on_wire.
Defined.

(** X10 at the node of capacity 10 that holds eight bytes: two more bytes
    fit, three do not. *)
Lemma new_chunk_accepted_iff_fits_witness :
  (exists r s1,
     ChunkServer.handle_write Node.eight_of_ten
       (Node.write_request 2 0 [x58; x59]) Node.no_response 1
     = Ret (true, r, s1)) /\
  (exists r s1,
     ChunkServer.handle_write Node.eight_of_ten
       (Node.write_request 2 0 [x58; x59; x5a]) Node.no_response 1
     = Ret (false, r, s1)).
Proof.
  split.
  - apply (new_chunk_accepted_iff_fits 10 Node.eight_of_ten
             (Node.write_request 2 0 [x58; x59]) Node.no_response 1);
      [lia | exact eight_of_ten_on_wire | reflexivity
      | vm_compute; discriminate].
  - apply (new_chunk_accepted_iff_fits 10 Node.eight_of_ten
             (Node.write_request 2 0 [x58; x59; x5a]) Node.no_response 1);
      [lia | exact eight_of_ten_on_wire | reflexivity
      | vm_compute; discriminate].
Defined.

(** *** The dispatcher *)

Section Dispatcher.
Import ChunkServer Node.
Context `{Platform}.
Variable handle_replicate : ChunkServer.t -> ProtocolFrame.t -> exec (bool * ChunkServer.t).



End Dispatcher.


(** *** The wire codec: further properties *)

Section WireMore.

Lemma lxor_bounded a b n :
  0 <= n -> 0 <= a < 2 ^ n -> 0 <= b < 2 ^ n -> 0 <= Z.lxor a b < 2 ^ n.
Proof.
  intros Hn Ha Hb.
  assert (0 <= Z.lxor a b) as Hpos by (apply Z.lxor_nonneg; lia).
  split; [exact Hpos |].
  destruct (Z.eq_dec a 0) as [-> | Ha0]; [rewrite Z.lxor_0_l; lia |].
  destruct (Z.eq_dec b 0) as [-> | Hb0]; [rewrite Z.lxor_0_r; lia |].
  destruct (Z.eq_dec (Z.lxor a b) 0) as [-> | Hx0]; [lia |].
  apply Z.log2_lt_pow2; [lia |].
  pose proof (Z.log2_lxor a b ltac:(lia) ltac:(lia)) as Hlog.
  assert (Z.log2 a < n) by (apply Z.log2_lt_pow2; lia).
  assert (Z.log2 b < n) by (apply Z.log2_lt_pow2; lia).
  lia.
Qed.

Lemma crc32_table_bounded i : 0 <= nth i crc32_table 0 < 2 ^ 32.
Proof.
  assert (forallb (fun x => (0 <=? x) && (x <? 2 ^ 32)) crc32_table = true) as Hall
    by (vm_compute; reflexivity).
  rewrite forallb_forall in Hall.
  destruct (nth_in_or_default i crc32_table 0) as [Hin | ->]; [| lia].
  apply Hall in Hin. apply andb_true_iff in Hin as [Hlo Hhi].
  apply Z.leb_le in Hlo. apply Z.ltb_lt in Hhi. lia.
Qed.

Lemma crc32_update_bounded crc b :
  0 <= crc < 2 ^ 32 -> 0 <= crc32_update crc b < 2 ^ 32.
Proof.
  intros Hcrc. unfold crc32_update.
  apply lxor_bounded; [lia | | apply crc32_table_bounded].
  rewrite Z.shiftr_div_pow2 by lia.
  split; [apply Z.div_pos; lia |].
  apply Z.div_lt_upper_bound; lia.
Qed.

Lemma crc32_fold_bounded l crc :
  0 <= crc < 2 ^ 32 -> 0 <= fold_left crc32_update l crc < 2 ^ 32.
Proof.
  revert crc. induction l as [|b l IH]; intros crc Hcrc; simpl; [exact Hcrc |].
  apply IH, crc32_update_bounded, Hcrc.
Qed.

(** X12: a checksum always fits the [uint32_t] header member it is stored
    in: for every buffer and length, [calculate_crc32] returns a value in
    [0, 2^32), so the thirty-two-bit arithmetic of the source never
    overflows and the value survives the header encoding unchanged. *)
Theorem calculate_crc32_is_32_bit data length :
  0 <= calculate_crc32 data length < 2 ^ 32 /\
  le_value (le_bytes 4 (calculate_crc32 data length)) = calculate_crc32 data length.
Proof.
  assert (0 <= calculate_crc32 data length < 2 ^ 32) as Hrange.
  { unfold calculate_crc32.
    apply lxor_bounded; [lia | | lia].
    apply crc32_fold_bounded. lia. }
  split; [exact Hrange |].
  apply le_value_le_bytes_small. simpl. lia.
Qed.

Lemma byte_of_Z_u8 b v : byte_of_Z (u8 b + 256 * v) = b.
Proof.
  unfold byte_of_Z, u8.
  pose proof (Byte.to_N_bounded b) as Hb.
  replace ((Z.of_N (Byte.to_N b) + 256 * v) mod 256) with (Z.of_N (Byte.to_N b)).
  - rewrite N2Z.id, Byte.of_to_N. reflexivity.
  - rewrite (Z.mul_comm 256 v), Z.mod_add by lia.
    symmetry. apply Z.mod_small. lia.
Qed.

Lemma le_bytes_le_value l : le_bytes (List.length l) (le_value l) = l.
Proof.
  induction l as [|b l IH]; [reflexivity |].
  cbn [List.length le_bytes le_value]. rewrite byte_of_Z_u8. f_equal.
  rewrite Z.shiftr_div_pow2 by lia. change (2 ^ 8) with 256.
  replace ((u8 b + 256 * le_value l) / 256) with (le_value l); [exact IH |].
  assert (0 <= u8 b < 256) as Hb
    by (unfold u8; pose proof (Byte.to_N_bounded b); lia).
  rewrite (Z.mul_comm 256 (le_value l)), Z.div_add by lia.
  rewrite (Z.div_small (u8 b)) by lia. lia.
Qed.

(** The sixteen bytes copied into the header members are their object
    representation. *)
Lemma header_bytes_memcpy_header f h :
  List.length h = 16%nat -> header_bytes (memcpy_header f h) = h.
Proof.
  intros Hlen.
  do 16 (destruct h as [|? h]; [discriminate |]).
  destruct h; [| discriminate].
  unfold header_bytes, memcpy_header.
  cbn [magic ProtocolFrame.version message_type payload_size ProtocolFrame.checksum
       firstn skipn].
  rewrite (le_bytes_le_value [_; _; _; _]), (le_bytes_le_value [_; _]).
  rewrite (le_bytes_le_value [_; _]), (le_bytes_le_value [_; _; _; _]).
  rewrite (le_bytes_le_value [_; _; _; _]).
  reflexivity.
Qed.

(** X13: what [recv_frame] accepts is what was on the connection.
    Whenever a call whose copies stay inside the received bytes and the
    payload array returns [true], the frame it hands back has the
    protocol's magic and the checksum of its payload, and the bytes taken
    from the connection are exactly the sixteen header bytes of that
    frame followed by its payload: nothing is skipped, nothing beyond the
    payload is consumed, and nothing is sent.  [recv_frame] itself tests
    neither that [payload_size] fits the payload array nor that so many
    bytes arrived; a call in which a copy leaves them has no defined
    result and is not covered. *)
Theorem recv_frame_accepts_intact_frames sock frame g sock1 :
  recv_frame sock frame = Ret (true, g, sock1) ->
  magic g = DFS_PROTOCOL_MAGIC /\
  ProtocolFrame.checksum g
  = calculate_crc32 (payload_bytes g (payload_size g)) (payload_size g) /\
  inbox sock = header_bytes g ++ payload_bytes g (payload_size g) ++ inbox sock1 /\
  outbox sock1 = outbox sock /\
  socket_fd_ sock1 = socket_fd_ sock.
Proof.
  unfold recv_frame, recv_data.
  destruct (socket_fd_ sock <? 0) eqn:Hfd; [discriminate |].
  destruct ((0 <? 16) && (List.length (inbox sock) =? 0)%nat); [discriminate |].
  cbv beta iota. cbn [negb].
  set (hdr := firstn (Z.to_nat 16) (inbox sock)).
  destruct (vsize hdr =? 16) eqn:Hsixteen; [| discriminate].
  cbn [negb]. set (h := memcpy_header frame hdr).
  destruct (magic h =? DFS_PROTOCOL_MAGIC) eqn:Hmagic; [| discriminate].
  cbn [negb socket_fd_ inbox]. rewrite Hfd.
  set (n := payload_size h).
  set (rest := skipn (Z.to_nat 16) (inbox sock)).
  destruct ((0 <? n) && (List.length rest =? 0)%nat); [discriminate |].
  cbv beta iota. cbn [negb].
  set (body := firstn (Z.to_nat n) rest).
  destruct ((n <=? DFS_CHUNK_SIZE_BYTES) && (n <=? vsize body)) eqn:Hfit;
    [| discriminate].
  apply andb_true_iff in Hfit as [Hfit Havail].
  apply Z.leb_le in Hfit. apply Z.leb_le in Havail.
  change (payload_size (memcpy_payload h body n)) with n.
  change (ProtocolFrame.checksum (memcpy_payload h body n))
    with (ProtocolFrame.checksum h).
  destruct (_ =? ProtocolFrame.checksum h) eqn:Hcrc; [| discriminate].
  cbn [negb]. intros [= <- <-].
  apply Z.eqb_eq in Hsixteen, Hmagic, Hcrc.
  assert (0 <= n) as Hn by apply le_value_nonneg.
  assert (payload_bytes (memcpy_payload h body n) n = body) as Hbody.
  { rewrite payload_bytes_memcpy_payload by exact Havail.
    unfold body. rewrite firstn_firstn, Nat.min_id. reflexivity. }
  change (payload_size (memcpy_payload h body n)) with n.
  change (magic (memcpy_payload h body n)) with (magic h).
  change (ProtocolFrame.checksum (memcpy_payload h body n))
    with (ProtocolFrame.checksum h).
  change (header_bytes (memcpy_payload h body n)) with (header_bytes h).
  cbn [inbox outbox socket_fd_].
  rewrite Hbody in Hcrc |- *.
  split; [exact Hmagic |]. split; [symmetry; exact Hcrc |].
  split; [| split; reflexivity].
  unfold h. rewrite header_bytes_memcpy_header by (unfold vsize in Hsixteen; lia).
  unfold body, hdr, rest. rewrite !firstn_skipn. reflexivity.
Qed.

End WireMore.

(** X13 on a connection that holds the "Hello" frame followed by one more
    byte: the frame is accepted, and the bytes queued were its header, its
    payload and what is left. *)
Lemma recv_frame_accepts_intact_frames_witness :
  exists g sock1,
    recv_frame
      (receiving (header_bytes (frame_of DFS_PROTOCOL_VERSION OP_WRITE hello)
                  ++ hello ++ [x21]))
      zero_frame
    = Ret (true, g, sock1) /\
    inbox sock1 = [x21] /\
    inbox (receiving (header_bytes (frame_of DFS_PROTOCOL_VERSION OP_WRITE hello)
                      ++ hello ++ [x21]))
    = header_bytes g ++ payload_bytes g (payload_size g) ++ inbox sock1.
Proof.
  assert (exists g sock1,
            recv_frame
              (receiving (header_bytes (frame_of DFS_PROTOCOL_VERSION OP_WRITE hello)
                          ++ hello ++ [x21]))
              zero_frame
            = Ret (true, g, sock1) /\
            inbox sock1 = [x21]) as (g & sock1 & Hrun & Hleft)
    by (eexists _, _; split; vm_compute; reflexivity).
  destruct (recv_frame_accepts_intact_frames _ _ _ _ Hrun)
    as (_ & _ & Hwire & _ & _).
  exists g, sock1. split; [exact Hrun |]. split; [exact Hleft | exact Hwire].
Defined.

(** *** Sending and receiving: further properties *)

Section Delivery.
Import More.

Lemma payload_bytes_plus_four f :
  0 <= payload_size f ->
  payload_bytes f (payload_size f + 4)
  = payload_bytes f (payload_size f) ++ stray_bytes f.
Proof.
  intros Hn. unfold payload_bytes, stray_bytes.
  replace (Z.to_nat (payload_size f + 4)) with (Z.to_nat (payload_size f) + 4)%nat
    by lia.
  rewrite seq_app, List.map_app. reflexivity.
Qed.

(** What [send_frame] hands to [send] on a connected socket. *)
Lemma send_frame_wire sock f :
  0 <= socket_fd_ sock ->
  0 <= payload_size f -> payload_size f + 4 <= DFS_CHUNK_SIZE_BYTES ->
  send_frame sock f = Ret (true, sent sock (wire_bytes f)).
Proof.
  intros Hfd Hn Hfit. unfold send_frame.
  replace (4 * 4 + 2 * 2 + payload_size f <=? sizeof_ProtocolFrame) with true
    by (symmetry; apply Z.leb_le; unfold sizeof_ProtocolFrame; lia).
  unfold send_data, object_bytes, wire_bytes, sent.
  replace (socket_fd_ sock <? 0) with false by (symmetry; apply Z.ltb_ge; lia).
  replace (4 * 4 + 2 * 2 + payload_size f - 16) with (payload_size f + 4) by lia.
  rewrite payload_bytes_plus_four by exact Hn. reflexivity.
Qed.

(** A frame with the protocol's magic and the checksum of its payload,
    queued on a connected socket, is accepted. *)
Lemma recv_frame_wire sock f f0 tail :
  header_typed f ->
  magic f = DFS_PROTOCOL_MAGIC ->
  payload_size f <= DFS_CHUNK_SIZE_BYTES ->
  ProtocolFrame.checksum f
  = calculate_crc32 (payload_bytes f (payload_size f)) (payload_size f) ->
  0 <= socket_fd_ sock ->
  inbox sock = header_bytes f ++ payload_bytes f (payload_size f) ++ tail ->
  exists g,
    recv_frame sock f0 = Ret (true, g, consumed sock (16 + payload_size f)) /\
    magic g = magic f /\
    ProtocolFrame.version g = ProtocolFrame.version f /\
    message_type g = message_type f /\
    payload_size g = payload_size f /\
    ProtocolFrame.checksum g = ProtocolFrame.checksum f /\
    payload_bytes g (payload_size g) = payload_bytes f (payload_size f) /\
    inbox (consumed sock (16 + payload_size f)) = tail.
Proof.
  intros Hty Hmagic Hfit Hcrc Hfd Hin.
  pose proof Hty as (_ & _ & _ & Hsize & _).
  set (n := payload_size f) in *.
  pose proof (length_payload_bytes f n ltac:(lia)) as Hlen.
  pose proof (memcpy_header_header_bytes f0 f Hty) as Hhdr.
  pose proof (recv_frame_good_magic sock f0 (header_bytes f)
                (payload_bytes f n ++ tail)) as Hrecv.
  cbv zeta in Hrecv.
  rewrite Hhdr in Hrecv. cbn [magic payload_size ProtocolFrame.checksum] in Hrecv.
  fold n in Hrecv.
  assert (firstn (Z.to_nat n) (payload_bytes f n ++ tail) = payload_bytes f n) as Hbody
    by (apply firstn_app_length; unfold vsize in Hlen; lia).
  specialize (Hrecv Hfd Hin (length_header_bytes f) Hmagic Hfit).
  rewrite Hbody in Hrecv.
  rewrite <- Hcrc, Z.eqb_refl in Hrecv.
  eexists. split.
  - apply Hrecv. unfold vsize in *. rewrite length_app. lia.
  - cbn [magic ProtocolFrame.version message_type payload_size
         ProtocolFrame.checksum memcpy_payload].
    repeat split.
    + fold (memcpy_payload
              {| magic := magic f; ProtocolFrame.version := ProtocolFrame.version f;
                 message_type := message_type f; payload_size := n;
                 ProtocolFrame.checksum := ProtocolFrame.checksum f;
                 payload := payload f0 |} (payload_bytes f n) n).
      rewrite payload_bytes_memcpy_payload by lia.
      rewrite <- Hlen at 1. apply firstn_vsize.
    + unfold consumed. cbn [inbox]. rewrite Hin.
      rewrite app_assoc. apply skipn_app_length.
      rewrite length_app, length_header_bytes. unfold vsize in Hlen. lia.
Qed.

(** X14: a frame sent by [send_frame] is received by [recv_frame] with the
    header and the payload it was sent with.  For a frame with header
    members of their C++ types, the protocol's magic, the checksum of its
    payload and a payload that leaves four bytes of the array unused:
    [send_frame] on a connected socket returns [true] and appends
    [20 + payload_size] bytes to what was sent before; [recv_frame] on any
    connected socket on which those bytes arrive first returns [true] with
    the same five header members and the same payload bytes, and leaves on
    the connection the four bytes that followed the payload and whatever
    arrived after them. *)
Theorem send_frame_then_recv_frame a0 f :
  header_typed f ->
  magic f = DFS_PROTOCOL_MAGIC ->
  payload_size f + 4 <= DFS_CHUNK_SIZE_BYTES ->
  ProtocolFrame.checksum f
  = calculate_crc32 (payload_bytes f (payload_size f)) (payload_size f) ->
  0 <= socket_fd_ a0 ->
  exists a wire,
    send_frame a0 f = Ret (true, a) /\
    outbox a = outbox a0 ++ wire /\
    vsize wire = 20 + payload_size f /\
    forall b0 f0 later,
      0 <= socket_fd_ b0 -> inbox b0 = wire ++ later ->
      exists g b,
        recv_frame b0 f0 = Ret (true, g, b) /\
        magic g = magic f /\
        ProtocolFrame.version g = ProtocolFrame.version f /\
        message_type g = message_type f /\
        payload_size g = payload_size f /\
        ProtocolFrame.checksum g = ProtocolFrame.checksum f /\
        payload_bytes g (payload_size g) = payload_bytes f (payload_size f) /\
        inbox b = stray_bytes f ++ later.
Proof.
  intros Hty Hmagic Hfit Hcrc Hfd.
  pose proof Hty as (_ & _ & _ & Hsize & _).
  exists (sent a0 (wire_bytes f)), (wire_bytes f).
  split; [apply send_frame_wire; lia |].
  split; [reflexivity |].
  split.
  { unfold wire_bytes, stray_bytes, vsize.
    rewrite !length_app, length_header_bytes, length_map, length_seq.
    pose proof (length_payload_bytes f (payload_size f) ltac:(lia)) as Hlen.
    unfold vsize in Hlen. lia. }
  intros b0 f0 later Hfd0 Hin.
  destruct (recv_frame_wire b0 f f0 (stray_bytes f ++ later) Hty Hmagic ltac:(lia)
              Hcrc Hfd0) as (g & Hrecv & Hrest).
  { rewrite Hin. unfold wire_bytes. rewrite <- !app_assoc. reflexivity. }
  exists g, (consumed b0 (16 + payload_size f)).
  split; [exact Hrecv | exact Hrest].
Qed.

(** X15: an incomplete header is discarded.  When fewer than sixteen
    bytes are queued, [recv_frame] returns [false] without writing the
    caller's frame object and without sending anything; on a connected
    socket the bytes that were queued have been taken from the connection
    and are lost to later calls. *)
Theorem recv_frame_discards_incomplete_header sock frame :
  (List.length (inbox sock) < 16)%nat ->
  exists sock1,
    recv_frame sock frame = Ret (false, frame, sock1) /\
    outbox sock1 = outbox sock /\
    (0 <= socket_fd_ sock -> inbox sock1 = []).
Proof.
  intros Hshort. unfold recv_frame, recv_data.
  destruct (Z.ltb_spec (socket_fd_ sock) 0) as [Hclosed | Hopen].
  - eexists. split; [reflexivity |]. split; [reflexivity | lia].
  - destruct (List.length (inbox sock) =? 0)%nat eqn:Hempty.
    + apply Nat.eqb_eq in Hempty.
      eexists. split; [reflexivity |]. split; [reflexivity |].
      intros _. destruct (inbox sock); [reflexivity | discriminate].
    + change ((0 <? 16) && false) with false. cbv beta iota. cbn [negb].
      replace (vsize (firstn (Z.to_nat 16) (inbox sock)) =? 16) with false
        by (symmetry; apply Z.eqb_neq; unfold vsize; rewrite length_firstn; lia).
      eexists. split; [reflexivity |]. split; [reflexivity |].
      intros _. cbn [inbox]. apply skipn_all2. lia.
Qed.

End Delivery.

(** X14 for the "Hello" frame, sent on an idle connection and received on
    the other side together with one later byte. *)
Lemma send_frame_then_recv_frame_witness :
  exists a g b,
    send_frame (receiving []) (frame_of DFS_PROTOCOL_VERSION OP_WRITE hello)
    = Ret (true, a) /\
    recv_frame (receiving (outbox a ++ [x21])) zero_frame = Ret (true, g, b) /\
    message_type g = OP_WRITE /\
    payload_bytes g (payload_size g) = hello /\
    vsize (inbox b) = 5.
Proof.
  set (f := frame_of DFS_PROTOCOL_VERSION OP_WRITE hello).
  assert (header_typed f) as Hty
    by (vm_compute; repeat split; (reflexivity || discriminate)).
  assert (payload_size f + 4 <= DFS_CHUNK_SIZE_BYTES) as Hfit
    by (vm_compute; discriminate).
  assert (0 <= socket_fd_ (receiving [])) as Hfd by (vm_compute; discriminate).
  destruct (send_frame_then_recv_frame (receiving []) f Hty eq_refl Hfit eq_refl Hfd)
    as (a & wire & Hsend & Hout & _ & Hrecv).
  destruct (Hrecv (receiving (outbox a ++ [x21])) zero_frame [x21])
    as (g & b & Hrun & _ & _ & Htype & _ & _ & Hpayload & Hleft).
  - vm_compute. discriminate.
  - cbn [receiving inbox]. rewrite Hout. reflexivity.
  - exists a, g, b. split; [exact Hsend |]. split; [exact Hrun |].
    split; [exact Htype |]. split; [exact Hpayload |].
    rewrite Hleft. reflexivity.
Defined.

(** X15 on a connection that holds the first ten bytes of a header. *)
Lemma recv_frame_discards_incomplete_header_witness :
  exists sock1,
    recv_frame
      (receiving (firstn 10 (header_bytes (frame_of DFS_PROTOCOL_VERSION OP_WRITE hello))))
      zero_frame
    = Ret (false, zero_frame, sock1) /\
    outbox sock1 = [] /\
    inbox sock1 = [].
Proof.
  destruct (recv_frame_discards_incomplete_header
              (receiving (firstn 10 (header_bytes
                                       (frame_of DFS_PROTOCOL_VERSION OP_WRITE hello))))
              zero_frame) as (sock1 & Hrun & Hout & Hin).
  - vm_compute. lia.
  - exists sock1. split; [exact Hrun |]. split; [exact Hout |].
    apply Hin. vm_compute. discriminate.
Defined.

(** *** Replication *)

Section Replication.
Import ChunkServer Node More ChunkServerReport.
Context `{Platform}.

Lemma calculate_crc32_range data length : 0 <= calculate_crc32 data length < 2 ^ 32.
Proof.
  unfold calculate_crc32.
  apply lxor_bounded; [lia | | lia].
  apply crc32_fold_bounded. lia.
Qed.

(** The frame a sender builds on the stack for [bytes]. *)
Lemma request_frame_built e ty bytes :
  0 <= ty < 2 ^ 16 -> vsize bytes <= DFS_CHUNK_SIZE_BYTES ->
  exists f,
    DistributedFileSystem.request_frame e ty (vsize bytes) bytes = Ret f /\
    header_typed f /\
    magic f = DFS_PROTOCOL_MAGIC /\
    message_type f = ty /\
    payload_size f = vsize bytes /\
    ProtocolFrame.checksum f
    = calculate_crc32 (payload_bytes f (payload_size f)) (payload_size f) /\
    payload_bytes f (payload_size f) = bytes.
Proof.
  intros Hty Hfit. pose proof (vsize_nonneg bytes) as Hpos.
  pose proof Hfit as Hfit'. rewrite chunk_size_bytes in Hfit'.
  unfold DistributedFileSystem.request_frame.
  replace (vsize bytes <=? DFS_CHUNK_SIZE_BYTES) with true
    by (symmetry; apply Z.leb_le; exact Hfit).
  rewrite wrap32_small by lia.
  unfold seal. cbn [payload_size memcpy_payload set_payload_size].
  replace (vsize bytes <=? DFS_CHUNK_SIZE_BYTES) with true
    by (symmetry; apply Z.leb_le; exact Hfit).
  eexists. split; [reflexivity |].
  unfold header_typed.
  cbn [magic ProtocolFrame.version message_type payload_size ProtocolFrame.checksum
       set_checksum set_envelope memcpy_payload set_payload_size].
  assert (payload_bytes
            (set_checksum
               {| magic := DFS_PROTOCOL_MAGIC;
                  ProtocolFrame.version := DFS_PROTOCOL_VERSION;
                  message_type := ty; payload_size := vsize bytes;
                  ProtocolFrame.checksum :=
                    ProtocolFrame.checksum (indeterminate_frame e);
                  payload :=
                    fun i => if (i <? Z.to_nat (vsize bytes))%nat
                             then nth i bytes x00
                             else payload (indeterminate_frame e) i |}
               (calculate_crc32
                  (payload_bytes
                     {| magic := DFS_PROTOCOL_MAGIC;
                        ProtocolFrame.version := DFS_PROTOCOL_VERSION;
                        message_type := ty; payload_size := vsize bytes;
                        ProtocolFrame.checksum :=
                          ProtocolFrame.checksum (indeterminate_frame e);
                        payload :=
                          fun i => if (i <? Z.to_nat (vsize bytes))%nat
                                   then nth i bytes x00
                                   else payload (indeterminate_frame e) i |}
                     (vsize bytes)) (vsize bytes))) (vsize bytes) = bytes) as Hbytes.
  { pose proof (payload_bytes_memcpy_payload
                  (set_payload_size
                     (set_envelope (indeterminate_frame e) ty) (vsize bytes))
                  bytes (vsize bytes) ltac:(lia)) as Hcopy.
    rewrite firstn_vsize in Hcopy. exact Hcopy. }
  split; [| split; [reflexivity | split; [reflexivity | split; [reflexivity |]]]].
  - split; [unfold DFS_PROTOCOL_MAGIC; lia |].
    split; [unfold DFS_PROTOCOL_VERSION; lia |].
    split; [exact Hty |]. split; [lia | apply calculate_crc32_range].
  - split; [| exact Hbytes]. reflexivity.
Qed.

(** X16: [replicate_chunk] delivers the chunk.  In a state reached through
    requests that fit a frame, for a chunk of between 1 and
    [DFS_CHUNK_SIZE_BYTES - 12] bytes and a target that accepts the
    connection, [replicate_chunk] returns [true]; the only change in the
    node is the chunk's [last_access]; and what it sent on the new
    connection is one frame that [recv_frame] at the other end accepts,
    of type [OP_REPLICATE], whose payload is the eight bytes of the chunk
    id followed by the bytes of the chunk. *)
Theorem replicate_chunk_delivers max_capacity e s chunk_id c target_ip target_port sock :
  reachable_on_wire max_capacity s ->
  chunks_ s !! chunk_id = Some c ->
  0 < StoredChunk.size c <= DFS_CHUNK_SIZE_BYTES - 12 ->
  connect_to_server e target_ip target_port = (true, sock) ->
  0 <= socket_fd_ sock ->
  exists sock1 wire,
    replicate_chunk e s chunk_id target_ip target_port
    = Ret (true, sock1, touched s chunk_id c (now e)) /\
    outbox sock1 = outbox sock ++ wire /\
    forall b0 f0 later,
      0 <= socket_fd_ b0 -> inbox b0 = wire ++ later ->
      exists g b,
        recv_frame b0 f0 = Ret (true, g, b) /\
        message_type g = OP_REPLICATE /\
        payload_bytes g (payload_size g)
        = le_bytes 8 chunk_id ++ StoredChunk.data c.
Proof.
  intros Hreach Hk Hsize Hconnect Hfd.
  destruct (reachable_accounted _ _ (reachable_on_wire_reachable _ _ Hreach))
    as [_ Hall].
  destruct (Hall _ _ Hk) as [Hlen _].
  pose proof (reachable_on_wire_narrow _ _ Hreach _ _ Hk) as Hnarrow.
  simpl in Hnarrow.
  pose proof chunk_size_bytes as Hchunk.
  set (bytes := le_bytes 8 chunk_id ++ StoredChunk.data c).
  assert (vsize bytes = 8 + vsize (StoredChunk.data c)) as Hbytes
    by (unfold bytes, vsize; rewrite length_app, length_le_bytes; lia).
  destruct (request_frame_built e OP_REPLICATE bytes) as
    (f & Hframe & Hty & Hmagic & Htype & Hpsize & Hcrc & Hpayload);
    [vm_compute; split; [discriminate | reflexivity] | lia |].
  unfold replicate_chunk.
  rewrite (read_chunk_held s chunk_id [] (now e) c Hk Hlen Hnarrow).
  replace (StoredChunk.size c =? 0) with false by (symmetry; apply Z.eqb_neq; lia).
  cbn [bind negb]. rewrite Hconnect. cbn [negb].
  rewrite firstn_all2 by (unfold vsize in Hlen; lia).
  fold bytes. rewrite <- Hbytes, Hframe. cbn [bind].
  rewrite (send_frame_wire sock f Hfd) by lia.
  cbn [bind].
  exists (sent sock (wire_bytes f)), (wire_bytes f).
  split; [reflexivity |]. split; [reflexivity |].
  intros b0 f0 later Hfd0 Hin.
  destruct (recv_frame_wire b0 f f0 (stray_bytes f ++ later) Hty Hmagic ltac:(lia)
              Hcrc Hfd0) as (g & Hrecv & _ & _ & Hgtype & _ & _ & Hgpayload & _).
  { rewrite Hin. unfold wire_bytes. rewrite <- !app_assoc. reflexivity. }
  exists g, (consumed b0 (16 + payload_size f)).
  split; [exact Hrecv |]. split; [congruence |].
  rewrite Hgpayload. exact Hpayload.
Qed.

(** X17: [replicate_chunk] cannot send an empty chunk or a chunk longer
    than [DFS_CHUNK_SIZE_BYTES - 12] bytes.  In a state reached through
    requests that fit a frame: for an id the node does not hold and for a
    chunk of size 0 it returns [false] before it connects, and the node is
    unchanged; for a chunk of more than [DFS_CHUNK_SIZE_BYTES - 12] bytes
    and a target that accepts the connection its behaviour is undefined
    (the chunk id and the bytes do not fit the payload array, or
    [send_frame] reads past the frame object). *)
Theorem replicate_chunk_limits max_capacity e s chunk_id target_ip target_port :
  reachable_on_wire max_capacity s ->
  match chunks_ s !! chunk_id with
  | None =>
      replicate_chunk e s chunk_id target_ip target_port
      = Ret (false, DistributedFileSystem.new_socket, s)
  | Some c =>
      (StoredChunk.size c = 0 ->
       replicate_chunk e s chunk_id target_ip target_port
       = Ret (false, DistributedFileSystem.new_socket, s)) /\
      (DFS_CHUNK_SIZE_BYTES - 12 < StoredChunk.size c ->
       fst (connect_to_server e target_ip target_port) = true ->
       replicate_chunk e s chunk_id target_ip target_port = Undefined)
  end.
Proof.
  intros Hreach.
  unfold replicate_chunk.
  destruct (chunks_ s !! chunk_id) as [c|] eqn:Hk.
  - destruct (reachable_accounted _ _ (reachable_on_wire_reachable _ _ Hreach))
      as [_ Hall].
    destruct (Hall _ _ Hk) as [Hlen _].
    pose proof (read_chunk_held s chunk_id [] (now e) c Hk Hlen
                  (reachable_on_wire_narrow _ _ Hreach _ _ Hk)) as Hread.
    pose proof chunk_size_bytes as Hchunk.
    split.
    + intros Hzero. rewrite Hread, Hzero. reflexivity.
    + intros Hbig Hconnect. rewrite Hread.
      replace (StoredChunk.size c =? 0) with false
        by (symmetry; apply Z.eqb_neq; lia).
      cbn [bind negb].
      destruct (connect_to_server e target_ip target_port) as [connected sock].
      simpl in Hconnect. subst connected. cbn [negb].
      set (data := firstn (Z.to_nat DFS_CHUNK_SIZE_BYTES) (StoredChunk.data c)).
      assert (vsize data = Z.min DFS_CHUNK_SIZE_BYTES (StoredChunk.size c)) as Hdata
        by (unfold data, vsize in *; rewrite length_firstn; lia).
      unfold DistributedFileSystem.request_frame.
      assert (vsize (le_bytes 8 chunk_id ++ data) = 8 + vsize data) as Hbytes
        by (unfold vsize; rewrite length_app, length_le_bytes; lia).
      rewrite Hbytes.
      destruct (Z.leb_spec (8 + vsize data) DFS_CHUNK_SIZE_BYTES) as [Hfits | Hover];
        [| reflexivity].
      unfold seal. cbn [payload_size memcpy_payload set_payload_size].
      rewrite wrap32_small by lia.
      replace (8 + vsize data <=? DFS_CHUNK_SIZE_BYTES) with true
        by (symmetry; apply Z.leb_le; exact Hfits).
      cbn [bind]. rewrite send_frame_past_object; [reflexivity |].
      cbn [payload_size set_checksum memcpy_payload set_payload_size]. lia.
  - unfold read_chunk, handle_read. cbn [FileReadRequest.chunk_id].
    rewrite Hk. reflexivity.
Qed.

End Replication.

Lemma whole_chunk_size : vsize More.whole_chunk = DFS_CHUNK_SIZE_BYTES.
Proof.
  unfold More.whole_chunk, vsize. rewrite repeat_length.
  apply Z2Nat.id. rewrite chunk_size_bytes. lia.
Qed.

Lemma whole_chunk_node_on_wire :
  Node.reachable_on_wire (2 * DFS_CHUNK_SIZE_BYTES) More.whole_chunk_node.
Proof.
  apply (Node.on_wire_step _ (ChunkServer.init (2 * DFS_CHUNK_SIZE_BYTES))
           (Node.Write (Node.write_request 1 0 More.whole_chunk) Node.no_response 0)).
  - apply Node.on_wire_init.
  - unfold Node.well_typed, Node.write_request. cbn [FileWriteRequest.offset]. lia.
  - unfold Node.on_wire, Node.write_request. cbn [FileWriteRequest.data].
    rewrite whole_chunk_size. lia.
  - unfold Node.step.
    rewrite handle_write_absent.
    + unfold Node.write_request.
      cbn [FileWriteRequest.data FileWriteRequest.chunk_id ChunkServer.init
           ChunkServer.used_capacity_ ChunkServer.max_capacity_].
      rewrite whole_chunk_size.
      replace (2 * DFS_CHUNK_SIZE_BYTES <? 0 + DFS_CHUNK_SIZE_BYTES) with false
        by (symmetry; apply Z.ltb_ge; rewrite chunk_size_bytes; lia).
      cbn [bind]. rewrite Z.add_0_l. reflexivity.
    + apply lookup_empty.
    + cbn [ChunkServer.init ChunkServer.used_capacity_]. lia.
    + unfold Node.write_request.
      cbn [FileWriteRequest.data ChunkServer.init ChunkServer.used_capacity_].
      rewrite whole_chunk_size, chunk_size_bytes. lia.
Defined.

(** X16 at the node of capacity 10: its eight-byte chunk sent to a target
    that accepts the connection, and received there. *)
Lemma replicate_chunk_delivers_witness :
  exists sock1 s1 g b,
    @ChunkServerReport.replicate_chunk example_platform Session.online
      Node.eight_of_ten 1 "10.0.0.2" 7000
    = Ret (true, sock1, s1) /\
    recv_frame (receiving (outbox sock1)) zero_frame = Ret (true, g, b) /\
    message_type g = OP_REPLICATE /\
    payload_bytes g (payload_size g)
    = le_bytes 8 1 ++ [x41; x42; x43; x44; x45; x46; x47; x48].
Proof.
  assert (0 < StoredChunk.size
                (Node.first_chunk 1 [x41; x42; x43; x44; x45; x46; x47; x48] 0)
          <= DFS_CHUNK_SIZE_BYTES - 12) as Hsize
    by (vm_compute; split; [reflexivity | discriminate]).
  assert (0 <= socket_fd_ (receiving [])) as Hfd by (vm_compute; discriminate).
  destruct (@replicate_chunk_delivers example_platform 10 Session.online
              Node.eight_of_ten 1 _ "10.0.0.2" 7000 (receiving [])
              eight_of_ten_on_wire eq_refl Hsize eq_refl Hfd)
    as (sock1 & wire & Hrun & Hout & Hrecv).
  destruct (Hrecv (receiving (outbox sock1)) zero_frame []) as (g & b & Hg & Hty & Hpay).
  - vm_compute. discriminate.
  - cbn [receiving inbox]. rewrite Hout, app_nil_r. reflexivity.
  - eexists sock1, _, g, b.
    split; [exact Hrun |]. split; [exact Hg |]. split; [exact Hty | exact Hpay].
Defined.

(** X17 at the node that holds a chunk of [DFS_CHUNK_SIZE_BYTES] bytes. *)
Lemma replicate_chunk_limits_witness :
  @ChunkServerReport.replicate_chunk example_platform Session.online
    More.whole_chunk_node 1 "10.0.0.2" 7000
  = Undefined.
Proof.
  pose proof (@replicate_chunk_limits example_platform (2 * DFS_CHUNK_SIZE_BYTES)
                Session.online More.whole_chunk_node 1 "10.0.0.2" 7000
                whole_chunk_node_on_wire) as Hlimits.
  unfold More.whole_chunk_node at 1 in Hlimits.
  cbn [ChunkServer.chunks_ ChunkServer.set_chunks] in Hlimits.
  rewrite lookup_insert_eq in Hlimits.
  destruct Hlimits as [_ Hbig]. apply Hbig.
  - cbn [Node.first_chunk StoredChunk.size].
    rewrite whole_chunk_size, chunk_size_bytes. lia.
  - reflexivity.
Defined.

(** *** The connection pool *)

Section Pool.
Import ConnectionPool More.

Lemma length_removelast_le {A} (l : list A) :
  (List.length (removelast l) <= List.length l)%nat.
Proof.
  induction l as [|a [|b l] IH]; simpl in *; lia.
Qed.

Lemma removelast_snoc {A} (l : list A) x : removelast (l ++ [x]) = l.
Proof. apply removelast_last. Qed.

(** X18: a released connection is the next one acquired.  While the list
    of a server is below the pool's limit, [release] under the server's
    key followed by [acquire] for that server returns the released
    pointer itself, without a connection attempt, and leaves the list of
    that server as it was before the release; a null pointer that was
    released is handed back like any other. *)
Theorem release_then_acquire connect pool server_ip port sock now :
  vsize (default [] (pools_ pool !! make_key server_ip port)) < max_pool_size_ pool ->
  acquire connect (release pool (make_key server_ip port) sock now) server_ip port
  = (sock,
     {| pools_ :=
          <[make_key server_ip port :=
              default [] (pools_ pool !! make_key server_ip port)]> (pools_ pool);
        max_pool_size_ := max_pool_size_ pool |}).
Proof.
  intros Hroom. unfold release, acquire.
  apply Z.ltb_lt in Hroom. rewrite Hroom.
  cbn [pools_ max_pool_size_].
  rewrite lookup_insert_eq, last_snoc, removelast_snoc, insert_insert_eq.
  reflexivity.
Qed.

(** One call keeps every list within the limit. *)
Lemma pool_step_bounded pool o :
  0 <= max_pool_size_ pool ->
  (forall key conns, pools_ pool !! key = Some conns ->
     vsize conns <= max_pool_size_ pool) ->
  max_pool_size_ (pool_step pool o) = max_pool_size_ pool /\
  (forall key conns, pools_ (pool_step pool o) !! key = Some conns ->
     vsize conns <= max_pool_size_ pool).
Proof.
  intros Hpos Hall.
  destruct o as [connect server_ip port | key sock now |]; cbn [pool_step].
  - unfold acquire.
    destruct (pools_ pool !! make_key server_ip port) as [conns|] eqn:Hk.
    + destruct (last conns) as [conn|].
      * cbn [snd pools_ max_pool_size_]. split; [reflexivity |].
        intros key conns1 Hlookup.
        destruct (decide (key = make_key server_ip port)) as [-> | Hne].
        -- rewrite lookup_insert_eq in Hlookup. injection Hlookup as <-.
           specialize (Hall _ _ Hk).
           pose proof (length_removelast_le conns). unfold vsize in *. lia.
        -- rewrite lookup_insert_ne in Hlookup by congruence. eauto.
      * destruct (connect server_ip port) as [[|] sock]; cbn [snd]; auto.
    + destruct (connect server_ip port) as [[|] sock]; cbn [snd]; auto.
  - unfold release.
    set (conns := default [] (pools_ pool !! key)).
    assert (vsize conns <= max_pool_size_ pool) as Hconns.
    { unfold conns. destruct (pools_ pool !! key) as [l|] eqn:Hk; cbn [default].
      - eauto.
      - unfold vsize. simpl. lia. }
    destruct (Z.ltb_spec (vsize conns) (max_pool_size_ pool)) as [Hroom | Hfull];
      cbn [pools_ max_pool_size_]; (split; [reflexivity |]);
      intros key1 conns1 Hlookup;
      (destruct (decide (key1 = key)) as [-> | Hne];
       [rewrite lookup_insert_eq in Hlookup; injection Hlookup as <-
       | rewrite lookup_insert_ne in Hlookup by congruence; eauto]).
    + unfold vsize in *. rewrite length_app. simpl. lia.
    + exact Hconns.
  - cbn [clear pools_ max_pool_size_]. split; [reflexivity |].
    intros key conns Hlookup. rewrite lookup_empty in Hlookup. discriminate.
Qed.

Lemma pool_run_bounded ops : forall pool,
  0 <= max_pool_size_ pool ->
  (forall key conns, pools_ pool !! key = Some conns ->
     vsize conns <= max_pool_size_ pool) ->
  max_pool_size_ (pool_run pool ops) = max_pool_size_ pool /\
  (forall key conns, pools_ (pool_run pool ops) !! key = Some conns ->
     vsize conns <= max_pool_size_ pool).
Proof.
  induction ops as [|o ops IH]; intros pool Hpos Hall; [split; [reflexivity | exact Hall] |].
  cbn [pool_run fold_left].
  destruct (pool_step_bounded pool o Hpos Hall) as [Hsame Hstep].
  destruct (IH (pool_step pool o)) as [Hsame1 Hrun].
  - lia.
  - rewrite Hsame. exact Hstep.
  - unfold pool_run in *. rewrite Hsame1, Hsame. split; [reflexivity |].
    intros key conns Hlookup. rewrite <- Hsame. eauto.
Qed.

(** X19: the pool never keeps more connections to a server than its
    limit.  After any sequence of [acquire], [release] and [clear] calls
    on a pool constructed with [pool_size], the limit is still
    [pool_size] and every list of pooled connections holds at most
    [pool_size] entries. *)
Theorem pool_never_exceeds_limit pool_size ops key conns :
  0 <= pool_size ->
  pools_ (pool_run (init pool_size) ops) !! key = Some conns ->
  max_pool_size_ (pool_run (init pool_size) ops) = pool_size /\
  vsize conns <= pool_size.
Proof.
  intros Hpos Hlookup.
  destruct (pool_run_bounded ops (init pool_size)) as [Hsame Hall].
  - exact Hpos.
  - intros k l Hk. cbn [init pools_] in Hk. rewrite lookup_empty in Hk. discriminate.
  - split; [exact Hsame |]. exact (Hall _ _ Hlookup).
Qed.

Lemma pretty_N_go_colon_free x : forall s,
  colon_free s = true -> colon_free (pretty_N_go x s) = true.
Proof.
  induction (N.lt_wf_0 x) as [x _ IH]. intros s Hs.
  destruct (N.eq_dec x 0%N) as [-> | Hx].
  - rewrite pretty_N_go_0. exact Hs.
  - rewrite pretty_N_go_step by lia. apply IH.
    + apply N.div_lt; lia.
    + assert (x mod 10 < 10)%N as Hdigit by (apply N.mod_lt; discriminate).
      remember (x mod 10)%N as d eqn:Hd. clear Hd.
      assert (d = 0 \/ d = 1 \/ d = 2 \/ d = 3 \/ d = 4 \/ d = 5 \/ d = 6 \/
              d = 7 \/ d = 8 \/ d = 9)%N as Hcases by lia.
      cbn [colon_free]. rewrite Hs.
      repeat (destruct Hcases as [-> | Hcases]; [reflexivity |]).
      rewrite Hcases. reflexivity.
Qed.

Lemma append_cons c a b : String c a +:+ b = String c (a +:+ b).
Proof. reflexivity. Qed.

Lemma append_nil b : EmptyString +:+ b = b.
Proof. reflexivity. Qed.

Lemma pretty_Z_colon_free (z : Z) : colon_free (pretty z) = true.
Proof.
  unfold pretty, pretty_Z.
  destruct z as [|p|p]; [reflexivity | |].
  - unfold pretty, pretty_positive, pretty, pretty_N.
    destruct (decide (N.pos p = 0%N)); [reflexivity |].
    apply pretty_N_go_colon_free. reflexivity.
  - rewrite append_cons, append_nil. cbn [colon_free].
    unfold pretty, pretty_positive, pretty, pretty_N.
    destruct (decide (N.pos p = 0%N)); [reflexivity |].
    rewrite pretty_N_go_colon_free by reflexivity. reflexivity.
Qed.

Lemma colon_free_no_colon a b : colon_free (a +:+ String colon b) = false.
Proof.
  induction a as [|c a IH]; [reflexivity |].
  rewrite append_cons. cbn [colon_free]. rewrite IH. apply andb_false_r.
Qed.

Lemma split_at_last_colon a1 : forall a2 d1 d2,
  colon_free d1 = true -> colon_free d2 = true ->
  a1 +:+ String colon d1 = a2 +:+ String colon d2 -> a1 = a2 /\ d1 = d2.
Proof.
  induction a1 as [|c a1 IH]; intros [|c2 a2] d1 d2 H1 H2 Heq;
    rewrite ?append_cons, ?append_nil in Heq.
  - injection Heq as ->. split; reflexivity.
  - injection Heq as _ ->. rewrite colon_free_no_colon in H1. discriminate.
  - injection Heq as _ <-. rewrite colon_free_no_colon in H2. discriminate.
  - injection Heq as -> Heq. destruct (IH _ _ _ H1 H2 Heq) as [-> ->].
    split; reflexivity.
Qed.

(** X20: two servers never share a list of the pool: [make_key] gives
    equal keys only for equal addresses and equal ports, whatever
    characters the address holds. *)
Theorem make_key_injective ip1 port1 ip2 port2 :
  make_key ip1 port1 = make_key ip2 port2 -> ip1 = ip2 /\ port1 = port2.
Proof.
  unfold make_key. intros Heq.
  change (ip1 +:+ String colon (pretty port1) = ip2 +:+ String colon (pretty port2))
    in Heq.
  destruct (split_at_last_colon _ _ _ _ (pretty_Z_colon_free port1)
              (pretty_Z_colon_free port2) Heq) as [-> Hport].
  split; [reflexivity |]. apply (inj pretty). exact Hport.
Qed.

End Pool.

(** X18 on a new pool of size 20: a released connection comes back. *)
Lemma release_then_acquire_witness :
  ConnectionPool.acquire More.refuse
    (ConnectionPool.release (ConnectionPool.init 20)
       (ConnectionPool.make_key "10.0.0.1" 7000) (Some (receiving [])) 5)
    "10.0.0.1" 7000
  = (Some (receiving []),
     {| ConnectionPool.pools_ :=
          <[ConnectionPool.make_key "10.0.0.1" 7000 :=
              default []
                (ConnectionPool.pools_ (ConnectionPool.init 20)
                   !! ConnectionPool.make_key "10.0.0.1" 7000)]>
            (ConnectionPool.pools_ (ConnectionPool.init 20));
        ConnectionPool.max_pool_size_ := 20 |}).
Proof.
  apply (release_then_acquire More.refuse (ConnectionPool.init 20) "10.0.0.1" 7000
           (Some (receiving [])) 5).
  vm_compute. reflexivity.
Defined.

(** X19 on a pool of size 1 after two releases under one key: one
    connection is kept. *)
Lemma pool_never_exceeds_limit_witness :
  ConnectionPool.max_pool_size_
    (More.pool_run (ConnectionPool.init 1)
       [More.Release "k" (Some (receiving [])) 1; More.Release "k" None 2]) = 1 /\
  vsize [ConnectionPool.mkPooled (Some (receiving [])) 1] <= 1.
Proof.
  apply (pool_never_exceeds_limit 1
           [More.Release "k" (Some (receiving [])) 1; More.Release "k" None 2] "k").
  - lia.
  - vm_compute. reflexivity.
Defined.

(** X20 at one address and port. *)
Lemma make_key_injective_witness :
  ("10.0.0.1"%string = "10.0.0.1"%string) /\ (7000 = 7000).
Proof.
  apply (make_key_injective "10.0.0.1" 7000 "10.0.0.1" 7000). reflexivity.
Defined.

(** *** The client session: further properties *)

Section ClientMore.
Import DistributedFileSystem.
Context `{Platform}.

Ltac split_run Hrun :=
  unfold bind in Hrun;
  repeat match type of Hrun with
         | context [match ?x with _ => _ end] => destruct x eqn:?
         end;
  try discriminate Hrun;
  inversion Hrun; subst; clear Hrun.

(** Connecting to the directory changes the metadata socket only. *)
Lemma ensure_connected_keeps e s ok s1 :
  ensure_connected e s = (ok, s1) ->
  open_files_ s1 = open_files_ s /\
  next_file_handle_ s1 = next_file_handle_ s /\
  chunk_pool_ s1 = chunk_pool_ s /\
  metadata_cache_ s1 = metadata_cache_ s.
Proof.
  unfold ensure_connected, reconnect_to_metadata_server. intros Hrun.
  destruct (is_connected s); [inversion Hrun; auto |].
  destruct (connect_to_server e _ _). inversion Hrun. auto.
Qed.

(** What a call of [query_metadata] leaves. *)
Lemma query_metadata_outcome e s path m0 ok m s1 :
  query_metadata e s path m0 = Ret (ok, m, s1) ->
  open_files_ s1 = open_files_ s /\
  next_file_handle_ s1 = next_file_handle_ s /\
  chunk_pool_ s1 = chunk_pool_ s /\
  (forall k, k <> path -> metadata_cache_ s1 !! k = metadata_cache_ s !! k) /\
  if ok
  then exists entry,
         metadata_cache_ s1 !! path = Some entry /\
         metadata entry = m /\
         now e - cached_time entry < DFS_METADATA_CACHE_TTL_SEC
  else m = m0 /\ metadata_cache_ s1 !! path = None.
Proof.
  unfold query_metadata. intros Hrun.
  destruct (metadata_cache_ s !! path) as [entry|] eqn:Hcached.
  - destruct (now e - cached_time entry <? DFS_METADATA_CACHE_TTL_SEC) eqn:Hfresh.
    + inversion Hrun; subst. repeat split; try reflexivity.
      exists entry. apply Z.ltb_lt in Hfresh. auto.
    + destruct (ensure_connected e _) as [ok0 s0] eqn:Hconn.
      apply ensure_connected_keeps in Hconn as (Hfiles & Hnext & Hpool & Hcache).
      simpl in Hfiles, Hnext, Hpool, Hcache.
      split_run Hrun; simpl; rewrite ?Hcache;
        (split; [exact Hfiles |]); (split; [exact Hnext |]);
        (split; [exact Hpool |]);
        (split; [intros k Hk;
                 rewrite ?lookup_insert_ne by congruence;
                 apply lookup_delete_ne; congruence |]);
        try (split; [reflexivity | apply lookup_delete_eq]).
      eexists. split; [apply lookup_insert_eq |]. split; [reflexivity |].
      simpl. unfold DFS_METADATA_CACHE_TTL_SEC. lia.
  - destruct (ensure_connected e s) as [ok0 s0] eqn:Hconn.
    apply ensure_connected_keeps in Hconn as (Hfiles & Hnext & Hpool & Hcache).
    split_run Hrun; simpl; rewrite ?Hcache;
      (split; [exact Hfiles |]); (split; [exact Hnext |]);
      (split; [exact Hpool |]);
      (split; [intros k Hk; rewrite ?lookup_insert_ne by congruence; reflexivity |]);
      try (split; [reflexivity | exact Hcached]).
    eexists. split; [apply lookup_insert_eq |]. split; [reflexivity |].
    simpl. unfold DFS_METADATA_CACHE_TTL_SEC. lia.
Qed.

(** X21: a successful metadata query is served from the cache afterwards.
    After [query_metadata] returned [true] with metadata [m], the cache
    holds an entry for the path with that metadata, fresh at the time of
    the call; and every later query for the path made while the entry is
    younger than [DFS_METADATA_CACHE_TTL_SEC] seconds returns [true] and
    the same [m] without any change of the client: nothing is sent, and
    the directory need not be reachable. *)
Theorem query_metadata_cached e s path m0 m s1 :
  query_metadata e s path m0 = Ret (true, m, s1) ->
  exists entry,
    metadata_cache_ s1 !! path = Some entry /\
    metadata entry = m /\
    now e - cached_time entry < DFS_METADATA_CACHE_TTL_SEC /\
    forall e1 m1,
      now e1 - cached_time entry < DFS_METADATA_CACHE_TTL_SEC ->
      query_metadata e1 s1 path m1 = Ret (true, m, s1).
Proof.
  intros Hrun.
  destruct (query_metadata_outcome _ _ _ _ _ _ _ Hrun)
    as (_ & _ & _ & _ & entry & Hentry & Hm & Hfresh).
  exists entry. split; [exact Hentry |]. split; [exact Hm |]. split; [exact Hfresh |].
  intros e1 m1 Hyoung. unfold query_metadata. rewrite Hentry.
  apply Z.ltb_lt in Hyoung. rewrite Hyoung, Hm. reflexivity.
Qed.

(** X22: a failed metadata query leaves no entry behind.  When
    [query_metadata] returns [false], the caller's metadata object is
    unchanged, the cache holds no entry for the path (an expired one has
    been erased), every other cache entry, the table of open files and
    the descriptor counter are as before. *)
Theorem query_metadata_failure e s path m0 m s1 :
  query_metadata e s path m0 = Ret (false, m, s1) ->
  m = m0 /\
  metadata_cache_ s1 !! path = None /\
  (forall k, k <> path -> metadata_cache_ s1 !! k = metadata_cache_ s !! k) /\
  open_files_ s1 = open_files_ s /\
  next_file_handle_ s1 = next_file_handle_ s.
Proof.
  intros Hrun.
  destruct (query_metadata_outcome _ _ _ _ _ _ _ Hrun)
    as (Hfiles & Hnext & _ & Hothers & -> & Hnone).
  auto.
Qed.

(** X23: what [open] registers.  From a client whose descriptor counter
    is positive, [open] either returns [-1] and leaves the table of open
    files and the counter as they were, or returns the counter's value,
    increments the counter and adds under that descriptor, which was not
    in use, a handle for the path at offset 0, with the file id and the
    chunk list of the metadata now cached for the path, writable exactly
    when [flags] is odd; every other descriptor keeps its handle. *)
Theorem open_registers_handle e s path flags fd s1 :
  0 < next_file_handle_ s ->
  (forall k h, open_files_ s !! k = Some h -> k < next_file_handle_ s) ->
  open e s path flags = Ret (fd, s1) ->
  (fd = -1 /\ open_files_ s1 = open_files_ s /\
   next_file_handle_ s1 = next_file_handle_ s) \/
  (fd = next_file_handle_ s /\ next_file_handle_ s1 = fd + 1 /\
   open_files_ s !! fd = None /\
   (forall k, k <> fd -> open_files_ s1 !! k = open_files_ s !! k) /\
   exists h entry,
     open_files_ s1 !! fd = Some h /\
     metadata_cache_ s1 !! path = Some entry /\
     DistributedFileSystem.path h = path /\
     file_id h = FileMetadata.file_id (metadata entry) /\
     chunks h = FileMetadata.chunks (metadata entry) /\
     current_offset h = 0 /\
     writable h = Z.odd flags /\
     open_time h = now e).
Proof.
  intros Hpos Hbelow Hrun. unfold open, bind in Hrun.
  destruct (query_metadata e s path _) as [[[ok m1] s0]|] eqn:Hq; [| discriminate].
  destruct (query_metadata_outcome _ _ _ _ _ _ _ Hq)
    as (Hfiles & Hnext & _ & _ & Hcache).
  destruct ok; cbn [negb] in Hrun.
  - destruct (next_file_handle_ s0 =? INT_MAX); [discriminate |].
    inversion Hrun; subst; clear Hrun. right.
    destruct Hcache as (entry & Hentry & Hm & _).
    cbn [next_file_handle_ open_files_ metadata_cache_ set_open_files].
    rewrite Hfiles, Hnext.
    split; [reflexivity |]. split; [reflexivity |].
    split.
    { destruct (open_files_ s !! next_file_handle_ s) as [h|] eqn:Hk; [| reflexivity].
      apply Hbelow in Hk. lia. }
    split; [intros k Hk; apply lookup_insert_ne; congruence |].
    eexists _, entry. split; [apply lookup_insert_eq |].
    split; [exact Hentry |].
    cbn [DistributedFileSystem.path file_id chunks current_offset writable open_time].
    rewrite Hm.
    repeat split.
    change 1 with (Z.ones 1). rewrite Z.land_ones by lia.
    change (2 ^ 1) with 2. rewrite Zmod_odd.
    destruct (Z.odd flags); reflexivity.
  - inversion Hrun; subst; clear Hrun. left. auto.
Qed.

(** X24: [close] removes one descriptor, once.  For a descriptor that is
    not open it returns [-1] and changes nothing.  For an open one it
    returns 0, removes that entry and no other, keeps the descriptor
    counter, and a second [close] of the same descriptor returns [-1]. *)
Theorem close_result s fd :
  match open_files_ s !! fd with
  | None => close s fd = (-1, s)
  | Some _ =>
      fst (close s fd) = 0 /\
      open_files_ (snd (close s fd)) !! fd = None /\
      (forall k, k <> fd ->
         open_files_ (snd (close s fd)) !! k = open_files_ s !! k) /\
      next_file_handle_ (snd (close s fd)) = next_file_handle_ s /\
      close (snd (close s fd)) fd = (-1, snd (close s fd))
  end.
Proof.
  destruct (open_files_ s !! fd) as [h|] eqn:Hk;
    [| unfold close; rewrite Hk; reflexivity].
  assert (close s fd
          = (0, set_open_files s (delete fd (open_files_ s)) (next_file_handle_ s)))
    as -> by (unfold close; rewrite Hk; reflexivity).
  cbn [fst snd open_files_ next_file_handle_ set_open_files].
  split; [reflexivity |]. split; [apply lookup_delete_eq |].
  split; [intros k Hne; apply lookup_delete_ne; congruence |].
  split; [reflexivity |].
  unfold close. cbn [open_files_ set_open_files].
  rewrite lookup_delete_eq. reflexivity.
Qed.

(** X25: a directory update that succeeds drops the cached metadata of
    its path.  When [create_file], [delete_file] or [mkdir] returns 0, the
    cache holds no entry for the path afterwards; every other cache entry
    is as before, and so are the table of open files (descriptors of a
    deleted file stay open) and the descriptor counter. *)
Theorem directory_update_invalidates e s path permissions r s1 :
  create_file e s path permissions = Ret (r, s1) \/
  delete_file e s path = Ret (r, s1) \/
  mkdir e s path = Ret (r, s1) ->
  r = 0 ->
  metadata_cache_ s1 !! path = None /\
  (forall k, k <> path -> metadata_cache_ s1 !! k = metadata_cache_ s !! k) /\
  open_files_ s1 = open_files_ s /\
  next_file_handle_ s1 = next_file_handle_ s.
Proof.
  intros [Hrun | [Hrun | Hrun]] Hzero;
    [unfold create_file in Hrun | unfold delete_file in Hrun | unfold mkdir in Hrun];
    destruct (ensure_connected e s) as [ok0 s0] eqn:Hconn;
    apply ensure_connected_keeps in Hconn as (Hfiles & Hnext & _ & Hcache);
    split_run Hrun; try discriminate;
    cbn [metadata_cache_ open_files_ next_file_handle_ invalidate_cache_entry
         set_metadata_cache set_metadata_client];
    rewrite Hcache;
    (split; [apply lookup_delete_eq |]);
    (split; [intros k Hk; apply lookup_delete_ne; congruence |]);
    split; assumption.
Qed.

End ClientMore.

Section ReplicaSelection.
Import Replicas.

Lemma select_replicas_from chunks : forall locations,
  fold_left (fun locations chunk =>
               match ChunkHandle.replicas chunk with
               | [] => locations
               | _ :: _ => locations ++ [select_nearest_replica (ChunkHandle.replicas chunk)]
               end) chunks locations
  = locations
    ++ flat_map (fun chunk => match ChunkHandle.replicas chunk with
                              | [] => []
                              | first :: _ => [first]
                              end) chunks.
Proof.
  induction chunks as [|chunk chunks IH]; intros locations; cbn [fold_left flat_map].
  - symmetry. apply app_nil_r.
  - rewrite IH. destruct (ChunkHandle.replicas chunk) as [|first rest].
    + reflexivity.
    + cbn [select_nearest_replica]. rewrite <- app_assoc. reflexivity.
Qed.

(** X26: [select_replicas] returns, in the order of the chunks, the first
    replica of every chunk that has one and nothing for a chunk without
    replicas, so the result can be shorter than the chunk list and its
    positions then no longer line up with the chunks; when every chunk
    has a replica it is the list of the chunks' nearest replicas, one per
    chunk. *)
Theorem select_replicas_result chunks :
  select_replicas chunks
  = flat_map (fun chunk => match ChunkHandle.replicas chunk with
                           | [] => []
                           | first :: _ => [first]
                           end) chunks /\
  (List.length (select_replicas chunks) <= List.length chunks)%nat /\
  (forallb (fun chunk => negb (Nat.eqb (List.length (ChunkHandle.replicas chunk)) 0))
     chunks = true ->
   select_replicas chunks
   = List.map (fun chunk => select_nearest_replica (ChunkHandle.replicas chunk)) chunks).
Proof.
  assert (select_replicas chunks
          = flat_map (fun chunk => match ChunkHandle.replicas chunk with
                                   | [] => []
                                   | first :: _ => [first]
                                   end) chunks) as Hshape
    by (unfold select_replicas; rewrite select_replicas_from; reflexivity).
  split; [exact Hshape |]. rewrite Hshape. clear Hshape. split.
  - induction chunks as [|chunk chunks IH]; [reflexivity |].
    cbn [flat_map]. rewrite length_app.
    destruct (ChunkHandle.replicas chunk); cbn [List.length]; lia.
  - intros Hall.
    induction chunks as [|chunk chunks IH]; [reflexivity |].
    cbn [forallb] in Hall. apply andb_true_iff in Hall as [Hsome Hrest].
    cbn [flat_map List.map]. rewrite (IH Hrest).
    destruct (ChunkHandle.replicas chunk); [discriminate | reflexivity].
Qed.

End ReplicaSelection.

(** X21 on a new client in a world where the directory answers with the
    144 bytes of a metadata object: the metadata fetched for "/x" (file
    id 9, 5 bytes) is cached and served again when the directory is
    unreachable. *)
Lemma query_metadata_cached_witness :
  exists m s1 entry,
    @DistributedFileSystem.query_metadata example_platform Session.directory
      (DistributedFileSystem.init "127.0.0.1" 9000) "/x" Session.file_x
    = Ret (true, m, s1) /\
    FileMetadata.file_id m = 9 /\
    FileMetadata.file_size m = 5 /\
    DistributedFileSystem.metadata_cache_ s1 !! "/x"%string = Some entry /\
    DistributedFileSystem.metadata entry = m /\
    @DistributedFileSystem.query_metadata example_platform Session.offline s1 "/x"
      Session.file_x
    = Ret (true, m, s1).
Proof.
  assert (exists m s1,
            @DistributedFileSystem.query_metadata example_platform Session.directory
              (DistributedFileSystem.init "127.0.0.1" 9000) "/x" Session.file_x
            = Ret (true, m, s1) /\
            FileMetadata.file_id m = 9 /\
            FileMetadata.file_size m = 5) as (m & s1 & Hrun & Hid & Hsize)
    by (eexists _, _; split; [vm_compute; reflexivity | split; reflexivity]).
  destruct (@query_metadata_cached example_platform _ _ _ _ _ _ Hrun)
    as (entry & Hentry & Hm & Hfresh & Hagain).
  exists m, s1, entry.
  split; [exact Hrun |]. split; [exact Hid |]. split; [exact Hsize |].
  split; [exact Hentry |]. split; [exact Hm |].
  apply Hagain. exact Hfresh.
Defined.

(** X22 on a new client in a world where the directory is unreachable. *)
Lemma query_metadata_failure_witness :
  exists s1,
    @DistributedFileSystem.query_metadata example_platform Session.offline
      (DistributedFileSystem.init "127.0.0.1" 9000) "/x" Session.file_x
    = Ret (false, Session.file_x, s1) /\
    DistributedFileSystem.metadata_cache_ s1 !! "/x"%string = None.
Proof.
  assert (exists m s1,
            @DistributedFileSystem.query_metadata example_platform Session.offline
              (DistributedFileSystem.init "127.0.0.1" 9000) "/x" Session.file_x
            = Ret (false, m, s1)) as (m & s1 & Hrun)
    by (eexists _, _; vm_compute; reflexivity).
  destruct (@query_metadata_failure example_platform _ _ _ _ _ _ Hrun)
    as (Hm & Hnone & _).
  exists s1. rewrite Hm in Hrun. split; [exact Hrun | exact Hnone].
Defined.

(** X23 on a new client in a world where the directory answers with the
    144 bytes of a metadata object: "/x" opened with flags 1 is
    descriptor 1, for file id 9, writable, at offset 0. *)
Lemma open_registers_handle_witness :
  exists s1 h,
    @DistributedFileSystem.open example_platform Session.directory
      (DistributedFileSystem.init "127.0.0.1" 9000) "/x" 1
    = Ret (1, s1) /\
    DistributedFileSystem.open_files_ s1 !! 1 = Some h /\
    DistributedFileSystem.file_id h = 9 /\
    DistributedFileSystem.writable h = true /\
    DistributedFileSystem.current_offset h = 0.
Proof.
  assert (exists s1 h0,
            @DistributedFileSystem.open example_platform Session.directory
              (DistributedFileSystem.init "127.0.0.1" 9000) "/x" 1
            = Ret (1, s1) /\
            DistributedFileSystem.open_files_ s1 !! 1 = Some h0 /\
            DistributedFileSystem.file_id h0 = 9) as (s1 & h0 & Hrun & Hh0 & Hid)
    by (eexists _, _; split; [vm_compute; reflexivity | split; reflexivity]).
  assert (0 < DistributedFileSystem.next_file_handle_
                (DistributedFileSystem.init "127.0.0.1" 9000)) as Hpos
    by (simpl; lia).
  assert (forall k h,
            DistributedFileSystem.open_files_
              (DistributedFileSystem.init "127.0.0.1" 9000) !! k = Some h ->
            k < DistributedFileSystem.next_file_handle_
                  (DistributedFileSystem.init "127.0.0.1" 9000)) as Hbelow
    by (intros k h Hk; simpl in Hk; rewrite lookup_empty in Hk; discriminate).
  destruct (@open_registers_handle example_platform _ _ _ _ _ _ Hpos Hbelow Hrun)
    as [[Hfailed _] | (_ & _ & _ & _ & h & entry & Hh & _ & _ & _ & _ & Hoff & Hw & _)].
  - discriminate.
  - exists s1, h. split; [exact Hrun |]. split; [exact Hh |].
    split; [congruence |]. split; [exact Hw | exact Hoff].
Defined.

(** X25 on a client that has the metadata of "/x" cached: after
    [delete_file] the entry is gone. *)
Lemma directory_update_invalidates_witness :
  exists s1,
    DistributedFileSystem.delete_file Session.online Session.cached_client "/x"
    = Ret (0, s1) /\
    DistributedFileSystem.metadata_cache_ s1 !! "/x"%string = None.
Proof.
  assert (exists s1,
            DistributedFileSystem.delete_file Session.online Session.cached_client "/x"
            = Ret (0, s1)) as (s1 & Hrun)
    by (eexists; vm_compute; reflexivity).
  destruct (directory_update_invalidates Session.online Session.cached_client "/x" 0
              0 s1 (or_intror (or_introl Hrun)) eq_refl) as (Hnone & _).
  exists s1. split; [exact Hrun | exact Hnone].
Defined.

(** *** Integrity: what the checksum detects *)

Section Integrity.

Lemma testbit_above_byte x k : 0 <= x < 256 -> 8 <= k -> Z.testbit x k = false.
Proof.
  intros Hx Hk.
  destruct (Z.eq_dec x 0) as [-> | Hnz]; [apply Z.bits_0 |].
  apply Z.bits_above_log2; [lia |].
  assert (Z.log2 x < 8) by (apply Z.log2_lt_pow2; lia). lia.
Qed.

Lemma testbit_low_byte c k :
  0 <= k -> Z.testbit (Z.land c 255) k = if k <? 8 then Z.testbit c k else false.
Proof.
  intros Hk. rewrite Z.land_spec. change 255 with (Z.ones 8).
  destruct (Z.ltb_spec k 8).
  - rewrite Z.ones_spec_low by lia. apply andb_true_r.
  - rewrite Z.ones_spec_high by lia. apply andb_false_r.
Qed.

(** The table index determines the byte, for a given register. *)
Lemma index_determines_byte c x y :
  0 <= x < 256 -> 0 <= y < 256 ->
  Z.land (Z.lxor c x) 255 = Z.land (Z.lxor c y) 255 -> x = y.
Proof.
  intros Hx Hy Heq. apply Z.bits_inj'. intros k Hk.
  destruct (Z.ltb_spec k 8) as [Hlow | Hhigh].
  - assert (Z.testbit (Z.land (Z.lxor c x) 255) k
            = Z.testbit (Z.land (Z.lxor c y) 255) k) as Hbit by congruence.
    rewrite !testbit_low_byte, !Z.lxor_spec in Hbit by lia.
    replace (k <? 8) with true in Hbit by (symmetry; apply Z.ltb_lt; lia).
    destruct (Z.testbit c k), (Z.testbit x k), (Z.testbit y k);
      simpl in Hbit; congruence.
  - rewrite !testbit_above_byte by lia. reflexivity.
Qed.

(** The table index determines the low byte of the register, for a given
    byte. *)
Lemma index_determines_low_byte c1 c2 b :
  Z.land (Z.lxor c1 b) 255 = Z.land (Z.lxor c2 b) 255 ->
  Z.land c1 255 = Z.land c2 255.
Proof.
  intros Heq. apply Z.bits_inj'. intros k Hk.
  assert (Z.testbit (Z.land (Z.lxor c1 b) 255) k
          = Z.testbit (Z.land (Z.lxor c2 b) 255) k) as Hbit by congruence.
  rewrite !testbit_low_byte, ?Z.lxor_spec in * by lia.
  destruct (k <? 8); [| reflexivity].
  destruct (Z.testbit c1 k), (Z.testbit c2 k), (Z.testbit b k);
    simpl in Hbit; congruence.
Qed.

Lemma lxor_cancel_l a b c : Z.lxor a b = Z.lxor a c -> b = c.
Proof.
  intros Heq.
  assert (Z.lxor a (Z.lxor a b) = Z.lxor a (Z.lxor a c)) as Hboth by congruence.
  rewrite <- !Z.lxor_assoc, Z.lxor_nilpotent, !Z.lxor_0_l in Hboth. exact Hboth.
Qed.

Lemma lxor_cancel_r a b c : Z.lxor b a = Z.lxor c a -> b = c.
Proof. rewrite !(Z.lxor_comm _ a). apply lxor_cancel_l. Qed.

Lemma index_in_table c b : (Z.to_nat (Z.land (Z.lxor c (u8 b)) 255) < 256)%nat.
Proof.
  change 255 with (Z.ones 8). rewrite Z.land_ones by lia.
  pose proof (Z.mod_pos_bound (Z.lxor c (u8 b)) (2 ^ 8) ltac:(lia)). lia.
Qed.

(** The 256 table entries have 256 different high bytes. *)
Lemma crc32_table_high_bytes i j :
  (i < 256)%nat -> (j < 256)%nat ->
  Z.shiftr (nth i crc32_table 0) 24 = Z.shiftr (nth j crc32_table 0) 24 -> i = j.
Proof.
  intros Hi Hj Heq.
  assert (List.NoDup (List.map (fun v => Z.shiftr v 24) crc32_table)) as Hdistinct.
  { apply NoDup_ListNoDup.
    apply (bool_decide_unpack _). vm_compute. exact I. }
  apply (proj1 (List.NoDup_nth _ (Z.shiftr 0 24)) Hdistinct);
    rewrite ?length_map; try (change (List.length crc32_table) with 256%nat; lia).
  rewrite !(List.map_nth (fun v => Z.shiftr v 24)). exact Heq.
Qed.

Lemma high_byte_of_update crc b :
  0 <= crc < 2 ^ 32 ->
  Z.shiftr (crc32_update crc b) 24
  = Z.shiftr (nth (Z.to_nat (Z.land (Z.lxor crc (u8 b)) 0xFF)) crc32_table 0) 24.
Proof.
  intros Hcrc. unfold crc32_update.
  rewrite Z.shiftr_lxor, Z.shiftr_shiftr by lia.
  rewrite (Z.shiftr_div_pow2 crc) by lia.
  rewrite (Z.div_small crc) by (simpl; lia).
  apply Z.lxor_0_l.
Qed.

(** One step of the loop is injective in the register. *)
Lemma crc32_update_register c1 c2 b :
  0 <= c1 < 2 ^ 32 -> 0 <= c2 < 2 ^ 32 ->
  crc32_update c1 b = crc32_update c2 b -> c1 = c2.
Proof.
  intros H1 H2 Heq.
  assert (Z.to_nat (Z.land (Z.lxor c1 (u8 b)) 0xFF)
          = Z.to_nat (Z.land (Z.lxor c2 (u8 b)) 0xFF)) as Hindex.
  { apply crc32_table_high_bytes; try apply index_in_table.
    rewrite <- !high_byte_of_update by assumption. congruence. }
  unfold crc32_update in Heq. rewrite Hindex in Heq.
  apply lxor_cancel_r in Heq.
  assert (Z.land c1 255 = Z.land c2 255) as Hlow.
  { apply (index_determines_low_byte c1 c2 (u8 b)).
    pose proof (index_in_table c1 b). pose proof (index_in_table c2 b).
    assert (0 <= Z.land (Z.lxor c1 (u8 b)) 255)
      by (change 255 with (Z.ones 8); rewrite Z.land_ones by lia;
          apply Z.mod_pos_bound; lia).
    assert (0 <= Z.land (Z.lxor c2 (u8 b)) 255)
      by (change 255 with (Z.ones 8); rewrite Z.land_ones by lia;
          apply Z.mod_pos_bound; lia).
    change 0xFF with 255 in Hindex. lia. }
  change 255 with (Z.ones 8) in Hlow. rewrite !Z.land_ones in Hlow by lia.
  rewrite !Z.shiftr_div_pow2 in Heq by lia.
  rewrite (Z.div_mod c1 (2 ^ 8)), (Z.div_mod c2 (2 ^ 8)) by lia.
  congruence.
Qed.

(** One step of the loop is injective in the byte. *)
Lemma crc32_update_byte c x y :
  crc32_update c x = crc32_update c y -> x = y.
Proof.
  intros Heq. unfold crc32_update in Heq. apply lxor_cancel_l in Heq.
  assert (Z.to_nat (Z.land (Z.lxor c (u8 x)) 0xFF)
          = Z.to_nat (Z.land (Z.lxor c (u8 y)) 0xFF)) as Hindex
    by (apply crc32_table_high_bytes; try apply index_in_table; congruence).
  assert (u8 x = u8 y) as Hbyte.
  { assert (0 <= u8 x < 256) by (unfold u8; pose proof (Byte.to_N_bounded x); lia).
    assert (0 <= u8 y < 256) by (unfold u8; pose proof (Byte.to_N_bounded y); lia).
    apply (index_determines_byte c); try assumption.
    assert (0 <= Z.land (Z.lxor c (u8 x)) 255)
      by (change 255 with (Z.ones 8); rewrite Z.land_ones by lia;
          apply Z.mod_pos_bound; lia).
    assert (0 <= Z.land (Z.lxor c (u8 y)) 255)
      by (change 255 with (Z.ones 8); rewrite Z.land_ones by lia;
          apply Z.mod_pos_bound; lia).
    change 0xFF with 255 in Hindex. lia. }
  unfold u8 in Hbyte. apply N2Z.inj in Hbyte.
  assert (Some x = Some y) as Hsome
    by (rewrite <- (Byte.of_to_N x), <- (Byte.of_to_N y), Hbyte; reflexivity).
  congruence.
Qed.

Lemma crc32_fold_register l : forall c1 c2,
  0 <= c1 < 2 ^ 32 -> 0 <= c2 < 2 ^ 32 ->
  fold_left crc32_update l c1 = fold_left crc32_update l c2 -> c1 = c2.
Proof.
  induction l as [|b l IH]; intros c1 c2 H1 H2 Heq; [exact Heq |].
  cbn [fold_left] in Heq.
  apply IH in Heq; try (apply crc32_update_bounded; assumption).
  eapply crc32_update_register; eauto.
Qed.

(** Two buffers of one length that differ in exactly one byte have
    different checksums. *)
Lemma calculate_crc32_byte_change a x y t :
  calculate_crc32 (a ++ x :: t) (vsize (a ++ x :: t))
  = calculate_crc32 (a ++ y :: t) (vsize (a ++ y :: t)) ->
  x = y.
Proof.
  unfold calculate_crc32. rewrite !firstn_vsize. intros Heq.
  apply lxor_cancel_r in Heq.
  rewrite !fold_left_app in Heq. cbn [fold_left] in Heq.
  assert (0 <= fold_left crc32_update a 0xFFFFFFFF < 2 ^ 32) as Hrange
    by (apply crc32_fold_bounded; lia).
  apply crc32_fold_register in Heq;
    try (apply crc32_update_bounded; exact Hrange).
  eapply crc32_update_byte; eauto.
Qed.

(** X27: a payload with one corrupted byte is rejected.  Let [f] be a
    frame with header members of their C++ types, the protocol's magic,
    and the checksum of its payload.  If what arrives on a connected
    socket is the header of [f] followed by the payload of [f] with
    exactly one byte changed, [recv_frame] returns [false]: the CRC32 of
    two buffers of one length that differ in a single byte is never the
    same. *)
Theorem recv_frame_rejects_corrupted_byte sock f f0 a x y t tail :
  header_typed f ->
  magic f = DFS_PROTOCOL_MAGIC ->
  payload_size f <= DFS_CHUNK_SIZE_BYTES ->
  payload_bytes f (payload_size f) = a ++ x :: t ->
  ProtocolFrame.checksum f
  = calculate_crc32 (payload_bytes f (payload_size f)) (payload_size f) ->
  x <> y ->
  0 <= socket_fd_ sock ->
  inbox sock = header_bytes f ++ (a ++ y :: t) ++ tail ->
  exists g sock1, recv_frame sock f0 = Ret (false, g, sock1).
Proof.
  intros Hty Hmagic Hfit Hpayload Hcrc Hdiff Hfd Hin.
  pose proof Hty as (_ & _ & _ & Hsize & _).
  set (n := payload_size f) in *.
  assert (vsize (a ++ x :: t) = n) as Hlen
    by (rewrite <- Hpayload; apply length_payload_bytes; lia).
  assert (vsize (a ++ y :: t) = n) as Hlen'
    by (rewrite <- Hlen; unfold vsize; rewrite !length_app; reflexivity).
  pose proof (memcpy_header_header_bytes f0 f Hty) as Hhdr.
  pose proof (recv_frame_good_magic sock f0 (header_bytes f)
                ((a ++ y :: t) ++ tail)) as Hrecv.
  cbv zeta in Hrecv.
  rewrite Hhdr in Hrecv. cbn [magic payload_size ProtocolFrame.checksum] in Hrecv.
  fold n in Hrecv.
  assert (firstn (Z.to_nat n) ((a ++ y :: t) ++ tail) = a ++ y :: t) as Hbody
    by (apply firstn_app_length; unfold vsize in Hlen'; lia).
  specialize (Hrecv Hfd Hin (length_header_bytes f) Hmagic Hfit).
  rewrite Hbody in Hrecv.
  replace (calculate_crc32 (a ++ y :: t) n =? ProtocolFrame.checksum f) with false
    in Hrecv.
  - eexists _, _. apply Hrecv. unfold vsize in *. rewrite length_app. lia.
  - symmetry. apply Z.eqb_neq. intros Hsame. apply Hdiff.
    apply (calculate_crc32_byte_change a x y t).
    rewrite Hlen, Hlen', Hsame, Hcrc, Hpayload. reflexivity.
Qed.

End Integrity.

(** X27 for the "Hello" frame with its third byte changed from 'l' to
    'L'. *)
Lemma recv_frame_rejects_corrupted_byte_witness :
  exists g sock1,
    recv_frame
      (receiving (header_bytes (frame_of DFS_PROTOCOL_VERSION OP_WRITE hello)
                  ++ ([x48; x65] ++ x4c :: [x6c; x6f]) ++ []))
      zero_frame
    = Ret (false, g, sock1).
Proof.
  set (f := frame_of DFS_PROTOCOL_VERSION OP_WRITE hello).
  assert (header_typed f) as Hty
    by (vm_compute; repeat split; (reflexivity || discriminate)).
  assert (payload_size f <= DFS_CHUNK_SIZE_BYTES) as Hfit
    by (vm_compute; discriminate).
  assert (x6c <> x4c) as Hdiff by discriminate.
  assert (0 <= socket_fd_
                 (receiving (header_bytes f ++ ([x48; x65] ++ x4c :: [x6c; x6f]) ++ [])))
    as Hfd by (vm_compute; discriminate).
  exact (recv_frame_rejects_corrupted_byte _ f zero_frame [x48; x65] x6c x4c
           [x6c; x6f] [] Hty eq_refl Hfit eq_refl eq_refl Hdiff Hfd eq_refl).
Defined.

(** *** The client session: the table of open files *)

Section OpenFiles.
Import DistributedFileSystem Session.
Context `{Platform}.

Ltac split_call Hrun :=
  unfold bind in Hrun;
  repeat match type of Hrun with
         | context [match ?x with _ => _ end] => destruct x eqn:?
         end;
  try discriminate Hrun;
  inversion Hrun; subst; clear Hrun.

Lemma create_file_keeps_files e s path permissions r s1 :
  create_file e s path permissions = Ret (r, s1) -> open_files_ s1 = open_files_ s.
Proof.
  unfold create_file. intros Hrun.
  destruct (ensure_connected e s) as [ok s0] eqn:Hconn.
  apply ensure_connected_keeps in Hconn as (Hfiles & _).
  split_call Hrun; simpl; exact Hfiles.
Qed.

Lemma delete_file_keeps_files e s path r s1 :
  delete_file e s path = Ret (r, s1) -> open_files_ s1 = open_files_ s.
Proof.
  unfold delete_file. intros Hrun.
  destruct (ensure_connected e s) as [ok s0] eqn:Hconn.
  apply ensure_connected_keeps in Hconn as (Hfiles & _).
  split_call Hrun; simpl; exact Hfiles.
Qed.

Lemma mkdir_keeps_files e s path r s1 :
  mkdir e s path = Ret (r, s1) -> open_files_ s1 = open_files_ s.
Proof.
  unfold mkdir. intros Hrun.
  destruct (ensure_connected e s) as [ok s0] eqn:Hconn.
  apply ensure_connected_keeps in Hconn as (Hfiles & _).
  split_call Hrun; simpl; exact Hfiles.
Qed.

(** The handles one call leaves in the table: those that were there, and
    for an [open] that succeeded the new one, at offset 0 under the
    descriptor returned. *)
Lemma perform_files s c r s1 :
  1 <= next_file_handle_ s ->
  perform s c = Ret (r, s1) ->
  forall k h, open_files_ s1 !! k = Some h ->
    open_files_ s !! k = Some h \/ (r = Some k /\ current_offset h = 0).
Proof.
  intros Hpos Hrun k h Hk.
  destruct c as [e p perms | e p | e p | e p m | e p flags
                | e fd buffer size | e fd bytes size | fd];
    unfold perform, bind in Hrun.
  - destruct (create_file e s p perms) as [[r0 s0]|] eqn:Hc; [| discriminate].
    inversion Hrun; subst. apply create_file_keeps_files in Hc.
    left. congruence.
  - destruct (delete_file e s p) as [[r0 s0]|] eqn:Hc; [| discriminate].
    inversion Hrun; subst. apply delete_file_keeps_files in Hc.
    left. congruence.
  - destruct (mkdir e s p) as [[r0 s0]|] eqn:Hc; [| discriminate].
    inversion Hrun; subst. apply mkdir_keeps_files in Hc.
    left. congruence.
  - destruct (get_file_info e s p m) as [[[ok m1] s0]|] eqn:Hc; [| discriminate].
    inversion Hrun; subst.
    apply query_metadata_outcome in Hc as (Hfiles & _).
    left. congruence.
  - unfold open, bind in Hrun.
    destruct (query_metadata e s p _) as [[[ok m1] s0]|] eqn:Hq; [| discriminate].
    apply query_metadata_outcome in Hq as (Hfiles & Hnext & _).
    destruct ok; cbn [negb] in Hrun.
    + destruct (next_file_handle_ s0 =? INT_MAX); [discriminate |].
      inversion Hrun; subst; clear Hrun.
      cbn [open_files_ set_open_files] in Hk.
      destruct (decide (k = next_file_handle_ s0)) as [-> | Hne].
      * rewrite lookup_insert_eq in Hk. injection Hk as <-.
        right. split; [| reflexivity].
        replace (next_file_handle_ s0 =? -1) with false
          by (symmetry; apply Z.eqb_neq; lia).
        reflexivity.
      * rewrite lookup_insert_ne in Hk by congruence. left. congruence.
    + inversion Hrun; subst. left. congruence.
  - rewrite read_returns_zero in Hrun. inversion Hrun; subst. left. exact Hk.
  - destruct (write e s fd bytes size) as [[r0 s0]|] eqn:Hc; [| discriminate].
    inversion Hrun; subst.
    apply write_keeps_client in Hc as [_ ->]. left. exact Hk.
  - inversion Hrun; subst. unfold close in Hk.
    destruct (open_files_ s !! fd); [| left; exact Hk].
    cbn [snd open_files_ set_open_files] in Hk.
    apply lookup_delete_Some in Hk as [_ Hk]. left. exact Hk.
Qed.

Lemma session_files calls : forall s fds s1 (known : Z -> Prop),
  1 <= next_file_handle_ s ->
  (forall k h, open_files_ s !! k = Some h -> known k /\ current_offset h = 0) ->
  session s calls = Ret (fds, s1) ->
  forall k h, open_files_ s1 !! k = Some h ->
    (known k \/ In k fds) /\ current_offset h = 0.
Proof.
  induction calls as [|c rest IH]; intros s fds s1 known Hpos Hknown Hrun k h Hk.
  - inversion Hrun; subst. destruct (Hknown _ _ Hk). auto.
  - cbn [session] in Hrun. unfold bind in Hrun.
    destruct (perform s c) as [[r s0]|] eqn:Hc; [| discriminate].
    destruct (session s0 rest) as [[fds0 s2]|] eqn:Hrest; [| discriminate].
    inversion Hrun; subst; clear Hrun.
    pose proof (perform_next _ _ _ _ Hpos Hc) as Hnext.
    assert (1 <= next_file_handle_ s0) as Hpos0 by (destruct r; lia).
    destruct (IH s0 fds0 s1 (fun k => known k \/ r = Some k) Hpos0) with (k := k) (h := h)
      as [Hwhere Hoffset]; [| exact Hrest | exact Hk |].
    + intros k0 h0 Hk0.
      destruct (perform_files _ _ _ _ Hpos Hc _ _ Hk0) as [Hold | [Hnew Hzero]].
      * destruct (Hknown _ _ Hold). auto.
      * auto.
    + split; [| exact Hoffset].
      destruct Hwhere as [[Hold | Hnew] | Hlater].
      * left. exact Hold.
      * subst r. right. left. reflexivity.
      * right. destruct r; [right |]; exact Hlater.
Qed.

(** X28: the table of open files holds only descriptors that [open]
    returned, each at offset 0.  In any sequence of calls on one client,
    from its construction on, every descriptor in the table after the last
    call is one that an [open] of the sequence returned, is at least 1 and
    below the descriptor counter, and its handle's [current_offset] is
    still 0: no call of [read] or [write] ever advances a file
    position. *)
Theorem session_open_files ip port calls fds s1 :
  session (init ip port) calls = Ret (fds, s1) ->
  forall k h, open_files_ s1 !! k = Some h ->
    In k fds /\ 1 <= k < next_file_handle_ s1 /\ current_offset h = 0.
Proof.
  intros Hrun k h Hk.
  destruct (session_files calls (init ip port) fds s1 (fun _ => False)
              ltac:(simpl; lia)) with (k := k) (h := h) as [[[] | Hin] Hoffset];
    [| exact Hrun | exact Hk |].
  - intros k0 h0 Hk0. simpl in Hk0. rewrite lookup_empty in Hk0. discriminate.
  - destruct (session_descriptors calls (init ip port) fds s1 ltac:(simpl; lia) Hrun)
      as (Hlow & _ & Hhigh & _).
    rewrite List.Forall_forall in Hlow, Hhigh.
    specialize (Hlow _ Hin). specialize (Hhigh _ Hin). simpl in Hlow.
    split; [exact Hin |]. split; [lia | exact Hoffset].
Qed.

End OpenFiles.

(** X28 after open, close, open on a new client, in a world where the
    directory answers with the 144 bytes of a metadata object: descriptor
    2 is in the table, at offset 0. *)
Lemma session_open_files_witness :
  exists s1 h,
    @Session.session example_platform (DistributedFileSystem.init "127.0.0.1" 9000)
      Session.open_close_open
    = Ret ([1; 2], s1) /\
    DistributedFileSystem.open_files_ s1 !! 2 = Some h /\
    In 2 [1; 2] /\
    1 <= 2 < DistributedFileSystem.next_file_handle_ s1 /\
    DistributedFileSystem.current_offset h = 0.
Proof.
  assert (exists s1 h,
            @Session.session example_platform
              (DistributedFileSystem.init "127.0.0.1" 9000) Session.open_close_open
            = Ret ([1; 2], s1) /\
            DistributedFileSystem.open_files_ s1 !! 2 = Some h)
    as (s1 & h & Hrun & Hk)
    by (eexists _, _; split; vm_compute; reflexivity).
  exists s1, h. split; [exact Hrun |]. split; [exact Hk |].
  exact (@session_open_files example_platform _ _ _ _ _ Hrun 2 h Hk).
Defined.

(** *** The platform of the worked examples *)

(** Every struct is written as [sizeof] bytes, the metadata object of the
    examples has the 144 bytes of a [FileMetadata], and it is read back
    as file 9 of 5 bytes with permissions 0644 and replication factor
    3. *)
Example example_platform_sizes :
  (forall r, vsize (@store_FileReadRequest example_platform r)
             = @sizeof_FileReadRequest example_platform) /\
  (forall r, vsize (@store_FileReadResponse example_platform r)
             = @sizeof_FileReadResponse example_platform) /\
  (forall r, vsize (@store_FileWriteRequest example_platform r)
             = @sizeof_FileWriteRequest example_platform) /\
  (forall r, vsize (@store_FileWriteResponse example_platform r)
             = @sizeof_FileWriteResponse example_platform) /\
  vsize file_x_image = @sizeof_FileMetadata example_platform /\
  @sizeof_FileMetadata example_platform = 144 /\
  (let m := @load_FileMetadata example_platform file_x_image in
   (FileMetadata.file_id m, FileMetadata.permissions m, FileMetadata.file_size m,
    FileMetadata.replication_factor m, FileMetadata.is_directory m)
   = (9, 420, 5, 3, false)).
Proof.
  repeat split;
    try (intros r; unfold vsize; cbn [example_platform store_FileReadRequest
           store_FileReadResponse store_FileWriteRequest store_FileWriteResponse];
         rewrite !length_app, !length_le_bytes; reflexivity).
Qed.
